(** * godiscord coordinator: the task queue and the registries

    A shallow embedding of
      - [coordinator/tasks/queue.py]   (class [TaskQueue], enum [TaskStatus]),
      - [coordinator/registries/agent_registry.py] ([get_agent], [get_model]),
      - [coordinator/core/config.py]   (class [Config], from the loaded YAML
        document on),
      - [coordinator/discord/bot.py]   (the handlers [cmd_launch],
        [cmd_task_status] and [cmd_task_list], up to what they send),
      - [coordinator/discord/formatters.py],
    together with the fragment of CPython's [json] module that [queue.py]
    drives through [json.dump (data, f, indent=2, default=str)] and
    [json.load (f)].

    Conventions.
      - A Python [str] is a [string]; every character is a code point below 256.
      - A Python exception is a constructor of [exn]; [OutsideModel] marks
        behaviour that this development does not describe (numbers, nested
        field values, code points above 255, CPython's recursion limit, a
        method called on [None], [str.upper] beyond ASCII, [str] of a list or
        a dictionary).  No theorem draws a conclusion from an [OutsideModel]
        outcome.
      - The content of [tasks.json] is the whole mutable state: [None] when the
        file does not exist, [Some text] otherwise.
      - The two sources of non-determinism of [add_task], [uuid.uuid4 ()] and
        [datetime.now ().isoformat ()], are explicit arguments; so is the
        time that a formatter prints.
      - What is read from outside is an argument too: the environment of the
        process, the YAML document of the configuration, the two registries.
      - The emoji and the bullet of the messages are written as their bytes
        in UTF-8; the messages are built and never decoded. *)

From Stdlib Require Import List String Ascii Bool Arith NArith ZArith Lia.
From Stdlib Require Import Permutation Sorted.
From Stdlib Require Import DecimalString DecimalPos.
Import ListNotations.

Local Open Scope string_scope.
Local Open Scope list_scope.

(* ================================================================== *)
(** ** Exceptions and results *)

Inductive exn : Type :=
| KeyError (key : string)
| TypeError
| ValueError (msg : string)
| FileNotFoundError
| JSONDecodeError
| OutsideModel.

Inductive result (A : Type) : Type :=
| Ok (a : A)
| Raise (e : exn).

Arguments Ok {A} a.
Arguments Raise {A} e.

Definition rbind {A B : Type} (r : result A) (k : A -> result B) : result B :=
  match r with
  | Ok a => k a
  | Raise e => Raise e
  end.

Declare Scope result_scope.
Delimit Scope result_scope with result.
Notation "x <- r ;; k" := (rbind r (fun x => k))
  (at level 61, r at next level, right associativity) : result_scope.
Notation "' p <- r ;; k" := (rbind r (fun p => k))
  (at level 61, p pattern, r at next level, right associativity) : result_scope.

Fixpoint mapM {A B : Type} (f : A -> result B) (l : list A) : result (list B) :=
  match l with
  | [] => Ok []
  | x :: xs => (y <- f x ;; ys <- mapM f xs ;; Ok (y :: ys))%result
  end.

(* ================================================================== *)
(** ** Characters *)

Module Chars.

Definition quote : ascii := "034"%char.
Definition backslash : ascii := "092"%char.
Definition newline : ascii := "010"%char.
Definition tab : ascii := "009"%char.
Definition cr : ascii := "013"%char.
Definition backspace : ascii := "008"%char.
Definition formfeed : ascii := "012"%char.

(** [hex_digit n] is the lowercase hexadecimal digit of [n mod 16],
    as produced by Python's ['x'] format. *)
Definition hex_digit (n : N) : ascii :=
  let d := N.modulo n 16 in
  if N.ltb d 10 then ascii_of_N (48 + d)%N else ascii_of_N (87 + d)%N.

(** The value of a hexadecimal digit, either case ([int (s, 16)]). *)
Definition hex_value (c : ascii) : option N :=
  let n := N_of_ascii c in
  if N.leb 48 n && N.leb n 57 then Some (n - 48)%N
  else if N.leb 97 n && N.leb n 102 then Some (n - 87)%N
  else if N.leb 65 n && N.leb n 70 then Some (n - 55)%N
  else None.

Definition is_lower_hex (c : ascii) : bool :=
  let n := N_of_ascii c in
  (N.leb 48 n && N.leb n 57) || (N.leb 97 n && N.leb n 102).

End Chars.

(* ================================================================== *)
(** ** JSON values, [json.dumps (indent=2)] and [json.loads] *)

Module Json.

Import Chars.

#[local] Set Warnings "-register-all".

Inductive json : Type :=
| JNull
| JBool (b : bool)
| JStr (s : string)
| JArr (items : list json)
| JObj (members : list (string * json)).

(** *** Encoder *)

(** All the emitters take the text that follows as a last argument [k]:
    [emit x k] is what the encoder writes for [x], followed by [k]. *)

(** One character of [encode_basestring_ascii]: the short escapes of
    [ESCAPE_DCT], a [\u00xx] escape for everything else outside [' '..'~'],
    the character itself otherwise. *)
Definition emit_char (c : ascii) (k : string) : string :=
  let n := N_of_ascii c in
  if Ascii.eqb c quote then String backslash (String quote k)
  else if Ascii.eqb c backslash then String backslash (String backslash k)
  else if Ascii.eqb c newline then String backslash (String "n" k)
  else if Ascii.eqb c cr then String backslash (String "r" k)
  else if Ascii.eqb c tab then String backslash (String "t" k)
  else if Ascii.eqb c backspace then String backslash (String "b" k)
  else if Ascii.eqb c formfeed then String backslash (String "f" k)
  else if N.ltb n 32 || N.ltb 126 n then
    String backslash (String "u" (String "0" (String "0"
      (String (hex_digit (N.div n 16)) (String (hex_digit n) k)))))
  else String c k.

Fixpoint emit_chars (s : string) (k : string) : string :=
  match s with
  | EmptyString => k
  | String c r => emit_char c (emit_chars r k)
  end.

Definition emit_string (s : string) (k : string) : string :=
  String quote (emit_chars s (String quote k)).

Fixpoint spaces (n : nat) (k : string) : string :=
  match n with
  | O => k
  | S m => String " " (spaces m k)
  end.

(** [newline_indent]: a line feed, then [indent * level] spaces,
    [indent] being 2. *)
Definition newline_indent (level : nat) (k : string) : string :=
  String newline (spaces (2 * level) k).

Fixpoint emit (level : nat) (v : json) (k : string) : string :=
  match v with
  | JNull => "null" ++ k
  | JBool true => "true" ++ k
  | JBool false => "false" ++ k
  | JStr s => emit_string s k
  | JArr [] => "[]" ++ k
  | JArr (x :: xs) =>
      String "["
        (newline_indent (S level)
           (emit (S level) x
              ((fix rest (l : list json) : string :=
                  match l with
                  | [] => newline_indent level (String "]" k)
                  | y :: ys =>
                      String ","
                        (newline_indent (S level) (emit (S level) y (rest ys)))
                  end) xs)))
  | JObj [] => "{}" ++ k
  | JObj ((key, x) :: xs) =>
      String "{"
        (newline_indent (S level)
           (emit_string key
              (String ":" (String " "
                 (emit (S level) x
                    ((fix rest (l : list (string * json)) : string :=
                        match l with
                        | [] => newline_indent level (String "}" k)
                        | (key', y) :: ys =>
                            String ","
                              (newline_indent (S level)
                                 (emit_string key'
                                    (String ":" (String " "
                                       (emit (S level) y (rest ys))))))
                        end) xs))))))
  end.

Definition dumps (v : json) : string := emit 0 v "".

(** *** Decoder *)

Definition is_ws (c : ascii) : bool :=
  Ascii.eqb c " " || Ascii.eqb c tab || Ascii.eqb c newline || Ascii.eqb c cr.

Fixpoint skip_ws (s : string) : string :=
  match s with
  | EmptyString => EmptyString
  | String c r => if is_ws c then skip_ws r else s
  end.

(** [BACKSLASH]: the one-letter escapes. *)
Definition unescape (c : ascii) : option ascii :=
  if Ascii.eqb c quote then Some quote
  else if Ascii.eqb c backslash then Some backslash
  else if Ascii.eqb c "/" then Some "/"%char
  else if Ascii.eqb c "b" then Some backspace
  else if Ascii.eqb c "f" then Some formfeed
  else if Ascii.eqb c "n" then Some newline
  else if Ascii.eqb c "r" then Some cr
  else if Ascii.eqb c "t" then Some tab
  else None.

Definition hex4 (a b c d : ascii) : option N :=
  match hex_value a, hex_value b, hex_value c, hex_value d with
  | Some x, Some y, Some z, Some w => Some (((x * 16 + y) * 16 + z) * 16 + w)%N
  | _, _, _, _ => None
  end.

(** [scanstring] in strict mode, entered after the opening quote; returns
    the decoded string and the text after the closing quote. *)
Fixpoint scanstring (s : string) : result (string * string) :=
  match s with
  | EmptyString => Raise JSONDecodeError
  | String c r =>
      if Ascii.eqb c quote then Ok (EmptyString, r)
      else if Ascii.eqb c backslash then
        match r with
        | EmptyString => Raise JSONDecodeError
        | String e r1 =>
            if Ascii.eqb e "u" then
              match r1 with
              | String h1 (String h2 (String h3 (String h4 r2))) =>
                  match hex4 h1 h2 h3 h4 with
                  | None => Raise JSONDecodeError
                  | Some n =>
                      if N.ltb n 256 then
                        ('(str, rest) <- scanstring r2 ;;
                         Ok (String (ascii_of_N n) str, rest))%result
                      else Raise OutsideModel
                  end
              | _ => Raise JSONDecodeError
              end
            else
              match unescape e with
              | None => Raise JSONDecodeError
              | Some ch =>
                  ('(str, rest) <- scanstring r1 ;;
                   Ok (String ch str, rest))%result
              end
        end
      else if N.ltb (N_of_ascii c) 32 then Raise JSONDecodeError
      else
        ('(str, rest) <- scanstring r ;; Ok (String c str, rest))%result
  end.

(** [expect w s]: [s] with the literal [w] removed from its front. *)
Fixpoint expect (w s : string) : option string :=
  match w, s with
  | EmptyString, _ => Some s
  | String a w', String b s' => if Ascii.eqb a b then expect w' s' else None
  | String _ _, EmptyString => None
  end.

Definition literal (w : string) (v : json) (s : string) : result (json * string) :=
  match expect w s with
  | Some rest => Ok (v, rest)
  | None => Raise JSONDecodeError
  end.

(** Numbers, [NaN] and the infinities decode to Python [int]s and [float]s,
    which the type [json] does not carry. *)
Definition starts_number (c : ascii) : bool :=
  let n := N_of_ascii c in
  (N.leb 48 n && N.leb n 57) || Ascii.eqb c "-" || Ascii.eqb c "N" || Ascii.eqb c "I".

(** [scan_once], [JSONArray] and [JSONObject].  [fuel] bounds the number of
    nested calls; [loads] supplies twice the length of the text, which is
    more than decoding what the encoder writes takes ([JsonFacts.loads_dumps]). *)
Fixpoint scan_once (fuel : nat) (s : string) : result (json * string) :=
  match fuel with
  | O => Raise OutsideModel
  | S f =>
      match s with
      | EmptyString => Raise JSONDecodeError
      | String c r =>
          if Ascii.eqb c quote then
            ('(str, rest) <- scanstring r ;; Ok (JStr str, rest))%result
          else if Ascii.eqb c "{" then
            match skip_ws r with
            | String c1 r1 =>
                if Ascii.eqb c1 "}" then Ok (JObj [], r1)
                else if Ascii.eqb c1 quote then
                  ('(ms, rest) <- scan_members f r1 ;; Ok (JObj ms, rest))%result
                else Raise JSONDecodeError
            | EmptyString => Raise JSONDecodeError
            end
          else if Ascii.eqb c "[" then
            match skip_ws r with
            | String c1 r1 =>
                if Ascii.eqb c1 "]" then Ok (JArr [], r1)
                else
                  ('(vs, rest) <- scan_items f (String c1 r1) ;;
                   Ok (JArr vs, rest))%result
            | EmptyString => Raise JSONDecodeError
            end
          else if Ascii.eqb c "n" then literal "null" JNull s
          else if Ascii.eqb c "t" then literal "true" (JBool true) s
          else if Ascii.eqb c "f" then literal "false" (JBool false) s
          else if starts_number c then Raise OutsideModel
          else Raise JSONDecodeError
      end
  end

(** [scan_items f s]: the items of an array, [s] starting at the first
    character of an item. *)
with scan_items (fuel : nat) (s : string) : result (list json * string) :=
  match fuel with
  | O => Raise OutsideModel
  | S f =>
      ('(v, r) <- scan_once f s ;;
       match skip_ws r with
       | String c r1 =>
           if Ascii.eqb c "]" then Ok ([v], r1)
           else if Ascii.eqb c "," then
             ('(vs, rest) <- scan_items f (skip_ws r1) ;; Ok (v :: vs, rest))
           else Raise JSONDecodeError
       | EmptyString => Raise JSONDecodeError
       end)%result
  end

(** [scan_members f s]: the members of an object, [s] starting just after
    the opening quote of a key. *)
with scan_members (fuel : nat) (s : string)
  : result (list (string * json) * string) :=
  match fuel with
  | O => Raise OutsideModel
  | S f =>
      ('(key, r) <- scanstring s ;;
       match skip_ws r with
       | String c r1 =>
           if Ascii.eqb c ":" then
             ('(v, r2) <- scan_once f (skip_ws r1) ;;
              match skip_ws r2 with
              | String c2 r3 =>
                  if Ascii.eqb c2 "}" then Ok ([(key, v)], r3)
                  else if Ascii.eqb c2 "," then
                    match skip_ws r3 with
                    | String c3 r4 =>
                        if Ascii.eqb c3 quote then
                          ('(ms, rest) <- scan_members f r4 ;;
                           Ok ((key, v) :: ms, rest))
                        else Raise JSONDecodeError
                    | EmptyString => Raise JSONDecodeError
                    end
                  else Raise JSONDecodeError
              | EmptyString => Raise JSONDecodeError
              end)
           else Raise JSONDecodeError
       | EmptyString => Raise JSONDecodeError
       end)%result
  end.

(** [JSONDecoder.decode]: leading blanks, one value, trailing blanks, end. *)
Definition loads (s : string) : result json :=
  ('(v, rest) <- scan_once (S (2 * String.length s)) (skip_ws s) ;;
   match skip_ws rest with
   | EmptyString => Ok v
   | String _ _ => Raise JSONDecodeError
   end)%result.

(** The tails of an array and of an object, as [emit] writes them after
    the first item. *)
Fixpoint emit_items (level : nat) (k : string) (l : list json) : string :=
  match l with
  | [] => newline_indent level (String "]" k)
  | y :: ys =>
      String "," (newline_indent (S level) (emit (S level) y (emit_items level k ys)))
  end.

Fixpoint emit_members (level : nat) (k : string) (l : list (string * json))
  : string :=
  match l with
  | [] => newline_indent level (String "}" k)
  | (key, y) :: ys =>
      String ","
        (newline_indent (S level)
           (emit_string key
              (String ":" (String " "
                 (emit (S level) y (emit_members level k ys))))))
  end.

(** The number of nested decoder calls a value needs. *)
Fixpoint jsize (v : json) : nat :=
  match v with
  | JArr l => S (fold_right (fun x n => S (jsize x + n)) 0 l)
  | JObj l =>
      S ((fix members (l : list (string * json)) : nat :=
            match l with
            | [] => 0
            | (_, x) :: xs => S (jsize x + members xs)
            end) l)
  | _ => 1
  end.

Fixpoint msize (l : list (string * json)) : nat :=
  match l with
  | [] => 0
  | (_, x) :: xs => S (jsize x + msize xs)
  end.

Definition isize (l : list json) : nat :=
  fold_right (fun x n => S (jsize x + n)) 0 l.

(** *** Vocabulary of the proofs *)

(** Induction on values, with the hypothesis for every item of an array and
    every member of an object. *)
Section Induction.

Variable P : json -> Prop.
Hypothesis Hnull : P JNull.
Hypothesis Hbool : forall b, P (JBool b).
Hypothesis Hstr : forall s, P (JStr s).
Hypothesis Harr : forall l, Forall P l -> P (JArr l).
Hypothesis Hobj : forall l, Forall (fun m => P (snd m)) l -> P (JObj l).

Fixpoint json_nested_ind (v : json) : P v :=
  match v with
  | JNull => Hnull
  | JBool b => Hbool b
  | JStr s => Hstr s
  | JArr l =>
      Harr l
        ((fix go (l : list json) : Forall P l :=
            match l with
            | [] => Forall_nil P
            | x :: xs => Forall_cons x (json_nested_ind x) (go xs)
            end) l)
  | JObj l =>
      Hobj l
        ((fix go (l : list (string * json)) : Forall (fun m => P (snd m)) l :=
            match l with
            | [] => Forall_nil _
            | m :: ms =>
                Forall_cons (P := fun m => P (snd m)) m
                  (json_nested_ind (snd m)) (go ms)
            end) l)
  end.

End Induction.

(** The first character of an encoded value: never a blank, never a
    closing bracket. *)
Definition opens_value (s : string) : Prop :=
  match s with
  | EmptyString => False
  | String c _ => is_ws c = false /\ Ascii.eqb c "]" = false
  end.

(** A value that the decoder reads back from what the encoder wrote. *)
Definition decodes (v : json) : Prop :=
  forall level k fuel,
    jsize v <= fuel -> scan_once fuel (emit level v k) = Ok (v, k).

(** A value whose text is at least as long as the fuel it needs. *)
Definition fits (v : json) : Prop :=
  forall level k, jsize v + String.length k <= String.length (emit level v k).

End Json.

(* ================================================================== *)
(** ** Python dictionaries *)

(** A [dict] keeps its keys in insertion order and holds each key once. *)

Module Dict.

Section WithValues.

Context {V : Type}.

Definition dict : Type := list (string * V).

Definition keys (d : dict) : list string := map fst d.

(** [d.get (k)] *)
Fixpoint get (d : dict) (k : string) : option V :=
  match d with
  | [] => None
  | (k', v) :: r => if String.eqb k' k then Some v else get r k
  end.

(** [k in d] *)
Definition contains (d : dict) (k : string) : bool :=
  match get d k with
  | Some _ => true
  | None => false
  end.

(** [d[k]] *)
Definition getitem (d : dict) (k : string) : result V :=
  match get d k with
  | Some v => Ok v
  | None => Raise (KeyError k)
  end.

(** [d[k] = v]: in place when [k] is a key of [d], at the end otherwise. *)
Fixpoint set (d : dict) (k : string) (v : V) : dict :=
  match d with
  | [] => [(k, v)]
  | (k', v') :: r =>
      if String.eqb k' k then (k', v) :: r else (k', v') :: set r k v
  end.

(** [d.update (other)] *)
Definition update (d other : dict) : dict :=
  fold_left (fun acc kv => set acc (fst kv) (snd kv)) other d.

(** [dict (pairs)] *)
Definition of_pairs (pairs : list (string * V)) : dict := update [] pairs.

(** What Python guarantees of every [dict]. *)
Definition wf (d : dict) : Prop := NoDup (keys d).

End WithValues.

Arguments dict V : clear implicits.

End Dict.

(* ================================================================== *)
(** ** The task document *)

Module Document.

Import Json.

(** A field of a task: [None] or a [str]. *)
Inductive field : Type :=
| VNone
| VStr (s : string).

Definition value_eqb (a b : field) : bool :=
  match a, b with
  | VNone, VNone => true
  | VStr x, VStr y => String.eqb x y
  | _, _ => false
  end.

Definition task : Type := Dict.dict field.

(** The dictionary [{"tasks": [...]}] that [_load_queue] returns. *)
Record document : Type := { tasks : list task }.

Definition json_of_value (v : field) : json :=
  match v with
  | VNone => JNull
  | VStr s => JStr s
  end.

Definition json_of_task (t : task) : json :=
  JObj (map (fun kv => (fst kv, json_of_value (snd kv))) t).

Definition json_of_document (data : document) : json :=
  JObj [("tasks", JArr (map json_of_task (tasks data)))].

Definition value_of_json (j : json) : result field :=
  match j with
  | JNull => Ok VNone
  | JStr s => Ok (VStr s)
  | _ => Raise OutsideModel
  end.

Definition task_of_json (j : json) : result task :=
  match j with
  | JObj members =>
      mapM (fun kv => (v <- value_of_json (snd kv) ;; Ok (fst kv, v))%result)
           (Dict.of_pairs members)
  | _ => Raise OutsideModel
  end.

Definition document_of_json (j : json) : result document :=
  match j with
  | JObj members =>
      match Dict.of_pairs members with
      | [(key, JArr items)] =>
          if String.eqb key "tasks" then
            (ts <- mapM task_of_json items ;; Ok {| tasks := ts |})%result
          else Raise OutsideModel
      | _ => Raise OutsideModel
      end
  | _ => Raise OutsideModel
  end.

Definition wf (data : document) : Prop := Forall Dict.wf (tasks data).

End Document.

(* ================================================================== *)
(** ** [coordinator/tasks/queue.py] *)

Module Queue.

Import Chars Json Document.

(** *** The file and the operations on it *)

(** The content of [QUEUE_FILE]. *)
Definition file_state : Type := option string.

(** A method of [TaskQueue]: it reads and writes the file, and returns or
    raises.  What was written before an exception stays written. *)
Definition M (A : Type) : Type := file_state -> result A * file_state.

Definition ret {A : Type} (a : A) : M A := fun fs => (Ok a, fs).

Definition raise {A : Type} (e : exn) : M A := fun fs => (Raise e, fs).

Definition lift {A : Type} (r : result A) : M A := fun fs => (r, fs).

Definition bind {A B : Type} (m : M A) (k : A -> M B) : M B :=
  fun fs =>
    match m fs with
    | (Ok a, fs') => k a fs'
    | (Raise e, fs') => (Raise e, fs')
    end.

Declare Scope queue_scope.
Delimit Scope queue_scope with queue.
Notation "x <- m ;; k" := (bind m (fun x => k))
  (at level 61, m at next level, right associativity) : queue_scope.
Notation "m ;; k" := (bind m (fun _ => k))
  (at level 61, right associativity) : queue_scope.

Local Open Scope queue_scope.

Inductive TaskStatus : Type :=
| QUEUED
| IN_PROGRESS
| COMPLETED
| FAILED
| CANCELLED.

(** [status.value] *)
Definition value (status : TaskStatus) : string :=
  match status with
  | QUEUED => "queued"
  | IN_PROGRESS => "in_progress"
  | COMPLETED => "completed"
  | FAILED => "failed"
  | CANCELLED => "cancelled"
  end.

(** [json.dump (data, f, indent=2, default=str)] on the file opened for
    writing.  Every value of a [document] is a [str] or [None]: [default] is
    never called, and the encoder does not raise.  (Opening the file empties
    it before anything is encoded; a write that raised would leave it so.
    No [document] makes a write raise.) *)
Definition _save_queue (data : document) : M unit :=
  fun _ => (Ok tt, Some (dumps (json_of_document data))).

(** [json.load (f)]; documents of another shape than [{"tasks": [...]}] with
    fields that are [str] or [None] are outside the model. *)
Definition _load_queue : M document :=
  fun fs =>
    match fs with
    | None => (Raise FileNotFoundError, fs)
    | Some text => ((j <- loads text ;; document_of_json j)%result, fs)
    end.

Definition _ensure_queue_file : M unit :=
  fun fs =>
    match fs with
    | None => _save_queue {| tasks := [] |} fs
    | Some _ => (Ok tt, fs)
    end.

(** [TaskQueue ()] *)
Definition __init__ : M unit := _ensure_queue_file.

(** *** Identifiers *)

(** ['%0*x' % (width, n)], for [n] below [16 ^ width]. *)
Fixpoint hex_fixed (width : nat) (n : N) (k : string) : string :=
  match width with
  | O => k
  | S w => hex_fixed w (N.div n 16) (String (hex_digit n) k)
  end.

(** [UUID.hex], [u] being [UUID.int], a number below [2 ^ 128]. *)
Definition uuid_hex (u : N) : string := hex_fixed 32 u "".

(** [f"task-{u.hex[:8]}"] *)
Definition task_id_of (u : N) : string := "task-" ++ substring 0 8 (uuid_hex u).

(** Lowercase hexadecimal digits only. *)
Definition all_lower_hex (s : string) : Prop :=
  Forall (fun c => is_lower_hex c = true) (list_ascii_of_string s).

(** What [uuid.uuid4 ()] can return: 128 bits, the version nibble 4, the
    variant bits 10. *)
Definition is_uuid4 (u : N) : bool :=
  N.ltb u (2 ^ 128)
  && N.eqb (N.modulo (N.shiftr u 76) 16) 4
  && N.eqb (N.modulo (N.shiftr u 62) 4) 2.

(** *** The methods *)

(** The record built by [add_task]. *)
Definition new_task (task_id agent_id model task_description requested_by now
                     : string) : task :=
  [ ("id", VStr task_id);
    ("agent", VStr agent_id);
    ("model", VStr model);
    ("task", VStr task_description);
    ("status", VStr (value QUEUED));
    ("requested_by", VStr requested_by);
    ("created_at", VStr now);
    ("started_at", VNone);
    ("completed_at", VNone);
    ("result", VNone);
    ("error", VNone) ].

(** [u] is the value of [uuid.uuid4 ().int] and [now] the value of
    [datetime.now ().isoformat ()] during the call. *)
Definition add_task (u : N) (now : string)
           (agent_id model task_description requested_by : string) : M string :=
  let task_id := task_id_of u in
  let task :=
    new_task task_id agent_id model task_description requested_by now in
  data <- _load_queue ;;
  _save_queue {| tasks := tasks data ++ [task] |} ;;
  ret task_id.

(** The loop of [get_task]. *)
Fixpoint find_task (task_id : string) (l : list task) : result (option task) :=
  match l with
  | [] => Ok None
  | t :: r =>
      (id <- Dict.getitem t "id" ;;
       if value_eqb id (VStr task_id) then Ok (Some t)
       else find_task task_id r)%result
  end.

Definition get_task (task_id : string) : M (option task) :=
  data <- _load_queue ;;
  lift (find_task task_id (tasks data)).

(** The loop of [update_task_status]: the first task with the id gets the
    status and the extra fields, and the loop stops. *)
Fixpoint update_first (task_id : string) (status : TaskStatus)
         (kwargs : Dict.dict Document.field) (l : list task)
  : result (list task) :=
  match l with
  | [] => Ok []
  | t :: r =>
      (id <- Dict.getitem t "id" ;;
       if value_eqb id (VStr task_id) then
         Ok (Dict.update (Dict.set t "status" (VStr (value status))) kwargs :: r)
       else
         (r' <- update_first task_id status kwargs r ;; Ok (t :: r')))%result
  end.

(** The names of the positional parameters: Python refuses a call that
    passes one of them again as a keyword. *)
Definition parameter_names : list string := ["self"; "task_id"; "status"].

Definition repeats_parameter (kwargs : Dict.dict Document.field) : bool :=
  existsb (fun k => existsb (String.eqb k) parameter_names) (Dict.keys kwargs).

Definition update_task_status (task_id : string) (status : TaskStatus)
           (kwargs : Dict.dict Document.field) : M unit :=
  if repeats_parameter kwargs then raise TypeError
  else
    data <- _load_queue ;;
    ts <- lift (update_first task_id status kwargs (tasks data)) ;;
    _save_queue {| tasks := ts |}.

(** The loop of [get_next_queued_task]. *)
Fixpoint find_queued (l : list task) : result (option task) :=
  match l with
  | [] => Ok None
  | t :: r =>
      (st <- Dict.getitem t "status" ;;
       if value_eqb st (VStr (value QUEUED)) then Ok (Some t)
       else find_queued r)%result
  end.

Definition get_next_queued_task : M (option task) :=
  data <- _load_queue ;;
  lift (find_queued (tasks data)).

(** [[t for t in tasks if t['status'] == status.value]] *)
Fixpoint with_status (status : TaskStatus) (l : list task) : result (list task) :=
  match l with
  | [] => Ok []
  | t :: r =>
      (st <- Dict.getitem t "status" ;;
       r' <- with_status status r ;;
       Ok (if value_eqb st (VStr (value status)) then t :: r' else r'))%result
  end.

(** [list.sort (key=..., reverse=True)] first computes the key of every
    item, then orders the items by key, greatest first, items with equal keys
    staying in their order.  [<] on [None] raises [TypeError], and every
    item of a list of two or more is compared at least once. *)
Definition created_at_key (t : task) : result (Document.field * task) :=
  (k <- Dict.getitem t "created_at" ;; Ok (k, t))%result.

Definition str_key (kt : Document.field * task) : result (string * task) :=
  match fst kt with
  | VStr s => Ok (s, snd kt)
  | VNone => Raise TypeError
  end.

Fixpoint insert_desc (x : string * task) (l : list (string * task))
  : list (string * task) :=
  match l with
  | [] => [x]
  | y :: r =>
      if String.ltb (fst x) (fst y) then y :: insert_desc x r else x :: y :: r
  end.

Definition sort_desc (l : list (string * task)) : list (string * task) :=
  fold_right insert_desc [] l.

Definition sort_by_created_at_reverse (l : list task) : result (list task) :=
  (keyed <- mapM created_at_key l ;;
   match keyed with
   | [] | [_] => Ok l
   | _ => (strs <- mapM str_key keyed ;; Ok (map snd (sort_desc strs)))
   end)%result.

(** [l[:limit]] *)
Definition slice_to {A : Type} (limit : Z) (l : list A) : list A :=
  if (0 <=? limit)%Z then firstn (Z.to_nat limit) l
  else firstn (Z.to_nat (Z.of_nat (List.length l) + limit)) l.

Definition default_limit : Z := 10.

Definition list_tasks (status : option TaskStatus) (limit : Z) : M (list task) :=
  data <- _load_queue ;;
  ts <- lift (match status with
              | Some st => with_status st (tasks data)
              | None => Ok (tasks data)
              end) ;;
  ts <- lift (sort_by_created_at_reverse ts) ;;
  ret (slice_to limit ts).

(** *** Runs *)

Inductive op : Type :=
| Call_add_task (u : N)
                (now agent_id model task_description requested_by : string)
| Call_update_task_status (task_id : string) (status : TaskStatus)
                          (kwargs : Dict.dict Document.field)
| Call_get_task (task_id : string)
| Call_get_next_queued_task
| Call_list_tasks (status : option TaskStatus) (limit : Z).

(** The file after one call on a [TaskQueue ()]. *)
Definition exec (o : op) (fs : file_state) : file_state :=
  match o with
  | Call_add_task u now a m d r => snd (add_task u now a m d r fs)
  | Call_update_task_status i st kw => snd (update_task_status i st kw fs)
  | Call_get_task i => snd (get_task i fs)
  | Call_get_next_queued_task => snd (get_next_queued_task fs)
  | Call_list_tasks st n => snd (list_tasks st n fs)
  end.

Definition run (ops : list op) (fs : file_state) : file_state :=
  fold_left (fun s o => exec o s) ops fs.

(** The document in the file, as a [TaskQueue] reads it. *)
Definition stored (fs : file_state) : result document := fst (_load_queue fs).

(** What is stored under ["id"], task by task. *)
Definition ids (l : list task) : list (option Document.field) :=
  map (fun t => Dict.get t "id") l.

(** The store that [TaskQueue ()] creates where there is none. *)
Definition initial : file_state := snd (__init__ None).

(** The ids of the stored tasks are pairwise distinct. *)
Definition unique_ids (fs : file_state) : Prop :=
  exists data, stored fs = Ok data /\ NoDup (ids (tasks data)).

(** From [fs] to [fs'], every task is still there under its id. *)
Definition keeps_ids (fs fs' : file_state) : Prop :=
  forall data data',
    stored fs = Ok data -> stored fs' = Ok data' ->
    exists more, ids (tasks data') = ids (tasks data) ++ more.

(** [add_task] draws an id that is not stored yet, and [update_task_status]
    is not given an [id] keyword. *)
Definition respects_ids (fs : file_state) (o : op) : Prop :=
  match o with
  | Call_add_task u _ _ _ _ _ =>
      forall data, stored fs = Ok data ->
                   ~ In (Some (VStr (task_id_of u))) (ids (tasks data))
  | Call_update_task_status _ _ kwargs => ~ In "id" (Dict.keys kwargs)
  | _ => True
  end.

Fixpoint all_respect_ids (ops : list op) (fs : file_state) : Prop :=
  match ops with
  | [] => True
  | o :: r => respects_ids fs o /\ all_respect_ids r (exec o fs)
  end.

(** The records of the data model carry these three fields. *)
Definition has_field (k : string) (t : task) : Prop := Dict.contains t k = true.

Definition has_str_field (k : string) (t : task) : Prop :=
  exists s, Dict.get t k = Some (VStr s).

(** A record with the three fields that the methods read. *)
Definition record (t : task) : Prop :=
  has_field "id" t /\ has_field "status" t /\ has_field "created_at" t.

(** The file can be read, and holds records. *)
Definition holds_records (fs : file_state) : Prop :=
  exists data, stored fs = Ok data /\ Forall record (tasks data).

(** A record with an id, another one than [task_id]. *)
Definition other_id (task_id : string) (t : task) : Prop :=
  exists v, Dict.get t "id" = Some v /\ v <> VStr task_id.

Definition is_queued (t : task) : Prop :=
  Dict.get t "status" = Some (VStr (value QUEUED)).

Definition not_queued (t : task) : Prop :=
  exists v, Dict.get t "status" = Some v /\ v <> VStr (value QUEUED).

(** The arguments of a call of [add_task], with what [uuid4] and [now]
    returned during the call. *)
Record request : Type := {
  uuid : N;
  now : string;
  agent_id : string;
  model : string;
  task_description : string;
  requested_by : string
}.

Definition add_of (q : request) : op :=
  Call_add_task (uuid q) (now q) (agent_id q) (model q) (task_description q)
                (requested_by q).

Definition task_of (q : request) : task :=
  new_task (task_id_of (uuid q)) (agent_id q) (model q) (task_description q)
           (requested_by q) (now q).

(** The filter of [list_tasks]: every task when [status] is [None], the tasks
    with exactly that status otherwise. *)
Definition selected (status : option TaskStatus) (t : task) : bool :=
  match status with
  | None => true
  | Some st =>
      match Dict.get t "status" with
      | Some v => value_eqb v (VStr (value st))
      | None => false
      end
  end.

Definition created_at (t : task) : string :=
  match Dict.get t "created_at" with
  | Some (VStr s) => s
  | _ => EmptyString
  end.

(** [a] may stand before [b]: its [created_at] is not below that of [b] in
    the order of [str]. *)
Definition newest_first (a b : task) : Prop :=
  String.leb (created_at b) (created_at a) = true.

Definition key_ge (x y : string * task) : Prop :=
  String.leb (fst y) (fst x) = true.

(** The keyword arguments a call of [update_task_status] can carry. *)
Definition keywords (kwargs : Dict.dict Document.field) : Prop :=
  Dict.wf kwargs /\ repeats_parameter kwargs = false.

End Queue.

(* ================================================================== *)
(** ** Sample stores *)

Module Sample.

Import Document Queue.

(** Three values of [uuid.uuid4 ().int]; the first two agree on their first
    eight hexadecimal digits. *)
Definition uuid_a : N := (5 * 2 ^ 96 + 2 ^ 78 + 2 ^ 63)%N.
Definition uuid_b : N := (5 * 2 ^ 96 + 2 ^ 78 + 2 ^ 63 + 1)%N.
Definition uuid_c : N := (7 * 2 ^ 96 + 2 ^ 78 + 2 ^ 63 + 3)%N.

Definition task_a : task :=
  new_task "task-00000005" "coder" "claude-sonnet" "fix bug #42" "alice"
           "2024-01-01T00:00:00".

Definition task_c : task :=
  new_task "task-00000007" "tester" "claude-opus" "run the tests" "bob"
           "2024-01-02T09:30:00".

Definition two_tasks : document := {| tasks := [task_a; task_c] |}.

(** Three calls of [add_task]; the first two draw the same id. *)
Definition add_a : op :=
  Call_add_task uuid_a "2024-01-01T00:00:00" "coder" "claude-sonnet"
                "fix bug #42" "alice".

Definition add_b : op :=
  Call_add_task uuid_b "2024-01-01T00:00:01" "coder" "claude-sonnet"
                "write tests" "bob".

Definition add_c : op :=
  Call_add_task uuid_c "2024-01-02T09:30:00" "tester" "claude-opus"
                "run the tests" "bob".

(** The file after two calls of [add_task] on a new store. *)
Definition two_tasks_file : file_state := run [add_a; add_c] initial.

End Sample.

(* ================================================================== *)
(** ** [coordinator/registries/agent_registry.py] *)

Module Registry.

(** The bullet of the messages, U+2022, as its three bytes in UTF-8 (the
    messages are built and never decoded). *)
Definition bullet : string :=
  String "226" (String "128" (String "162" EmptyString)).

Definition nl : string := String Chars.newline EmptyString.

(** [sep.join (items)] *)
Fixpoint join (sep : string) (items : list string) : string :=
  match items with
  | [] => EmptyString
  | [x] => x
  | x :: r => x ++ sep ++ join sep r
  end.

Definition separator : string := nl ++ "  " ++ bullet ++ " ".

Section Lookup.

(** The entries of [agents.yaml] and of [models.yaml] are opaque here. *)
Context {A : Type}.

(** [agents] is what [load_agents_registry ()] returns. *)
Definition get_agent (agents : Dict.dict A) (agent_id : string) : result A :=
  if negb (Dict.contains agents agent_id) then
    let available := join separator (Dict.keys agents) in
    Raise (ValueError
             (("Agent '" ++ agent_id ++ "' not found" ++ nl ++ nl)
                ++ (("Available agents:" ++ nl ++ "  " ++ bullet ++ " ")
                      ++ available)))
  else Dict.getitem agents agent_id.

(** [models] is what [load_models_registry ()] returns. *)
Definition get_model (models : Dict.dict A) (model_id : string) : result A :=
  if negb (Dict.contains models model_id) then
    let available := join separator (Dict.keys models) in
    Raise (ValueError
             (("Model '" ++ model_id ++ "' not found" ++ nl ++ nl)
                ++ (("Available models:" ++ nl ++ "  " ++ bullet ++ " ")
                      ++ available)))
  else Dict.getitem models model_id.

End Lookup.

(** [needle in text] *)
Definition occurs (needle text : string) : Prop :=
  exists before after : string, text = (before ++ needle ++ after)%string.

End Registry.

(* ================================================================== *)
(** ** More vocabulary for the queue *)

Module QueueTerms.

Import Document Queue.

(** [t'] has every field name of [t]. *)
Definition keeps_fields (t t' : task) : Prop :=
  forall k, In k (Dict.keys t) -> In k (Dict.keys t').

(** From [data] to [data']: the records of [data] are still there, in their
    places and with at least their fields; what is new comes after them. *)
Definition grows (data data' : document) : Prop :=
  exists (kept more : list task),
    tasks data' = kept ++ more /\ Forall2 keeps_fields (tasks data) kept.

(** The records with [s] under [created_at]. *)
Definition created_at_is (s : string) (t : task) : bool :=
  String.eqb (created_at t) s.

(** How many entries [l[:limit]] has, for a list of [n]. *)
Definition slice_length (limit : Z) (n : nat) : nat :=
  if (0 <=? limit)%Z then Nat.min (Z.to_nat limit) n
  else n - Z.to_nat (- limit).

End QueueTerms.

(* ================================================================== *)
(** ** Methods of [str] *)

Module Text.

(** [s.split (sep)], for a separator of one character. *)
Fixpoint split (sep : ascii) (s : string) : list string :=
  match s with
  | EmptyString => [EmptyString]
  | String c r =>
      if Ascii.eqb c sep then EmptyString :: split sep r
      else
        match split sep r with
        | h :: t => String c h :: t
        | [] => [String c EmptyString]
        end
  end.

(** [s.lstrip (chars)], [s.rstrip (chars)] and [s.strip (chars)]; [chars]
    tells which characters go. *)
Fixpoint lstrip (chars : ascii -> bool) (s : string) : string :=
  match s with
  | EmptyString => EmptyString
  | String c r => if chars c then lstrip chars r else s
  end.

Fixpoint rstrip (chars : ascii -> bool) (s : string) : string :=
  match s with
  | EmptyString => EmptyString
  | String c r =>
      match rstrip chars r with
      | EmptyString => if chars c then EmptyString else String c EmptyString
      | String _ _ as r' => String c r'
      end
  end.

Definition strip (chars : ascii -> bool) (s : string) : string :=
  rstrip chars (lstrip chars s).

(** [str (n)] for an [int]. *)
Definition str_of_int (z : Z) : string :=
  NilZero.string_of_int (Z.to_int z).

(** The first and the last character. *)
Definition first_char (s : string) : option ascii :=
  match s with
  | EmptyString => None
  | String c _ => Some c
  end.

Fixpoint last_char (s : string) : option ascii :=
  match s with
  | EmptyString => None
  | String c EmptyString => Some c
  | String _ r => last_char r
  end.

Fixpoint all_chars (p : ascii -> bool) (s : string) : bool :=
  match s with
  | EmptyString => true
  | String c r => p c && all_chars p r
  end.

End Text.

(* ================================================================== *)
(** ** [coordinator/core/config.py] *)

Module Config.

Import Text.

#[local] Set Warnings "-register-all".

(** What [yaml.safe_load] returns, floats and keys that are not [str] left
    out; no two places of a document share one object (no YAML alias). *)
Inductive pyval : Type :=
| PNone
| PBool (b : bool)
| PInt (z : Z)
| PStr (s : string)
| PList (items : list pyval)
| PDict (d : list (string * pyval)).

(** [bool (v)] *)
Definition truthy (v : pyval) : bool :=
  match v with
  | PNone => false
  | PBool b => b
  | PInt z => negb (Z.eqb z 0)
  | PStr s => negb (String.eqb s EmptyString)
  | PList l => match l with [] => false | _ => true end
  | PDict d => match d with [] => false | _ => true end
  end.

(** The loop of [Config.get]: [None] when it leaves through
    [return default]. *)
Fixpoint walk (keys : list string) (value : pyval) : option pyval :=
  match keys with
  | [] => Some value
  | k :: r =>
      match value with
      | PDict d =>
          walk r (match Dict.get d k with
                  | Some v => v
                  | None => PNone
                  end)
      | _ => None
      end
  end.

(** [Config.get (key, default)]; [config] is [self._config]. *)
Definition get (config : pyval) (key : string) (default : pyval) : pyval :=
  match walk (split "." key) config with
  | None => default
  | Some PNone => default
  | Some v => v
  end.

(** [os.getenv (name)] *)
Definition getenv (env : Dict.dict string) (name : string) : option string :=
  Dict.get env name.

(** [if value:] for what [os.getenv] returns. *)
Definition is_set (v : option string) : bool :=
  match v with
  | None => false
  | Some s => negb (String.eqb s EmptyString)
  end.

(** The string that [os.getenv] returned, once [if value:] has passed. *)
Definition value_of (v : option string) : string :=
  match v with
  | Some s => s
  | None => EmptyString
  end.

Definition is_quote (c : ascii) : bool :=
  Ascii.eqb c "'" || Ascii.eqb c Chars.quote.

(** [config[section][key] = v] *)
Definition setitem2 (config : pyval) (section key : string) (v : pyval)
  : result pyval :=
  match config with
  | PDict d =>
      match Dict.get d section with
      | None => Raise (KeyError section)
      | Some (PDict inner) =>
          Ok (PDict (Dict.set d section (PDict (Dict.set inner key v))))
      | Some _ => Raise TypeError
      end
  | _ => Raise TypeError
  end.

Definition token_message : string :=
  "DISCORD_BOT_TOKEN not set. Copy .env.example to .env and fill it in.".

(** [Config._apply_env_overrides]; returns [self._config] as the method
    leaves it. *)
Definition _apply_env_overrides (config : pyval) (env : Dict.dict string)
  : result pyval :=
  let bot_token := getenv env "DISCORD_BOT_TOKEN" in
  if negb (is_set bot_token) then Raise (ValueError token_message)
  else
    let bot_token :=
      strip is_quote (value_of bot_token) in
    (c1 <- setitem2 config "discord" "bot_token" (PStr bot_token) ;;
     let channel_id := getenv env "DISCORD_CHANNEL_ID" in
     c2 <- (if is_set channel_id then
              setitem2 c1 "discord" "channel_id"
                (PStr (value_of channel_id))
            else Ok c1) ;;
     let agent_name := getenv env "AGENT_NAME" in
     if is_set agent_name then
       setitem2 c2 "agent" "name"
         (PStr (value_of agent_name))
     else Ok c2)%result.

(** [Config.__init__], from the loaded YAML document on; [env] is the
    environment after [load_dotenv ()]. *)
Definition __init__ (loaded : pyval) (env : Dict.dict string) : result pyval :=
  _apply_env_overrides loaded env.

(** [Config.bot_token] *)
Definition bot_token (config : pyval) : pyval :=
  get config "discord.bot_token" PNone.

Definition channel_message : string :=
  "discord.channel_id not set in config.yaml. "
    ++ "Add the channel ID after creating the Discord channel.".

(** [str (v)], where it needs no [repr]. *)
Definition str (v : pyval) : result string :=
  match v with
  | PNone => Ok "None"
  | PBool true => Ok "True"
  | PBool false => Ok "False"
  | PInt z => Ok (str_of_int z)
  | PStr s => Ok s
  | PList _ | PDict _ => Raise OutsideModel
  end.

(** [Config.channel_id] *)
Definition channel_id (config : pyval) : result string :=
  let channel_id := get config "discord.channel_id" PNone in
  if negb (truthy channel_id) then Raise (ValueError channel_message)
  else str channel_id.

(** [Config.agent_name] *)
Definition agent_name (config : pyval) : pyval :=
  get config "agent.name" (PStr "Agent").

(** [Config.emojis] *)
Definition emojis (config : pyval) : pyval :=
  get config "formatting.emojis" (PDict []).

(** The places that [_apply_env_overrides] may write, as key paths. *)
Definition overridden : list (list string) :=
  [["discord"; "bot_token"]; ["discord"; "channel_id"]; ["agent"; "name"]].

(** Two key paths part ways: at some place, before either ends, they name
    different keys. *)
Fixpoint diverge (p q : list string) : bool :=
  match p, q with
  | a :: p', b :: q' => if String.eqb a b then diverge p' q' else true
  | _, _ => false
  end.

(** A key path that meets no place that [_apply_env_overrides] may write. *)
Definition untouched (p : list string) : bool :=
  forallb (diverge p) overridden.

(** The names of the sections of a configuration, in their order. *)
Definition sections (config : pyval) : list string :=
  match config with
  | PDict d => Dict.keys d
  | _ => []
  end.

End Config.

(** A configuration and an environment to try things on. *)

Module ConfigSample.

Import Config.

Definition loaded : pyval :=
  PDict [("discord", PDict [("channel_id", PInt 42); ("guild", PStr "")]);
         ("agent", PDict [("name", PNone)]);
         ("formatting", PDict [("emojis", PDict [("done", PStr "ok")])])].

Definition env : Dict.dict string :=
  [("HOME", "/root");
   ("DISCORD_BOT_TOKEN", (String Chars.quote "abc'd'" ++ String Chars.quote "")%string);
   ("DISCORD_CHANNEL_ID", "");
   ("AGENT_NAME", "builder")].

End ConfigSample.

(* ================================================================== *)
(** ** [coordinator/discord/bot.py]: the slash commands on the queue *)

Module Bot.

Import Document Queue.

Local Open Scope queue_scope.

(** *** What a handler sends *)

(** A field of an embed, with the value as [add_field] is given it. *)
Record embed_field : Type := {
  name : string;
  value : Document.field;
  inline : bool
}.

Record embed : Type := {
  title : string;
  color : N;
  fields : list embed_field
}.

(** The argument of [interaction.response.send_message]. *)
Inductive response : Type :=
| Message (content : string)
| Embed (e : embed).

(** The emoji of the messages, each as its bytes in UTF-8. *)
Definition cross : string :=
  String "226" (String "157" (String "140" EmptyString)).

Definition check_mark : string :=
  String "226" (String "156" (String "133" EmptyString)).

Definition hourglass : string :=
  String "226" (String "143" (String "179" EmptyString)).

Definition construction : string :=
  String "240" (String "159" (String "154" (String "167" EmptyString))).

Definition no_entry : string :=
  String "240" (String "159" (String "154" (String "171" EmptyString))).

Definition question : string :=
  String "226" (String "157" (String "147" EmptyString)).

Definition clipboard : string :=
  String "240" (String "159" (String "147" (String "139" EmptyString))).

Definition blurple : N := 5793266.

Definition green : N := 5763719.

(** *** Pieces of Python *)

(** [f"{v}"] *)
Definition fmt (v : Document.field) : string :=
  match v with
  | VNone => "None"
  | VStr s => s
  end.

(** [bool (v)] *)
Definition truthy (v : Document.field) : bool :=
  match v with
  | VNone => false
  | VStr s => negb (String.eqb s EmptyString)
  end.

Definition upper_char (c : ascii) : ascii :=
  let n := nat_of_ascii c in
  if Nat.leb 97 n && Nat.leb n 122 then ascii_of_nat (n - 32) else c.

(** [s.upper ()], for ASCII; other characters are outside the model. *)
Fixpoint upper (s : string) : result string :=
  match s with
  | EmptyString => Ok EmptyString
  | String c r =>
      if Nat.ltb (nat_of_ascii c) 128 then
        (r' <- upper r ;; Ok (String (upper_char c) r'))%result
      else Raise OutsideModel
  end.

(** [v.upper ()]; on [None] Python raises [AttributeError], which is
    outside the model. *)
Definition upper_of (v : Document.field) : result Document.field :=
  match v with
  | VNone => Raise OutsideModel
  | VStr s => (u <- upper s ;; Ok (VStr u))%result
  end.

(** [TaskStatus (s)]: the member with that value; [None] stands for
    [ValueError]. *)
Definition TaskStatus_of (s : string) : option TaskStatus :=
  find (fun st => String.eqb (Queue.value st) s)
       [QUEUED; IN_PROGRESS; COMPLETED; FAILED; CANCELLED].

Definition status_emoji : Dict.dict string :=
  [ ("queued", hourglass);
    ("in_progress", construction);
    ("completed", check_mark);
    ("failed", cross);
    ("cancelled", no_entry) ].

(** [status_emoji.get (v, question)] *)
Definition status_emoji_get (v : Document.field) : string :=
  match v with
  | VStr s =>
      match Dict.get status_emoji s with
      | Some e => e
      | None => question
      end
  | VNone => question
  end.

(** *** [/launch] *)

(** An entry of [agents.yaml], with the two fields that [cmd_launch] reads,
    of the types the file gives them. *)
Record agent_entry : Type := {
  agent_name : string;
  supported_models : list string
}.

Definition unsupported (agent model : string) (agent_config : agent_entry)
  : string :=
  ((cross ++ " Model '" ++ model ++ "' not supported by agent '" ++ agent
      ++ "'" ++ Registry.nl)
     ++ "Supported: " ++ Registry.join ", " (supported_models agent_config))%string.

Definition queued_card (task_id agent_name model task : string) : embed :=
  {| title := (check_mark ++ " Task Queued")%string;
     color := green;
     fields :=
       [ {| name := "Task ID"; value := VStr task_id; inline := false |};
         {| name := "Agent"; value := VStr agent_name; inline := true |};
         {| name := "Model"; value := VStr model; inline := true |};
         {| name := "Task"; value := VStr task; inline := false |} ] |}.

Section Launch.

(** The entries of [models.yaml] are opaque. *)
Context {ModelEntry : Type}.

(** [agents] and [models] are what [load_agents_registry ()] and
    [load_models_registry ()] return, [user] is [interaction.user.name];
    [u] and [now] are as for [add_task]. *)
Definition cmd_launch (agents : Dict.dict agent_entry)
           (models : Dict.dict ModelEntry) (u : N) (now : string)
           (user agent model task : string) : M response :=
  match (agent_config <- Registry.get_agent agents agent ;;
         model_config <- Registry.get_model models model ;;
         Ok (agent_config, model_config))%result with
  | Raise (ValueError e) => ret (Message (cross ++ " " ++ e)%string)
  | Raise e => raise e
  | Ok (agent_config, _) =>
      if negb (existsb (String.eqb model) (supported_models agent_config))
      then ret (Message (unsupported agent model agent_config))
      else
        __init__ ;;
        task_id <- add_task u now agent model task user ;;
        ret (Embed (queued_card task_id (agent_name agent_config) model task))
  end.

(** A launch that [cmd_launch] lets through: the agent and the model are
    registered, and the agent lists the model. *)
Definition accepts (agents : Dict.dict agent_entry)
           (models : Dict.dict ModelEntry) (agent model : string) : bool :=
  match Dict.get agents agent with
  | Some agent_config =>
      Dict.contains models model
      && existsb (String.eqb model) (supported_models agent_config)
  | None => false
  end.

End Launch.

(** *** [/taskstatus] *)

(** [if task[key]: embed.add_field (name=label, value=task[key], ...)] *)
Definition optional_field (task : task) (key label : string) (inline : bool)
  : result (list embed_field) :=
  (v <- Dict.getitem task key ;;
   if truthy v then
     (v' <- Dict.getitem task key ;;
      Ok [ {| name := label; value := v'; inline := inline |} ])
   else Ok [])%result.

Definition status_card (task_id : string) (task : task) : result embed :=
  (status <- Dict.getitem task "status" ;;
   let title := (status_emoji_get status ++ " Task: " ++ task_id)%string in
   status <- Dict.getitem task "status" ;;
   shown <- upper_of status ;;
   agent <- Dict.getitem task "agent" ;;
   model <- Dict.getitem task "model" ;;
   description <- Dict.getitem task "task" ;;
   created <- Dict.getitem task "created_at" ;;
   started <- optional_field task "started_at" "Started" true ;;
   completed <- optional_field task "completed_at" "Completed" true ;;
   result <- optional_field task "result" "Result" false ;;
   error <- optional_field task "error" "Error" false ;;
   Ok {| title := title;
         color := blurple;
         fields :=
           [ {| name := "Status"; value := shown; inline := true |};
             {| name := "Agent"; value := agent; inline := true |};
             {| name := "Model"; value := model; inline := true |};
             {| name := "Task"; value := description; inline := false |};
             {| name := "Created"; value := created; inline := true |} ]
             ++ started ++ completed ++ result ++ error |})%result.

Definition not_found (task_id : string) : string :=
  (cross ++ " Task '" ++ task_id ++ "' not found")%string.

Definition cmd_task_status (task_id : string) : M response :=
  __init__ ;;
  task <- get_task task_id ;;
  match task with
  | None | Some [] => ret (Message (not_found task_id))
  | Some task =>
      card <- lift (status_card task_id task) ;;
      ret (Embed card)
  end.

(** *** [/tasklist] *)

Definition invalid_status : string :=
  (cross ++ " Invalid status. Use: queued, in_progress, completed, failed, "
     ++ "cancelled, all")%string.

(** [status_filter], when the [try] block passes; [None] when it ends in
    [ValueError]. *)
Definition status_filter_of (status : string) : option (option TaskStatus) :=
  if negb (String.eqb status "all") then option_map Some (TaskStatus_of status)
  else Some None.

(** The body of the loop of [cmd_task_list]. *)
Definition task_line (task : task) : result embed_field :=
  (agent <- Dict.getitem task "agent" ;;
   model <- Dict.getitem task "model" ;;
   status <- Dict.getitem task "status" ;;
   let value :=
     (("**Agent:** " ++ fmt agent ++ Registry.nl)
        ++ ("**Model:** " ++ fmt model ++ Registry.nl)
        ++ ("**Status:** " ++ fmt status))%string in
   status <- Dict.getitem task "status" ;;
   id <- Dict.getitem task "id" ;;
   Ok {| name := (status_emoji_get status ++ " " ++ fmt id)%string;
         value := VStr value;
         inline := false |})%result.

Definition cmd_task_list (status : string) : M response :=
  __init__ ;;
  match status_filter_of status with
  | None => ret (Message invalid_status)
  | Some status_filter =>
      tasks <- list_tasks status_filter 10 ;;
      match tasks with
      | [] => ret (Message "No tasks found")
      | _ =>
          lines <- lift (mapM task_line (slice_to 5 tasks)) ;;
          ret (Embed {| title := (clipboard ++ " Recent Tasks (" ++ status ++ ")")%string;
                        color := blurple;
                        fields := lines |})
      end
  end.

End Bot.

(** Registries to try things on. *)

Module BotSample.

Import Bot.

Definition agents : Dict.dict agent_entry :=
  [ ("coder", {| agent_name := "Code Writer";
                 supported_models := ["claude-sonnet"; "claude-opus"] |});
    ("tester", {| agent_name := "Test Runner";
                  supported_models := ["claude-opus"] |}) ].

Definition models : Dict.dict unit :=
  [("claude-sonnet", tt); ("claude-opus", tt); ("gpt", tt)].

End BotSample.

(* ================================================================== *)
(** ** [coordinator/discord/formatters.py] *)

Module Formatters.

Import Text.

Definition nl : string := Registry.nl.

Definition fence : string := "```".

(** [if s:] for an optional [str]. *)
Definition given (s : option string) : bool :=
  match s with
  | None => false
  | Some s => negb (String.eqb s EmptyString)
  end.

(** The string behind an optional [str] that [if s:] has let through. *)
Definition text_of (s : option string) : string :=
  match s with
  | None => EmptyString
  | Some s => s
  end.

(** [f"... and {remaining} more files"] *)
Definition more_files (remaining : Z) : string :=
  ("... and " ++ str_of_int remaining ++ " more files")%string.

(** In each formatter [timestamp] is what
    [datetime.now ().strftime ("%Y-%m-%d %H:%M:%S")] returns, should the
    formatter ask for it; the defaults of the keyword arguments are left to
    the caller. *)
Definition format_task_announcement (timestamp : string)
           (agent_name title : string) (files : option (list string))
           (notes : option string) (emoji : string)
           (show_timestamp code_blocks : bool) (max_files : Z) : string :=
  let parts := [(emoji ++ " **" ++ agent_name ++ "** started: " ++ title)%string] in
  let parts :=
    match files with
    | Some ((_ :: _) as files) =>
        if (Z.of_nat (List.length files) >? max_files)%Z then
          let display_files := Queue.slice_to max_files files in
          let remaining := (Z.of_nat (List.length files) - max_files)%Z in
          let files_text := Registry.join nl display_files in
          if code_blocks then
            parts ++ [(fence ++ nl ++ files_text ++ nl ++ more_files remaining
                         ++ nl ++ fence)%string]
          else
            parts ++ [(files_text ++ nl ++ more_files remaining)%string]
        else
          let files_text := Registry.join nl files in
          if code_blocks then
            parts ++ [(fence ++ nl ++ files_text ++ nl ++ fence)%string]
          else parts ++ [files_text]
    | _ => parts
    end in
  let parts :=
    if given notes then parts ++ [("_" ++ text_of notes ++ "_")%string]
    else parts in
  let parts :=
    if show_timestamp then parts ++ [("_Started at " ++ timestamp ++ "_")%string]
    else parts in
  Registry.join nl parts.

Definition format_task_completion (timestamp : string)
           (agent_name title : string) (duration commit notes : option string)
           (emoji : string) (show_timestamp : bool) : string :=
  let parts := [(emoji ++ " **" ++ agent_name ++ "** completed: " ++ title)%string] in
  let parts :=
    if given duration then parts ++ [("Duration: " ++ text_of duration)%string]
    else parts in
  let parts :=
    if given commit then parts ++ [("Commit: `" ++ text_of commit ++ "`")%string]
    else parts in
  let parts :=
    if given notes then parts ++ [("_" ++ text_of notes ++ "_")%string]
    else parts in
  let parts :=
    if show_timestamp then
      parts ++ [("_Completed at " ++ timestamp ++ "_")%string]
    else parts in
  Registry.join nl parts.

Definition format_task_update (timestamp : string)
           (agent_name message emoji : string) (show_timestamp : bool)
  : string :=
  let parts := [(emoji ++ " **" ++ agent_name ++ "**: " ++ message)%string] in
  let parts :=
    if show_timestamp then parts ++ [("_" ++ timestamp ++ "_")%string]
    else parts in
  Registry.join nl parts.

Definition format_question (timestamp : string)
           (agent_name question : string) (context : option string)
           (emoji : string) (show_timestamp : bool) : string :=
  let parts := [(emoji ++ " **" ++ agent_name ++ "** asks: " ++ question)%string] in
  let parts :=
    if given context then
      parts ++ [(fence ++ nl ++ text_of context ++ nl ++ fence)%string]
    else parts in
  let parts :=
    if show_timestamp then parts ++ [("_" ++ timestamp ++ "_")%string]
    else parts in
  Registry.join nl parts.

Definition format_error (timestamp : string)
           (agent_name error_message emoji : string) (show_timestamp : bool)
  : string :=
  let parts := [(emoji ++ " **" ++ agent_name ++ "** error: " ++ error_message)%string] in
  let parts :=
    if show_timestamp then parts ++ [("_" ++ timestamp ++ "_")%string]
    else parts in
  Registry.join nl parts.

(** [s.split (sep)], [sep] being the line feed. *)
Definition lines (s : string) : list string := split Chars.newline s.

(** No line feed in [s]. *)
Definition one_line (s : string) : Prop :=
  all_chars (fun c => negb (Ascii.eqb c Chars.newline)) s = true.

End Formatters.

(* ================================================================== *)
(** ** The decoder inverts the encoder *)

Module JsonFacts.

Import Chars Json.

Lemma emit_arr_cons level x xs k :
  emit level (JArr (x :: xs)) k =
  String "[" (newline_indent (S level)
                (emit (S level) x (emit_items level k xs))).
Proof.
  cbn [emit]. do 3 f_equal.
  induction xs as [|y ys IH]; cbn [emit_items]; [reflexivity|].
  now rewrite IH.
Qed.

Lemma emit_obj_cons level key x xs k :
  emit level (JObj ((key, x) :: xs)) k =
  String "{" (newline_indent (S level)
    (emit_string key
       (String ":" (String " " (emit (S level) x (emit_members level k xs)))))).
Proof.
  cbn [emit]. do 6 f_equal.
  induction xs as [|[key' y] ys IH]; cbn [emit_members]; [reflexivity|].
  now rewrite IH.
Qed.

Lemma jsize_arr l : jsize (JArr l) = S (isize l).
Proof. reflexivity. Qed.

Lemma jsize_obj l : jsize (JObj l) = S (msize l).
Proof. reflexivity. Qed.

Lemma isize_cons x xs : isize (x :: xs) = S (jsize x + isize xs).
Proof. reflexivity. Qed.

(** *** Strings *)

Lemma scanstring_emit_char c k :
  scanstring (emit_char c k) =
  ('(str, rest) <- scanstring k ;; Ok (String c str, rest))%result.
Proof. destruct c as [[] [] [] [] [] [] [] []]; reflexivity. Qed.

Lemma scanstring_emit_chars s k :
  scanstring (emit_chars s (String quote k)) = Ok (s, k).
Proof.
  induction s as [|c s IH]; simpl.
  - reflexivity.
  - rewrite scanstring_emit_char, IH. reflexivity.
Qed.

(** *** Blanks *)

Lemma skip_ws_spaces n k : skip_ws (spaces n k) = skip_ws k.
Proof. induction n as [|n IH]; [reflexivity | exact IH]. Qed.

Lemma skip_ws_newline_indent level k :
  skip_ws (newline_indent level k) = skip_ws k.
Proof. unfold newline_indent. cbn [skip_ws]. apply skip_ws_spaces. Qed.

Lemma emit_opens level v k : opens_value (emit level v k).
Proof.
  destruct v as [|[]|s|[|x xs]|[|[key x] xs]]; cbn; auto.
Qed.

Lemma skip_ws_opens s : opens_value s -> skip_ws s = s.
Proof.
  destruct s as [|c r]; [reflexivity|]. intros [Hws _].
  cbn [skip_ws]. now rewrite Hws.
Qed.

Lemma skip_ws_emit level v k : skip_ws (emit level v k) = emit level v k.
Proof. apply skip_ws_opens, emit_opens. Qed.

(** *** Values *)

Lemma scan_items_emit xs :
  forall x, decodes x -> Forall decodes xs ->
  forall level k fuel,
    isize (x :: xs) <= fuel ->
    scan_items fuel (emit (S level) x (emit_items level k xs)) = Ok (x :: xs, k).
Proof.
  induction xs as [|y ys IH]; intros x Hx Hxs level k fuel Hfuel;
    rewrite isize_cons in Hfuel;
    (destruct fuel as [|f]; [lia|]);
    cbn [scan_items]; rewrite Hx by lia; cbn [rbind emit_items].
  - rewrite skip_ws_newline_indent. reflexivity.
  - inversion Hxs as [|? ? Hy Hys]; subst.
    change (skip_ws (String "," ?r)) with (String "," r).
    cbn [Ascii.eqb Bool.eqb].
    rewrite skip_ws_newline_indent, skip_ws_emit.
    rewrite (IH y Hy Hys) by lia.
    reflexivity.
Qed.

Lemma scan_members_emit xs :
  forall key x, decodes x -> Forall (fun m => decodes (snd m)) xs ->
  forall level k fuel,
    msize ((key, x) :: xs) <= fuel ->
    scan_members fuel
      (emit_chars key
         (String quote (String ":" (String " "
            (emit (S level) x (emit_members level k xs))))))
    = Ok ((key, x) :: xs, k).
Proof.
  induction xs as [|[key' y] ys IH]; intros key x Hx Hxs level k fuel Hfuel;
    (destruct fuel as [|f]; [cbn in Hfuel; lia|]);
    cbn [msize] in Hfuel;
    cbn [scan_members]; rewrite scanstring_emit_chars; cbn [rbind];
    change (skip_ws (String ":" ?r)) with (String ":" r);
    cbn [Ascii.eqb Bool.eqb];
    change (skip_ws (String " " ?r)) with (skip_ws r);
    rewrite skip_ws_emit, Hx by lia; cbn [rbind emit_members].
  - rewrite skip_ws_newline_indent. reflexivity.
  - inversion Hxs as [|? ? Hy Hys]; subst. cbn [snd] in Hy.
    change (skip_ws (String "," ?r)) with (String "," r).
    cbn [Ascii.eqb Bool.eqb].
    rewrite skip_ws_newline_indent. unfold emit_string.
    change (skip_ws (String quote ?r)) with (String quote r).
    cbn [Ascii.eqb Bool.eqb quote].
    rewrite (IH key' y Hy Hys) by (cbn [msize]; lia).
    reflexivity.
Qed.

Theorem scan_once_emit v : decodes v.
Proof.
  induction v as [|b|s|l IH|l IH] using json_nested_ind;
    intros level k fuel Hfuel;
    (destruct fuel as [|f]; [cbn in Hfuel; lia|]).
  - reflexivity.
  - destruct b; reflexivity.
  - cbn [emit scan_once]. unfold emit_string.
    cbn [Ascii.eqb Bool.eqb quote].
    fold quote. rewrite scanstring_emit_chars. reflexivity.
  - destruct l as [|x xs]; [reflexivity|].
    inversion IH as [|? ? Hx Hxs]; subst.
    rewrite emit_arr_cons, jsize_arr in *.
    cbn [scan_once Ascii.eqb Bool.eqb quote].
    rewrite skip_ws_newline_indent, skip_ws_emit.
    pose proof (emit_opens (S level) x (emit_items level k xs)) as Hopen.
    destruct (emit (S level) x (emit_items level k xs)) as [|c r] eqn:E;
      [contradiction|].
    destruct Hopen as [_ ->].
    rewrite <- E, (scan_items_emit xs x Hx Hxs) by lia.
    reflexivity.
  - destruct l as [|[key x] xs]; [reflexivity|].
    inversion IH as [|? ? Hx Hxs]; subst. cbn [snd] in Hx.
    rewrite emit_obj_cons, jsize_obj in *.
    cbn [scan_once Ascii.eqb Bool.eqb quote].
    rewrite skip_ws_newline_indent. unfold emit_string.
    change (skip_ws (String quote ?r)) with (String quote r).
    cbn [Ascii.eqb Bool.eqb quote].
    rewrite (scan_members_emit xs key x Hx Hxs) by lia.
    reflexivity.
Qed.

(** *** The text is long enough to be its own fuel *)

Lemma length_emit_char c k : String.length k < String.length (emit_char c k).
Proof.
  unfold emit_char.
  repeat match goal with
         | |- context [if ?b then _ else _] => destruct b
         end; cbn [String.length]; lia.
Qed.

Lemma length_emit_chars s k : String.length k <= String.length (emit_chars s k).
Proof.
  induction s as [|c s IH]; cbn [emit_chars]; [lia|].
  pose proof (length_emit_char c (emit_chars s k)). lia.
Qed.

Lemma length_emit_string s k :
  String.length k < String.length (emit_string s k).
Proof.
  unfold emit_string. cbn [String.length].
  pose proof (length_emit_chars s (String quote k)) as H.
  cbn [String.length] in H. lia.
Qed.

Lemma length_spaces n k : String.length k <= String.length (spaces n k).
Proof. induction n as [|n IH]; cbn [spaces String.length]; lia. Qed.

Lemma length_newline_indent level k :
  String.length k < String.length (newline_indent level k).
Proof.
  unfold newline_indent. cbn [String.length].
  pose proof (length_spaces (2 * level) k). lia.
Qed.

Lemma length_emit_items xs :
  Forall fits xs ->
  forall level k,
    isize xs + String.length k <= String.length (emit_items level k xs).
Proof.
  induction 1 as [|y ys Hy _ IH]; intros level k.
  - cbn [isize fold_right emit_items].
    pose proof (length_newline_indent level (String "]" k)) as H.
    cbn [String.length] in H. lia.
  - rewrite isize_cons. cbn [emit_items String.length].
    pose proof (length_newline_indent (S level)
                  (emit (S level) y (emit_items level k ys))).
    pose proof (Hy (S level) (emit_items level k ys)).
    pose proof (IH level k). lia.
Qed.

Lemma length_emit_members xs :
  Forall (fun m => fits (snd m)) xs ->
  forall level k,
    msize xs + String.length k <= String.length (emit_members level k xs).
Proof.
  induction 1 as [|[key y] ys Hy _ IH]; intros level k.
  - cbn [msize emit_members].
    pose proof (length_newline_indent level (String "}" k)) as H.
    cbn [String.length] in H. lia.
  - cbn [msize emit_members String.length snd] in *.
    match goal with
    | |- context [newline_indent ?l ?r] =>
        pose proof (length_newline_indent l r)
    end.
    match goal with
    | H : context [emit_string ?a ?r] |- _ =>
        pose proof (length_emit_string a r) as Hs
    end.
    cbn [String.length] in Hs.
    pose proof (Hy (S level) (emit_members level k ys)).
    pose proof (IH level k). lia.
Qed.

Lemma length_emit v : fits v.
Proof.
  induction v as [|b|s|l IH|l IH] using json_nested_ind; intros level k.
  - cbn. lia.
  - destruct b; cbn; lia.
  - cbn [emit jsize]. pose proof (length_emit_string s k). lia.
  - destruct l as [|x xs]; [cbn; lia|].
    inversion IH as [|? ? Hx Hxs]; subst.
    rewrite emit_arr_cons, jsize_arr, isize_cons. cbn [String.length].
    pose proof (length_newline_indent (S level)
                  (emit (S level) x (emit_items level k xs))).
    pose proof (Hx (S level) (emit_items level k xs)).
    pose proof (length_emit_items xs Hxs level k). lia.
  - destruct l as [|[key x] xs]; [cbn; lia|].
    inversion IH as [|? ? Hx Hxs]; subst. cbn [snd] in Hx.
    rewrite emit_obj_cons, jsize_obj. cbn [msize String.length].
    match goal with
    | |- context [newline_indent ?l ?r] =>
        pose proof (length_newline_indent l r)
    end.
    match goal with
    | H : context [emit_string ?a ?r] |- _ =>
        pose proof (length_emit_string a r) as Hs
    end.
    cbn [String.length] in Hs.
    pose proof (Hx (S level) (emit_members level k xs)).
    pose proof (length_emit_members xs Hxs level k). lia.
Qed.

(** [json.loads (json.dumps (v, indent=2))] is [v]. *)
Theorem loads_dumps v : loads (dumps v) = Ok v.
Proof.
  unfold loads, dumps. rewrite skip_ws_emit.
  rewrite scan_once_emit.
  - reflexivity.
  - pose proof (length_emit v 0 EmptyString). lia.
Qed.

End JsonFacts.

(* ================================================================== *)
(** ** Facts about results *)

Module ResultFacts.

Lemma mapM_Forall2 {A B : Type} (f : A -> result B) l l' :
  mapM f l = Ok l' -> Forall2 (fun a b => f a = Ok b) l l'.
Proof.
  revert l'. induction l as [|x xs IH]; cbn; intros l' H.
  - injection H as <-. constructor.
  - destruct (f x) as [y|] eqn:Ex; [|discriminate]. cbn in H.
    destruct (mapM f xs) as [ys|] eqn:Exs; [|discriminate]. cbn in H.
    injection H as <-. constructor; auto.
Qed.

Lemma Forall2_mapM {A B : Type} (f : A -> result B) l l' :
  Forall2 (fun a b => f a = Ok b) l l' -> mapM f l = Ok l'.
Proof.
  induction 1 as [|x y xs ys Hxy _ IH]; cbn; [reflexivity|].
  now rewrite Hxy, IH.
Qed.

Lemma mapM_map_inverse {A B : Type} (g : B -> A) (f : A -> result B) l :
  Forall (fun b => f (g b) = Ok b) l -> mapM f (map g l) = Ok l.
Proof.
  induction 1 as [|x xs Hx _ IH]; cbn; [reflexivity|].
  now rewrite Hx, IH.
Qed.

End ResultFacts.

(* ================================================================== *)
(** ** Facts about dictionaries *)

Module DictFacts.

Import Dict.

Section WithValues.

Context {V : Type}.
Implicit Types (d o : dict V) (k : string) (v : V).

Lemma get_set_same d k v : get (set d k v) k = Some v.
Proof.
  induction d as [|[k' v'] r IH]; cbn.
  - now rewrite String.eqb_refl.
  - destruct (String.eqb k' k) eqn:E; cbn; rewrite E; auto.
Qed.

Lemma get_set_other d k k' v : k <> k' -> get (set d k v) k' = get d k'.
Proof.
  intros Hne. induction d as [|[k0 v0] r IH]; cbn.
  - destruct (String.eqb_spec k k'); congruence.
  - destruct (String.eqb_spec k0 k); cbn.
    + subst. destruct (String.eqb_spec k k'); congruence.
    + destruct (String.eqb_spec k0 k'); auto.
Qed.

Lemma get_none d k : get d k = None <-> ~ In k (keys d).
Proof.
  unfold keys. induction d as [|[k' v'] r IH]; cbn.
  - tauto.
  - destruct (String.eqb_spec k' k); split; intros H.
    + discriminate.
    + tauto.
    + intros [?|?]; [congruence | tauto].
    + apply IH. tauto.
Qed.

Lemma get_some_in d k v : get d k = Some v -> In (k, v) d.
Proof.
  induction d as [|[k' v'] r IH]; cbn; [discriminate|].
  destruct (String.eqb_spec k' k); intros H.
  - injection H as <-. subst. now left.
  - right. auto.
Qed.

Lemma get_in_keys d k v : get d k = Some v -> In k (keys d).
Proof. intros H. apply get_some_in in H. now apply (in_map fst) in H. Qed.

Lemma keys_set_in d k v : In k (keys d) -> keys (set d k v) = keys d.
Proof.
  unfold keys. induction d as [|[k' v'] r IH]; cbn; [tauto|].
  destruct (String.eqb_spec k' k); cbn; [reflexivity|].
  intros [?|?]; [congruence|]. now rewrite IH.
Qed.

Lemma set_fresh d k v : ~ In k (keys d) -> set d k v = d ++ [(k, v)].
Proof.
  unfold keys. induction d as [|[k' v'] r IH]; cbn; [reflexivity|].
  destruct (String.eqb_spec k' k); intros H; [tauto|].
  rewrite IH by tauto. reflexivity.
Qed.

Lemma wf_set d k v : wf d -> wf (set d k v).
Proof.
  unfold wf. intros H.
  destruct (in_dec string_dec k (keys d)) as [Hin|Hout].
  - now rewrite keys_set_in.
  - rewrite set_fresh by assumption. unfold keys. rewrite map_app. cbn.
    apply NoDup_app; [assumption | repeat constructor; cbn; tauto |].
    intros a Ha [<-|[]]. contradiction.
Qed.

Lemma wf_update o : forall d, wf d -> wf (update d o).
Proof.
  unfold update. induction o as [|[k v] o IH]; cbn; intros d H; [assumption|].
  apply IH, wf_set, H.
Qed.

Lemma wf_of_pairs (pairs : list (string * V)) : wf (of_pairs pairs).
Proof. apply wf_update. constructor. Qed.

Lemma update_fresh o : forall d, wf (d ++ o) -> update d o = d ++ o.
Proof.
  unfold update, wf, keys.
  induction o as [|[k v] o IH]; cbn; intros d H.
  - now rewrite app_nil_r.
  - assert (Hk : ~ In k (keys d)).
    { rewrite map_app in H. cbn in H. apply NoDup_remove_2 in H.
      intros Hin. apply H, in_or_app. now left. }
    rewrite set_fresh by assumption.
    rewrite IH; rewrite <- app_assoc; cbn; [reflexivity | assumption].
Qed.

Lemma of_pairs_wf (pairs : dict V) : wf pairs -> of_pairs pairs = pairs.
Proof. intros H. unfold of_pairs. now rewrite update_fresh. Qed.

Lemma get_update_other o : forall d k,
  ~ In k (keys o) -> get (update d o) k = get d k.
Proof.
  unfold update. induction o as [|[k' v'] o IH]; cbn; intros d k H; [reflexivity|].
  rewrite IH by tauto. apply get_set_other. tauto.
Qed.

Lemma get_update_in o : wf o -> forall d k v,
  In (k, v) o -> get (update d o) k = Some v.
Proof.
  unfold wf. induction o as [|[k' v'] o IH]; cbn; intros Hwf d k v Hin; [tauto|].
  inversion Hwf as [|? ? Hk' Ho]; subst.
  destruct Hin as [E|Hin].
  - injection E as -> ->.
    change (get (update (set d k v) o) k = Some v).
    rewrite get_update_other by assumption. apply get_set_same.
  - now apply (IH Ho).
Qed.

Lemma get_in_wf d k v : wf d -> In (k, v) d -> get d k = Some v.
Proof.
  unfold wf, keys. induction d as [|[k' v'] r IH]; cbn; intros Hwf Hin; [tauto|].
  inversion Hwf as [|? ? Hk' Hr]; subst.
  destruct Hin as [E|Hin].
  - injection E as -> ->. now rewrite String.eqb_refl.
  - destruct (String.eqb_spec k' k) as [->|_]; [|now apply IH].
    exfalso. apply Hk'. now apply (in_map fst) in Hin.
Qed.

End WithValues.

End DictFacts.

(* ================================================================== *)
(** ** The document survives the trip through JSON *)

Module DocumentFacts.

Import Json Document ResultFacts.

Lemma value_of_json_of_value v : value_of_json (json_of_value v) = Ok v.
Proof. now destruct v. Qed.

Lemma keys_json_of_task (t : task) :
  Dict.keys (map (fun kv => (fst kv, json_of_value (snd kv))) t) = Dict.keys t.
Proof. unfold Dict.keys. rewrite map_map. reflexivity. Qed.

Lemma task_of_json_of_task t : Dict.wf t -> task_of_json (json_of_task t) = Ok t.
Proof.
  intros Hwf. unfold task_of_json, json_of_task.
  rewrite DictFacts.of_pairs_wf
    by (unfold Dict.wf; now rewrite keys_json_of_task).
  apply mapM_map_inverse
    with (g := fun kv : string * field => (fst kv, json_of_value (snd kv))).
  apply Forall_forall. intros [k v] _. cbn.
  now rewrite value_of_json_of_value.
Qed.

Theorem document_of_json_of_document data :
  wf data -> document_of_json (json_of_document data) = Ok data.
Proof.
  destruct data as [ts]. unfold wf. cbn. intros Hwf.
  rewrite (mapM_map_inverse json_of_task task_of_json ts); [reflexivity|].
  eapply Forall_impl; [|exact Hwf]. apply task_of_json_of_task.
Qed.

Lemma task_of_json_wf j t : task_of_json j = Ok t -> Dict.wf t.
Proof.
  destruct j as [| | | |members]; try discriminate. cbn. intros H.
  apply mapM_Forall2 in H.
  assert (Hk : Dict.keys t = Dict.keys (Dict.of_pairs members)).
  { induction H as [|[k j] [k' v] xs ys Hxy _ IH]; cbn; [reflexivity|].
    cbn in Hxy. destruct (value_of_json j); [|discriminate].
    injection Hxy as -> _. now f_equal. }
  unfold Dict.wf. rewrite Hk. apply DictFacts.wf_of_pairs.
Qed.

Theorem document_of_json_wf j data : document_of_json j = Ok data -> wf data.
Proof.
  destruct j as [| | | |members]; try discriminate. cbn.
  destruct (Dict.of_pairs members) as [|[key [| | |items|]] [|]]; try discriminate.
  destruct (String.eqb key "tasks"); [|discriminate].
  destruct (mapM task_of_json items) as [ts|] eqn:E; [|discriminate].
  cbn. intros H. injection H as <-. unfold wf. cbn.
  apply mapM_Forall2 in E.
  induction E as [|x y xs ys Hxy _ IH]; constructor; eauto using task_of_json_wf.
Qed.

End DocumentFacts.

(* ================================================================== *)
(** ** Facts about the queue *)

Module QueueFacts.

Import Chars Json Document Queue.

(** What [_save_queue] writes, [_load_queue] reads back. *)
Lemma stored_saved data :
  wf data -> stored (Some (dumps (json_of_document data))) = Ok data.
Proof.
  intros H. unfold stored, _load_queue. cbn [fst].
  rewrite JsonFacts.loads_dumps. cbn [rbind].
  now apply DocumentFacts.document_of_json_of_document.
Qed.

Lemma stored_wf fs data : stored fs = Ok data -> wf data.
Proof.
  unfold stored, _load_queue. destruct fs as [text|]; cbn [fst]; [|discriminate].
  destruct (loads text) as [j|]; cbn [rbind]; [|discriminate].
  apply DocumentFacts.document_of_json_wf.
Qed.

Lemma load_queue_stored fs : _load_queue fs = (stored fs, fs).
Proof. destruct fs; reflexivity. Qed.

Lemma value_eqb_eq a b : value_eqb a b = true <-> a = b.
Proof.
  destruct a as [|x], b as [|y]; cbn; split; try congruence.
  - intros H. apply String.eqb_eq in H. now subst.
  - intros H. injection H as ->. apply String.eqb_refl.
Qed.

Lemma value_eqb_neq a b : value_eqb a b = false <-> a <> b.
Proof.
  rewrite <- value_eqb_eq. destruct (value_eqb a b); split; congruence.
Qed.

Lemma wf_new_task i a m d r now : Dict.wf (new_task i a m d r now).
Proof.
  unfold Dict.wf, new_task. cbn [Dict.keys map fst].
  repeat (constructor; [cbn [In]; intuition discriminate|]). constructor.
Qed.

(** *** [add_task] *)

Lemma add_task_run u now a m d r fs data :
  stored fs = Ok data ->
  add_task u now a m d r fs =
  (Ok (task_id_of u),
   Some (dumps (json_of_document
                  {| tasks := tasks data ++ [new_task (task_id_of u) a m d r now] |}))).
Proof.
  intros H. unfold add_task, bind. now rewrite load_queue_stored, H.
Qed.

Lemma add_task_stored u now a m d r fs data :
  stored fs = Ok data ->
  stored (snd (add_task u now a m d r fs)) =
  Ok {| tasks := tasks data ++ [new_task (task_id_of u) a m d r now] |}.
Proof.
  intros H. rewrite (add_task_run _ _ _ _ _ _ _ _ H). cbn [snd].
  apply stored_saved. unfold wf. cbn [tasks].
  apply Forall_app. split; [now apply stored_wf in H|].
  constructor; [apply wf_new_task | constructor].
Qed.

Lemma add_task_raises u now a m d r fs e :
  stored fs = Raise e -> add_task u now a m d r fs = (Raise e, fs).
Proof.
  intros H. unfold add_task, bind. now rewrite load_queue_stored, H.
Qed.

(** *** The readers *)

Lemma get_task_run i fs :
  get_task i fs = ((data <- stored fs ;; find_task i (tasks data))%result, fs).
Proof.
  unfold get_task, bind, lift. rewrite load_queue_stored.
  now destruct (stored fs).
Qed.

Lemma get_next_queued_task_run fs :
  get_next_queued_task fs =
  ((data <- stored fs ;; find_queued (tasks data))%result, fs).
Proof.
  unfold get_next_queued_task, bind, lift. rewrite load_queue_stored.
  now destruct (stored fs).
Qed.

Lemma list_tasks_run status limit fs :
  list_tasks status limit fs =
  ((data <- stored fs ;;
    ts <- match status with
          | Some st => with_status st (tasks data)
          | None => Ok (tasks data)
          end ;;
    ts <- sort_by_created_at_reverse ts ;;
    Ok (slice_to limit ts))%result, fs).
Proof.
  unfold list_tasks, bind, lift, ret. rewrite load_queue_stored.
  destruct (stored fs) as [data|]; cbn [rbind]; [|reflexivity].
  destruct (match status with Some st => _ | None => _ end); cbn [rbind];
    [|reflexivity].
  now destruct (sort_by_created_at_reverse a).
Qed.

(** *** [update_task_status] *)

Lemma update_task_status_refused i st kw fs :
  repeats_parameter kw = true ->
  update_task_status i st kw fs = (Raise TypeError, fs).
Proof. intros H. unfold update_task_status. now rewrite H. Qed.

Lemma update_task_status_run i st kw fs :
  repeats_parameter kw = false ->
  update_task_status i st kw fs =
  match (data <- stored fs ;; update_first i st kw (tasks data))%result with
  | Ok ts => (Ok tt, Some (dumps (json_of_document {| tasks := ts |})))
  | Raise e => (Raise e, fs)
  end.
Proof.
  intros H. unfold update_task_status, bind, lift. rewrite H, load_queue_stored.
  destruct (stored fs) as [data|]; cbn [rbind]; [|reflexivity].
  now destruct (update_first i st kw (tasks data)).
Qed.

Lemma has_field_get k t : has_field k t <-> exists v, Dict.get t k = Some v.
Proof.
  unfold has_field, Dict.contains. destruct (Dict.get t k) as [v|]; split.
  - eauto.
  - reflexivity.
  - discriminate.
  - intros [v H]. discriminate.
Qed.

Lemma update_first_wf i st kw l :
  Forall Dict.wf l -> forall ts, update_first i st kw l = Ok ts -> Forall Dict.wf ts.
Proof.
  induction 1 as [|t r Ht Hr IH]; cbn [update_first]; intros ts H.
  - injection H as <-. constructor.
  - unfold Dict.getitem in H. destruct (Dict.get t "id") as [v|]; [|discriminate].
    cbn [rbind] in H. destruct (value_eqb v (VStr i)).
    + injection H as <-. constructor; [|assumption].
      apply DictFacts.wf_update, DictFacts.wf_set, Ht.
    + destruct (update_first i st kw r) as [r'|]; [|discriminate].
      injection H as <-. constructor; auto.
Qed.

Lemma update_first_absent i st kw l :
  Forall (has_field "id") l -> ~ In (Some (VStr i)) (ids l) ->
  update_first i st kw l = Ok l.
Proof.
  induction 1 as [|t r Ht Hr IH]; cbn [update_first ids map In]; intros Hout;
    [reflexivity|].
  apply has_field_get in Ht. destruct Ht as [v Hv].
  unfold Dict.getitem. rewrite Hv. cbn [rbind].
  destruct (value_eqb v (VStr i)) eqn:E.
  - apply value_eqb_eq in E. subst. tauto.
  - rewrite IH by tauto. reflexivity.
Qed.

Lemma update_first_present i st kw (pre : list task) (t : task) post :
  Forall (other_id i) pre -> Dict.get t "id" = Some (VStr i) ->
  update_first i st kw (pre ++ t :: post) =
  Ok (pre ++ Dict.update (Dict.set t "status" (VStr (value st))) kw :: post).
Proof.
  intros Hpre Ht.
  induction Hpre as [|p r [v [Hv Hne]] Hr IH]; cbn [app update_first];
    unfold Dict.getitem.
  - rewrite Ht. cbn [rbind].
    now rewrite (proj2 (value_eqb_eq _ _) eq_refl).
  - rewrite Hv. cbn [rbind].
    rewrite (proj2 (value_eqb_neq _ _) Hne), IH. reflexivity.
Qed.

Lemma first_with_id i l :
  Forall (has_field "id") l -> In (Some (VStr i)) (ids l) ->
  exists (pre : list task) (t : task) (post : list task),
    l = pre ++ t :: post /\ Forall (other_id i) pre
    /\ Dict.get t "id" = Some (VStr i).
Proof.
  induction 1 as [|t r Ht Hr IH]; cbn [ids map In]; [tauto|]. intros Hin.
  apply has_field_get in Ht. destruct Ht as [v Hv].
  destruct (value_eqb v (VStr i)) eqn:E.
  - apply value_eqb_eq in E. subst v.
    exists [], t, r. repeat split; [constructor | assumption].
  - apply value_eqb_neq in E.
    destruct IH as (pre & t' & post & -> & Hpre & Ht').
    { destruct Hin as [Hin|Hin]; [congruence | exact Hin]. }
    exists (t :: pre), t', post. repeat split; [|assumption].
    constructor; [now exists v | assumption].
Qed.

Lemma keywords_not_status kw :
  repeats_parameter kw = false -> ~ In "status" (Dict.keys kw).
Proof.
  unfold repeats_parameter. intros H Hin.
  assert (Ht : existsb (fun k => existsb (String.eqb k) parameter_names)
                 (Dict.keys kw) = true).
  { apply existsb_exists. exists "status". split; [assumption | reflexivity]. }
  congruence.
Qed.

Lemma update_first_ids i st kw l :
  ~ In "id" (Dict.keys kw) ->
  forall ts, update_first i st kw l = Ok ts -> ids ts = ids l.
Proof.
  intros Hid. induction l as [|t r IH]; cbn [update_first]; intros ts H.
  - now injection H as <-.
  - unfold Dict.getitem in H. destruct (Dict.get t "id") as [v|] eqn:Hv;
      [|discriminate].
    cbn [rbind] in H. destruct (value_eqb v (VStr i)).
    + injection H as <-. cbn [ids map]. f_equal.
      rewrite DictFacts.get_update_other by assumption.
      rewrite DictFacts.get_set_other by discriminate. reflexivity.
    + destruct (update_first i st kw r) as [r'|]; [|discriminate].
      injection H as <-. cbn [ids map]. f_equal. now apply IH.
Qed.

(** *** Steps and runs *)

Lemma keeps_ids_refl fs : keeps_ids fs fs.
Proof.
  intros data data' H H'. rewrite H in H'. injection H' as <-.
  exists []. now rewrite app_nil_r.
Qed.

Lemma keeps_ids_trans fs mid fs' :
  unique_ids mid -> keeps_ids fs mid -> keeps_ids mid fs' -> keeps_ids fs fs'.
Proof.
  intros (dm & Hm & _) H1 H2 data data' Hd Hd'.
  destruct (H1 _ _ Hd Hm) as [m1 E1]. destruct (H2 _ _ Hm Hd') as [m2 E2].
  exists (m1 ++ m2). now rewrite E2, E1, app_assoc.
Qed.

Lemma exec_reader o fs :
  match o with
  | Call_add_task _ _ _ _ _ _ | Call_update_task_status _ _ _ => False
  | _ => True
  end ->
  exec o fs = fs.
Proof.
  destruct o; cbn [exec]; try contradiction; intros _.
  - now rewrite get_task_run.
  - now rewrite get_next_queued_task_run.
  - now rewrite list_tasks_run.
Qed.

Lemma exec_add_ids u now a m d r fs data :
  stored fs = Ok data ->
  exists data',
    stored (exec (Call_add_task u now a m d r) fs) = Ok data'
    /\ ids (tasks data') = ids (tasks data) ++ [Some (VStr (task_id_of u))].
Proof.
  intros H. eexists. split; [apply (add_task_stored _ _ _ _ _ _ _ _ H)|].
  cbn [tasks]. unfold ids. now rewrite map_app.
Qed.

Lemma exec_update_ids i st kw fs data :
  stored fs = Ok data -> ~ In "id" (Dict.keys kw) ->
  exists data',
    stored (exec (Call_update_task_status i st kw) fs) = Ok data'
    /\ ids (tasks data') = ids (tasks data).
Proof.
  intros H Hid. cbn [exec].
  destruct (repeats_parameter kw) eqn:Hkw.
  - rewrite update_task_status_refused by assumption. now exists data.
  - rewrite update_task_status_run, H by assumption. cbn [rbind].
    destruct (update_first i st kw (tasks data)) as [ts|] eqn:E.
    + exists {| tasks := ts |}. cbn [snd tasks]. split.
      * apply stored_saved. apply stored_wf in H.
        exact (update_first_wf _ _ _ _ H _ E).
      * exact (update_first_ids _ _ _ _ Hid _ E).
    + now exists data.
Qed.

Lemma exec_respects_ids o fs :
  unique_ids fs -> respects_ids fs o ->
  unique_ids (exec o fs) /\ keeps_ids fs (exec o fs).
Proof.
  intros (data & Hs & Hnd) Hr.
  destruct o as [u now a m d r|i st kw|i| |st n].
  - destruct (exec_add_ids u now a m d r fs data Hs) as (data' & Hs' & E).
    split.
    + exists data'. split; [assumption|]. rewrite E.
      apply NoDup_app; [assumption | repeat constructor; cbn; tauto |].
      intros x Hx [<-|[]]. exact (Hr data Hs Hx).
    + intros d0 d1 H0 H1. rewrite Hs in H0. injection H0 as <-.
      rewrite Hs' in H1. injection H1 as <-. eauto.
  - destruct (exec_update_ids i st kw fs data Hs Hr) as (data' & Hs' & E).
    split.
    + exists data'. split; [assumption|]. now rewrite E.
    + intros d0 d1 H0 H1. rewrite Hs in H0. injection H0 as <-.
      rewrite Hs' in H1. injection H1 as <-. exists []. now rewrite app_nil_r.
  - rewrite exec_reader by exact I. split; [now exists data | apply keeps_ids_refl].
  - rewrite exec_reader by exact I. split; [now exists data | apply keeps_ids_refl].
  - rewrite exec_reader by exact I. split; [now exists data | apply keeps_ids_refl].
Qed.

Lemma initial_stored : stored initial = Ok {| tasks := [] |}.
Proof. vm_compute. reflexivity. Qed.

Lemma initial_unique_ids : unique_ids initial.
Proof. eexists. split; [exact initial_stored | constructor]. Qed.

(** *** Reading back what [add_task] stored *)

Lemma find_task_last i (l : list task) (t : task) :
  Forall (has_field "id") l -> ~ In (Some (VStr i)) (ids l) ->
  Dict.get t "id" = Some (VStr i) ->
  find_task i (l ++ [t]) = Ok (Some t).
Proof.
  intros Hl Hout Ht.
  induction Hl as [|x r Hx Hr IH]; cbn [app find_task]; unfold Dict.getitem.
  - rewrite Ht. cbn [rbind]. now rewrite (proj2 (value_eqb_eq _ _) eq_refl).
  - apply has_field_get in Hx. destruct Hx as [v Hv]. rewrite Hv. cbn [rbind].
    cbn [ids map In] in Hout.
    destruct (value_eqb v (VStr i)) eqn:E.
    + apply value_eqb_eq in E. subst. tauto.
    + apply IH. tauto.
Qed.

Lemma find_task_first i (pre : list task) (t : task) post :
  Forall (other_id i) pre -> Dict.get t "id" = Some (VStr i) ->
  find_task i (pre ++ t :: post) = Ok (Some t).
Proof.
  intros Hpre Ht.
  induction Hpre as [|p r [v [Hv Hne]] Hr IH]; cbn [app find_task];
    unfold Dict.getitem.
  - rewrite Ht. cbn [rbind]. now rewrite (proj2 (value_eqb_eq _ _) eq_refl).
  - rewrite Hv. cbn [rbind]. now rewrite (proj2 (value_eqb_neq _ _) Hne).
Qed.

Lemma find_queued_spec (l : list task) :
  Forall (has_field "status") l ->
  (Forall not_queued l /\ find_queued l = Ok None)
  \/ exists (pre : list task) (t : task) (post : list task),
       l = pre ++ t :: post /\ Forall not_queued pre /\ is_queued t
       /\ find_queued l = Ok (Some t).
Proof.
  induction 1 as [|x r Hx Hr IH]; cbn [find_queued].
  - left. split; [constructor | reflexivity].
  - apply has_field_get in Hx. destruct Hx as [v Hv].
    unfold Dict.getitem. rewrite Hv. cbn [rbind].
    destruct (value_eqb v (VStr (value QUEUED))) eqn:E.
    + apply value_eqb_eq in E. subst v. right.
      exists [], x, r. repeat split; [constructor | exact Hv].
    + apply value_eqb_neq in E.
      assert (Hnq : not_queued x) by now exists v.
      destruct IH as [[Hall Hnone]|(pre & t & post & -> & Hpre & Ht & Hfound)].
      * left. split; [now constructor | assumption].
      * right. exists (x :: pre), t, post.
        repeat split; [now constructor | assumption | assumption].
Qed.

Lemma init_on_stored fs data : stored fs = Ok data -> __init__ fs = (Ok tt, fs).
Proof. destruct fs; [reflexivity | discriminate]. Qed.

Lemma run_adds reqs :
  forall fs data,
    stored fs = Ok data ->
    stored (run (map add_of reqs) fs)
    = Ok {| tasks := tasks data ++ map task_of reqs |}.
Proof.
  induction reqs as [|q reqs IH]; cbn [map run fold_left]; intros fs data H.
  - rewrite app_nil_r. now destruct data.
  - change (fold_left (fun s o => exec o s) (map add_of reqs) ?x)
      with (run (map add_of reqs) x).
    erewrite IH; [|apply add_task_stored, H].
    cbn [tasks]. now rewrite <- app_assoc.
Qed.

(** *** Identifiers *)

Lemma append_assoc (a b c : string) : ((a ++ b) ++ c = a ++ (b ++ c))%string.
Proof. induction a as [|x a IH]; cbn; [reflexivity | now rewrite IH]. Qed.

Lemma length_append (a b : string) :
  String.length (a ++ b) = String.length a + String.length b.
Proof. induction a as [|x a IH]; cbn; [reflexivity | now rewrite IH]. Qed.

Lemma is_lower_hex_hex_digit n : is_lower_hex (hex_digit n) = true.
Proof.
  unfold is_lower_hex, hex_digit.
  pose proof (N.mod_upper_bound n 16 ltac:(discriminate)) as Hd.
  set (d := N.modulo n 16) in *.
  destruct (N.ltb_spec d 10).
  - rewrite N_ascii_embedding by lia.
    apply orb_true_iff. left. apply andb_true_iff.
    split; apply N.leb_le; lia.
  - rewrite N_ascii_embedding by lia.
    apply orb_true_iff. right. apply andb_true_iff.
    split; apply N.leb_le; lia.
Qed.

Lemma hex_fixed_spec width :
  forall n k, exists digits,
    hex_fixed width n k = (digits ++ k)%string
    /\ String.length digits = width /\ all_lower_hex digits.
Proof.
  induction width as [|w IH]; cbn [hex_fixed]; intros n k.
  - exists EmptyString. repeat split. constructor.
  - destruct (IH (N.div n 16) (String (hex_digit n) k)) as (ds & E & Hl & Hh).
    exists (ds ++ String (hex_digit n) EmptyString)%string. repeat split.
    + now rewrite E, append_assoc.
    + rewrite length_append. cbn. lia.
    + unfold all_lower_hex in *. clear E Hl.
      induction ds as [|c ds IHds]; cbn.
      * repeat constructor. apply is_lower_hex_hex_digit.
      * inversion Hh; subst. constructor; auto.
Qed.

Lemma substring_prefix n :
  forall s, n <= String.length s ->
            String.length (substring 0 n s) = n
            /\ (all_lower_hex s -> all_lower_hex (substring 0 n s)).
Proof.
  unfold all_lower_hex.
  induction n as [|n IH]; intros [|c s] H; cbn in *; try lia;
    try (split; [reflexivity | constructor]).
  destruct (IH s ltac:(lia)) as [Hl Hh]. split; [now rewrite Hl|].
  intros Hall. inversion Hall; subst. constructor; auto.
Qed.

Lemma task_id_of_format u :
  exists digits,
    task_id_of u = ("task-" ++ digits)%string
    /\ String.length digits = 8 /\ all_lower_hex digits.
Proof.
  unfold task_id_of, uuid_hex.
  destruct (hex_fixed_spec 32 u EmptyString) as (ds & E & Hl & Hh).
  rewrite E.
  assert (Hds : (ds ++ EmptyString)%string = ds).
  { clear. induction ds as [|c ds IH]; cbn; [reflexivity | now rewrite IH]. }
  rewrite Hds.
  destruct (substring_prefix 8 ds ltac:(lia)) as [H8 Hp].
  eexists. repeat split; [exact H8 | exact (Hp Hh)].
Qed.

(** *** The order of [str] *)

Lemma ascii_compare_refl a : Ascii.compare a a = Eq.
Proof. unfold Ascii.compare. apply N.compare_refl. Qed.

Lemma ascii_compare_lt_trans a b c :
  Ascii.compare a b = Lt -> Ascii.compare b c = Lt -> Ascii.compare a c = Lt.
Proof.
  unfold Ascii.compare. rewrite !N.compare_lt_iff. lia.
Qed.

Lemma compare_lt_trans a :
  forall b c, String.compare a b = Lt -> String.compare b c = Lt ->
              String.compare a c = Lt.
Proof.
  induction a as [|x a IH]; intros [|y b] [|z c]; cbn; try congruence.
  destruct (Ascii.compare x y) eqn:Exy; try congruence;
    destruct (Ascii.compare y z) eqn:Eyz; try congruence; intros H1 H2.
  - apply Ascii.compare_eq_iff in Exy, Eyz. subst.
    rewrite ascii_compare_refl. eauto.
  - apply Ascii.compare_eq_iff in Exy. subst. now rewrite Eyz.
  - apply Ascii.compare_eq_iff in Eyz. subst. now rewrite Exy.
  - now rewrite (ascii_compare_lt_trans _ _ _ Exy Eyz).
Qed.

Lemma compare_refl a : String.compare a a = Eq.
Proof.
  induction a as [|x a IH]; cbn; [reflexivity|].
  now rewrite ascii_compare_refl.
Qed.

Lemma leb_trans a b c :
  String.leb a b = true -> String.leb b c = true -> String.leb a c = true.
Proof.
  unfold String.leb.
  destruct (String.compare a b) eqn:Eab; try discriminate;
    destruct (String.compare b c) eqn:Ebc; try discriminate; intros _ _.
  - apply String.compare_eq_iff in Eab, Ebc. subst.
    now rewrite compare_refl.
  - apply String.compare_eq_iff in Eab. subst. now rewrite Ebc.
  - apply String.compare_eq_iff in Ebc. subst. now rewrite Eab.
  - now rewrite (compare_lt_trans _ _ _ Eab Ebc).
Qed.

Lemma ltb_true_leb a b : String.ltb a b = true -> String.leb a b = true.
Proof. unfold String.ltb, String.leb. now destruct (String.compare a b). Qed.

Lemma ltb_false_leb a b : String.ltb a b = false -> String.leb b a = true.
Proof.
  unfold String.ltb, String.leb. rewrite (String.compare_antisym b a).
  now destruct (String.compare a b).
Qed.

(** *** Sorting *)

Lemma insert_desc_perm x l : Permutation (insert_desc x l) (x :: l).
Proof.
  induction l as [|y r IH]; cbn [insert_desc]; [reflexivity|].
  destruct (String.ltb (fst x) (fst y)); [|reflexivity].
  rewrite IH. apply perm_swap.
Qed.

Lemma sort_desc_perm l : Permutation (sort_desc l) l.
Proof.
  induction l as [|x r IH]; cbn [sort_desc fold_right]; [reflexivity|].
  fold (sort_desc r). rewrite insert_desc_perm. now constructor.
Qed.

Lemma insert_desc_sorted x l :
  StronglySorted key_ge l -> StronglySorted key_ge (insert_desc x l).
Proof.
  induction 1 as [|y r Hr IH Hy]; cbn [insert_desc].
  - repeat constructor.
  - destruct (String.ltb (fst x) (fst y)) eqn:E.
    + constructor; [assumption|].
      apply (Permutation_Forall (Permutation_sym (insert_desc_perm x r))).
      constructor; [|assumption]. now apply ltb_true_leb.
    + apply ltb_false_leb in E.
      constructor; [now constructor|].
      constructor; [assumption|].
      eapply Forall_impl; [|exact Hy].
      intros z Hz. unfold key_ge in *. now apply (leb_trans _ (fst y)).
Qed.

Lemma sort_desc_sorted l : StronglySorted key_ge (sort_desc l).
Proof.
  induction l as [|x r IH]; cbn [sort_desc fold_right]; [constructor|].
  now apply insert_desc_sorted.
Qed.

Lemma sorted_by_key (l : list (string * task)) :
  Forall (fun p => fst p = created_at (snd p)) l ->
  StronglySorted key_ge l -> StronglySorted newest_first (map snd l).
Proof.
  intros Hk Hs. induction Hs as [|p r Hr IH Hp]; cbn [map]; [constructor|].
  inversion Hk as [|? ? Hkp Hkr]; subst.
  constructor; [now apply IH|].
  apply Forall_map. rewrite Forall_forall in *.
  intros q Hq. unfold newest_first, key_ge in *.
  rewrite <- Hkp, <- (Hkr q Hq). now apply Hp.
Qed.

Lemma created_at_keys (l : list task) :
  Forall (has_str_field "created_at") l ->
  mapM created_at_key l = Ok (map (fun t => (VStr (created_at t), t)) l)
  /\ mapM str_key (map (fun t => (VStr (created_at t), t)) l)
     = Ok (map (fun t => (created_at t, t)) l).
Proof.
  induction 1 as [|t r [s Hs] Hr [IH1 IH2]]; cbn [map mapM]; [now split|].
  rewrite IH1, IH2. unfold created_at_key, created_at, Dict.getitem.
  rewrite Hs. now split.
Qed.

Lemma sort_by_created_at_reverse_spec (l : list task) :
  Forall (has_str_field "created_at") l ->
  exists sorted,
    sort_by_created_at_reverse l = Ok sorted
    /\ Permutation sorted l /\ StronglySorted newest_first sorted.
Proof.
  intros H. destruct (created_at_keys l H) as [E1 E2].
  unfold sort_by_created_at_reverse. rewrite E1. cbn [rbind].
  destruct l as [|t1 [|t2 r]]; cbn [map].
  - exists []. repeat split; constructor.
  - exists [t1]. repeat split; [reflexivity | repeat constructor].
  - change ((VStr (created_at t1), t1) :: (VStr (created_at t2), t2)
              :: map (fun t => (VStr (created_at t), t)) r)
      with (map (fun t => (VStr (created_at t), t)) (t1 :: t2 :: r)).
    rewrite E2. cbn [rbind].
    set (keyed := map (fun t => (created_at t, t)) (t1 :: t2 :: r)).
    exists (map snd (sort_desc keyed)). split; [reflexivity|]. split.
    + rewrite (Permutation_map snd (sort_desc_perm keyed)).
      unfold keyed. rewrite map_map. cbn [snd]. now rewrite map_id.
    + apply sorted_by_key; [|apply sort_desc_sorted].
      apply (Permutation_Forall (Permutation_sym (sort_desc_perm keyed))).
      unfold keyed. apply Forall_map, Forall_forall. reflexivity.
Qed.

Lemma with_status_filter st (l : list task) :
  Forall (has_field "status") l ->
  with_status st l = Ok (filter (selected (Some st)) l).
Proof.
  induction 1 as [|t r Ht Hr IH]; cbn [with_status filter selected];
    [reflexivity|].
  apply has_field_get in Ht. destruct Ht as [v Hv].
  unfold Dict.getitem. rewrite Hv, IH. reflexivity.
Qed.

Lemma slice_to_firstn {A : Type} limit (l : list A) :
  (0 <= limit)%Z -> slice_to limit l = firstn (Z.to_nat limit) l.
Proof.
  intros H. unfold slice_to. now rewrite (proj2 (Z.leb_le 0 limit) H).
Qed.

(** *** Every store reached from a new one holds records *)

Lemma has_field_set k (t : task) k' v :
  has_field k t -> has_field k (Dict.set t k' v).
Proof.
  rewrite !has_field_get. intros [x Hx].
  destruct (String.eqb_spec k' k) as [->|Hne].
  - exists v. apply DictFacts.get_set_same.
  - exists x. now rewrite DictFacts.get_set_other.
Qed.

Lemma has_field_update k (o : Dict.dict Document.field) :
  forall t : task, has_field k t -> has_field k (Dict.update t o).
Proof.
  unfold Dict.update. induction o as [|[k' v] o IH]; cbn [fold_left]; intros t H;
    [assumption|].
  now apply IH, has_field_set.
Qed.

Lemma update_first_records i st kw l :
  Forall record l ->
  forall ts, update_first i st kw l = Ok ts -> Forall record ts.
Proof.
  induction 1 as [|t r Ht Hr IH]; cbn [update_first]; intros ts H.
  - injection H as <-. constructor.
  - unfold Dict.getitem in H. destruct (Dict.get t "id") as [v|]; [|discriminate].
    cbn [rbind] in H. destruct (value_eqb v (VStr i)).
    + injection H as <-. constructor; [|assumption].
      destruct Ht as (H1 & H2 & H3).
      repeat split; now apply has_field_update, has_field_set.
    + destruct (update_first i st kw r) as [r'|]; [|discriminate].
      injection H as <-. constructor; auto.
Qed.

Lemma exec_holds_records o fs : holds_records fs -> holds_records (exec o fs).
Proof.
  intros (data & Hs & Hr).
  destruct o as [u now a m d r|i st kw|i| |st n];
    try (rewrite exec_reader by exact I; now exists data).
  - cbn [exec]. eexists. split; [apply (add_task_stored _ _ _ _ _ _ _ _ Hs)|].
    cbn [tasks]. apply Forall_app. split; [assumption|].
    repeat constructor.
  - cbn [exec]. destruct (repeats_parameter kw) eqn:Hkw.
    + rewrite update_task_status_refused by assumption. now exists data.
    + rewrite update_task_status_run, Hs by assumption. cbn [rbind].
      destruct (update_first i st kw (tasks data)) as [ts|] eqn:E;
        [|now exists data].
      exists {| tasks := ts |}. cbn [snd tasks]. split.
      * apply stored_saved. apply stored_wf in Hs.
        exact (update_first_wf _ _ _ _ Hs _ E).
      * exact (update_first_records _ _ _ _ Hr _ E).
Qed.

Lemma run_holds_records ops : holds_records (run ops initial).
Proof.
  assert (H : forall fs, holds_records fs -> holds_records (run ops fs)).
  { induction ops as [|o r IH]; cbn [run fold_left]; intros fs Hfs;
      [assumption|].
    now apply IH, exec_holds_records. }
  apply H. exists {| tasks := [] |}. split; [exact initial_stored | constructor].
Qed.

(** *** At the edges *)

(** [TaskQueue ()] creates the file once and never touches an existing one. *)
Lemma init_idempotent fs :
  snd (__init__ (snd (__init__ fs))) = snd (__init__ fs)
  /\ stored (snd (__init__ None)) = Ok {| tasks := [] |}
  /\ (fs <> None -> snd (__init__ fs) = fs).
Proof.
  split; [now destruct fs|]. split; [exact initial_stored|].
  destruct fs; [reflexivity | intros H; now contradiction H].
Qed.

(** Without the file, no method heals the store: they raise. *)
Lemma methods_need_the_file u now a m d r i :
  add_task u now a m d r None = (Raise FileNotFoundError, None)
  /\ get_task i None = (Raise FileNotFoundError, None)
  /\ get_next_queued_task None = (Raise FileNotFoundError, None).
Proof. repeat split. Qed.

(** [get_task] with an id that no record has returns [None]. *)
Lemma find_task_absent i (l : list task) :
  Forall (has_field "id") l -> ~ In (Some (VStr i)) (ids l) ->
  find_task i l = Ok None.
Proof.
  induction 1 as [|t r Ht Hr IH]; cbn [find_task ids map In]; intros Hout;
    [reflexivity|].
  apply has_field_get in Ht. destruct Ht as [v Hv].
  unfold Dict.getitem. rewrite Hv. cbn [rbind].
  destruct (value_eqb v (VStr i)) eqn:E.
  - apply value_eqb_eq in E. subst. tauto.
  - apply IH. tauto.
Qed.

(** Outside the data model: once [update_task_status] has put [None] under
    [created_at], listing two tasks raises. *)
Lemma list_tasks_none_created_at :
  fst (list_tasks None default_limit
         (run [ Sample.add_a; Sample.add_c;
                Call_update_task_status "task-00000005" QUEUED
                                        [("created_at", VNone)] ]
              initial))
  = Raise TypeError.
Proof. vm_compute. reflexivity. Qed.

End QueueFacts.

(* ================================================================== *)
(** ** The task queue: properties *)

Module QueueSpec.

Import Json Document Queue QueueFacts.

(** C1, as the code has it.  From a store with distinct ids, through calls
    where [add_task] draws an id that is not stored yet and
    [update_task_status] gets no [id] keyword, the ids stay distinct and every
    task keeps its id and its place. *)
Theorem ids_unique_and_immutable ops :
  forall fs,
    unique_ids fs -> all_respect_ids ops fs ->
    unique_ids (run ops fs) /\ keeps_ids fs (run ops fs).
Proof.
  induction ops as [|o r IH]; cbn [run fold_left all_respect_ids];
    intros fs Hu Hr.
  - split; [assumption | apply keeps_ids_refl].
  - destruct Hr as [Ho Hr].
    destruct (exec_respects_ids o fs Hu Ho) as [Hu' Hk'].
    destruct (IH _ Hu' Hr) as [Hu'' Hk''].
    split; [assumption|]. exact (keeps_ids_trans _ _ _ Hu' Hk' Hk'').
Qed.

Lemma ids_unique_and_immutable_witness :
  let ops :=
    [ Sample.add_a;
      Call_update_task_status "task-00000005" IN_PROGRESS
                              [("started_at", VStr "2024-01-01T00:00:05")];
      Sample.add_c;
      Call_list_tasks None default_limit ] in
  unique_ids (run ops initial) /\ keeps_ids initial (run ops initial).
Proof.
  apply ids_unique_and_immutable.
  - eexists. split; [vm_compute; reflexivity | constructor].
  - cbn [all_respect_ids respects_ids]. repeat split.
    + intros data H. rewrite initial_stored in H. injection H as <-. cbn. tauto.
    + cbn. intuition discriminate.
    + intros data H. vm_compute in H. injection H as <-. cbn.
      intuition discriminate.
Defined.

(** C1, as stated, fails twice.  Two calls of [add_task] whose UUIDs share
    their first eight digits store the same id twice; and
    [update_task_status] with an [id] keyword changes the id of a task. *)
Lemma ids_not_always_unique_nor_immutable :
  let twice := run [Sample.add_a; Sample.add_b] initial in
  let once := run [Sample.add_a] initial in
  let renamed :=
    exec (Call_update_task_status "task-00000005" COMPLETED
                                  [("id", VStr "task-00000009")]) once in
  (is_uuid4 Sample.uuid_a = true /\ is_uuid4 Sample.uuid_b = true)
  /\ ~ unique_ids twice
  /\ ~ keeps_ids once renamed.
Proof.
  cbv zeta. split; [split; reflexivity|]. split.
  - intros (data & Hs & Hnd).
    vm_compute in Hs. injection Hs as <-. cbn in Hnd.
    inversion Hnd as [|? ? Hin _]. apply Hin. now left.
  - intros H.
    destruct (H {| tasks := [Sample.task_a] |}
                {| tasks := [Dict.set
                               (Dict.set Sample.task_a "status" (VStr "completed"))
                               "id" (VStr "task-00000009")] |})
      as [more E].
    + vm_compute. reflexivity.
    + vm_compute. reflexivity.
    + cbn in E. discriminate.
Qed.

(** C2, as the code has it.  On a stored document whose records have a
    string under [created_at] (and a status, when a filter is given), and
    for a limit that is not negative, [list_tasks] returns the first [limit]
    entries of a list that holds exactly the selected tasks, each as often as
    stored, ordered by [created_at], greatest string first. *)
Theorem list_tasks_filters_sorts_truncates fs data status limit :
  stored fs = Ok data ->
  match status with
  | None => True
  | Some _ => Forall (has_field "status") (tasks data)
  end ->
  Forall (has_str_field "created_at") (tasks data) ->
  (0 <= limit)%Z ->
  exists sorted,
    fst (list_tasks status limit fs) = Ok (firstn (Z.to_nat limit) sorted)
    /\ Permutation sorted (filter (selected status) (tasks data))
    /\ StronglySorted newest_first sorted.
Proof.
  intros Hs Hst Hc Hl. rewrite list_tasks_run, Hs. cbn [fst rbind].
  assert (Hf : match status with
               | Some st => with_status st (tasks data)
               | None => Ok (tasks data)
               end = Ok (filter (selected status) (tasks data))).
  { destruct status as [st|]; [now apply with_status_filter|].
    cbn [selected]. f_equal. clear. induction (tasks data) as [|t r IH];
      cbn [filter]; [reflexivity | now rewrite <- IH]. }
  rewrite Hf. cbn [rbind].
  destruct (sort_by_created_at_reverse_spec
              (filter (selected status) (tasks data)))
    as (sorted & E & Hp & Hsorted).
  { rewrite Forall_forall in *. intros t Ht. apply filter_In in Ht. now apply Hc. }
  exists sorted. rewrite E. cbn [rbind]. rewrite slice_to_firstn by assumption.
  now repeat split.
Qed.

Lemma list_tasks_filters_sorts_truncates_witness :
  exists sorted,
    fst (list_tasks (Some QUEUED) default_limit Sample.two_tasks_file)
    = Ok (firstn (Z.to_nat default_limit) sorted)
    /\ Permutation sorted (filter (selected (Some QUEUED)) (tasks Sample.two_tasks))
    /\ StronglySorted newest_first sorted.
Proof.
  apply (list_tasks_filters_sorts_truncates Sample.two_tasks_file Sample.two_tasks).
  - vm_compute. reflexivity.
  - repeat constructor.
  - repeat constructor; eexists; reflexivity.
  - discriminate.
Defined.

(** C2, as stated, fails on a stored document in which a task holds [None]
    under [created_at].  [update_task_status] puts it there like any other
    extra; the store is still one that holds records with their three
    fields; and [list_tasks], with or without a filter, then returns no list
    but raises [TypeError]. *)
Lemma list_tasks_raises_on_none_created_at :
  let fs :=
    run [ Sample.add_a; Sample.add_c;
          Call_update_task_status "task-00000005" QUEUED
                                  [("created_at", VNone)] ]
        initial in
  holds_records fs
  /\ fst (list_tasks None default_limit fs) = Raise TypeError
  /\ fst (list_tasks (Some QUEUED) 2 fs) = Raise TypeError
  /\ ~ (exists l, fst (list_tasks None default_limit fs) = Ok l).
Proof.
  cbv zeta. split; [apply run_holds_records|].
  split; [vm_compute; reflexivity|].
  split; [vm_compute; reflexivity|].
  intros [l H]. vm_compute in H. discriminate H.
Qed.

(** C3.  On a stored document whose records all have an id, one of them
    [task_id], [update_task_status] returns normally and rewrites the first
    record [t] with that id into [t']: [t'] has the new status and every extra
    field, every other field of [t'] is as in [t], and the records before and
    after it are the same.  Unless the extras rename it, [get_task] then
    returns [t']. *)
Theorem update_task_status_frame fs data task_id status kwargs :
  stored fs = Ok data ->
  Forall (has_field "id") (tasks data) ->
  In (Some (VStr task_id)) (ids (tasks data)) ->
  keywords kwargs ->
  exists (pre : list task) (t : task) (post : list task) (t' : task),
    tasks data = pre ++ t :: post
    /\ Forall (other_id task_id) pre
    /\ Dict.get t "id" = Some (VStr task_id)
    /\ fst (update_task_status task_id status kwargs fs) = Ok tt
    /\ stored (snd (update_task_status task_id status kwargs fs))
       = Ok {| tasks := pre ++ t' :: post |}
    /\ Dict.get t' "status" = Some (VStr (value status))
    /\ (forall k v, In (k, v) kwargs -> Dict.get t' k = Some v)
    /\ (forall k, k <> "status" -> ~ In k (Dict.keys kwargs) ->
                  Dict.get t' k = Dict.get t k)
    /\ (~ In "id" (Dict.keys kwargs) ->
        fst (get_task task_id (snd (update_task_status task_id status kwargs fs)))
        = Ok (Some t')).
Proof.
  intros Hs Hid Hin [Hwf Hkw].
  destruct (first_with_id _ _ Hid Hin) as (pre & t & post & E & Hpre & Ht).
  exists pre, t, post,
    (Dict.update (Dict.set t "status" (VStr (value status))) kwargs).
  rewrite (update_task_status_run _ _ _ _ Hkw), Hs. cbn [rbind].
  rewrite E, (update_first_present _ status kwargs _ _ post Hpre Ht).
  cbn [fst snd].
  set (t' := Dict.update (Dict.set t "status" (VStr (value status))) kwargs).
  assert (Hframe : forall k, k <> "status" -> ~ In k (Dict.keys kwargs) ->
                             Dict.get t' k = Dict.get t k).
  { intros k Hk Hout. unfold t'.
    rewrite DictFacts.get_update_other by assumption.
    apply DictFacts.get_set_other. congruence. }
  assert (Hstored : stored (Some (dumps (json_of_document
                                           {| tasks := pre ++ t' :: post |})))
                    = Ok {| tasks := pre ++ t' :: post |}).
  { apply stored_saved. unfold wf. cbn [tasks].
    apply stored_wf in Hs. unfold wf in Hs. rewrite E in Hs.
    apply Forall_app in Hs. destruct Hs as [H1 H2].
    inversion H2 as [|? ? Ht2 Hpost]; subst.
    apply Forall_app. split; [assumption|]. constructor; [|assumption].
    apply DictFacts.wf_update, DictFacts.wf_set, Ht2. }
  repeat split; try assumption.
  - unfold t'.
    rewrite DictFacts.get_update_other by now apply keywords_not_status.
    apply DictFacts.get_set_same.
  - intros k v Hkv. now apply DictFacts.get_update_in.
  - intros Hout. rewrite get_task_run, Hstored. cbn [fst rbind tasks].
    apply find_task_first; [assumption|].
    rewrite Hframe by (discriminate || assumption). exact Ht.
Qed.

Lemma update_task_status_frame_witness :
  exists (pre : list task) (t : task) (post : list task) (t' : task),
    tasks Sample.two_tasks = pre ++ t :: post
    /\ Forall (other_id "task-00000007") pre
    /\ Dict.get t "id" = Some (VStr "task-00000007")
    /\ fst (update_task_status "task-00000007" COMPLETED [("result", VStr "x")]
              Sample.two_tasks_file) = Ok tt
    /\ stored (snd (update_task_status "task-00000007" COMPLETED
                      [("result", VStr "x")] Sample.two_tasks_file))
       = Ok {| tasks := pre ++ t' :: post |}
    /\ Dict.get t' "status" = Some (VStr (value COMPLETED))
    /\ (forall k v, In (k, v) [("result", VStr "x")] -> Dict.get t' k = Some v)
    /\ (forall k, k <> "status" -> ~ In k (Dict.keys [("result", VStr "x")]) ->
                  Dict.get t' k = Dict.get t k)
    /\ (~ In "id" (Dict.keys [("result", VStr "x")]) ->
        fst (get_task "task-00000007"
               (snd (update_task_status "task-00000007" COMPLETED
                       [("result", VStr "x")] Sample.two_tasks_file)))
        = Ok (Some t')).
Proof.
  apply (update_task_status_frame Sample.two_tasks_file Sample.two_tasks).
  - vm_compute. reflexivity.
  - repeat constructor.
  - cbn. tauto.
  - split; [repeat constructor; cbn; tauto | reflexivity].
Defined.

(** C4.  On a stored document whose records all have an id, none of them
    [task_id], [update_task_status] returns normally and the document read
    back afterwards is the one stored before: nothing created, nothing
    modified. *)
Theorem update_task_status_unknown_id fs data task_id status kwargs :
  stored fs = Ok data ->
  Forall (has_field "id") (tasks data) ->
  ~ In (Some (VStr task_id)) (ids (tasks data)) ->
  keywords kwargs ->
  fst (update_task_status task_id status kwargs fs) = Ok tt
  /\ stored (snd (update_task_status task_id status kwargs fs)) = Ok data.
Proof.
  intros Hs Hid Hout [_ Hkw].
  rewrite (update_task_status_run _ _ _ _ Hkw), Hs. cbn [rbind].
  rewrite (update_first_absent _ _ _ _ Hid Hout). cbn [fst snd].
  split; [reflexivity|].
  destruct data as [ts]. apply stored_saved. now apply stored_wf in Hs.
Qed.

Lemma update_task_status_unknown_id_witness :
  fst (update_task_status "task-ffffffff" FAILED [("error", VStr "boom")]
         Sample.two_tasks_file) = Ok tt
  /\ stored (snd (update_task_status "task-ffffffff" FAILED
                    [("error", VStr "boom")] Sample.two_tasks_file))
     = Ok Sample.two_tasks.
Proof.
  apply (update_task_status_unknown_id Sample.two_tasks_file Sample.two_tasks).
  - vm_compute. reflexivity.
  - repeat constructor.
  - cbn. intuition discriminate.
  - split; [repeat constructor; cbn; tauto | reflexivity].
Defined.

(** C5, as the code has it.  On a stored document whose records all have an
    id, none of them the one [add_task] draws, [get_task] with the returned id
    yields the record just added: status [queued], [created_at] the time of
    the call, and [None] under [started_at], [completed_at], [result] and
    [error]. *)
Theorem get_task_after_add_task u now a m d r fs data :
  stored fs = Ok data ->
  Forall (has_field "id") (tasks data) ->
  ~ In (Some (VStr (task_id_of u))) (ids (tasks data)) ->
  exists t : task,
    fst (add_task u now a m d r fs) = Ok (task_id_of u)
    /\ fst (get_task (task_id_of u) (snd (add_task u now a m d r fs)))
       = Ok (Some t)
    /\ Dict.get t "status" = Some (VStr "queued")
    /\ Dict.get t "created_at" = Some (VStr now)
    /\ Dict.get t "started_at" = Some VNone
    /\ Dict.get t "completed_at" = Some VNone
    /\ Dict.get t "result" = Some VNone
    /\ Dict.get t "error" = Some VNone.
Proof.
  intros Hs Hid Hout.
  exists (new_task (task_id_of u) a m d r now).
  rewrite get_task_run, (add_task_stored _ _ _ _ _ _ _ _ Hs).
  rewrite (add_task_run _ _ _ _ _ _ _ _ Hs). cbn [fst snd rbind tasks].
  rewrite find_task_last by (assumption || reflexivity).
  repeat split.
Qed.

Lemma get_task_after_add_task_witness :
  exists t : task,
    fst (add_task Sample.uuid_b "2024-01-03T12:00:00" "coder" "claude-sonnet"
           "third" "carol" initial) = Ok (task_id_of Sample.uuid_b)
    /\ fst (get_task (task_id_of Sample.uuid_b)
              (snd (add_task Sample.uuid_b "2024-01-03T12:00:00" "coder"
                      "claude-sonnet" "third" "carol" initial)))
       = Ok (Some t)
    /\ Dict.get t "status" = Some (VStr "queued")
    /\ Dict.get t "created_at" = Some (VStr "2024-01-03T12:00:00")
    /\ Dict.get t "started_at" = Some VNone
    /\ Dict.get t "completed_at" = Some VNone
    /\ Dict.get t "result" = Some VNone
    /\ Dict.get t "error" = Some VNone.
Proof.
  apply (get_task_after_add_task Sample.uuid_b "2024-01-03T12:00:00" "coder"
           "claude-sonnet" "third" "carol" initial {| tasks := [] |}).
  - vm_compute. reflexivity.
  - constructor.
  - cbn. tauto.
Defined.

(** C5, as stated, fails when the id that [add_task] draws is already
    stored: [get_task] then returns the older record, here a completed one
    with a result. *)
Lemma get_task_after_add_task_collision :
  let fs :=
    run [ Sample.add_a;
          Call_update_task_status "task-00000005" COMPLETED
                                  [("result", VStr "done")] ]
        initial in
  let call :=
    add_task Sample.uuid_b "2024-01-01T00:00:01" "coder" "claude-sonnet"
             "write tests" "bob" fs in
  is_uuid4 Sample.uuid_b = true
  /\ fst call = Ok "task-00000005"
  /\ exists t : task,
       fst (get_task "task-00000005" (snd call)) = Ok (Some t)
       /\ Dict.get t "status" = Some (VStr "completed")
       /\ Dict.get t "status" <> Some (VStr "queued")
       /\ Dict.get t "result" = Some (VStr "done")
       /\ Dict.get t "result" <> Some VNone.
Proof.
  cbv zeta. split; [reflexivity|]. split; [vm_compute; reflexivity|].
  eexists. split; [vm_compute; reflexivity|].
  repeat split; (reflexivity || discriminate).
Qed.

(** C6.  On a stored document whose records all have a status,
    [get_next_queued_task] leaves the file as it is, and returns either
    nothing, no record being queued (none at all in an empty document), or
    the first queued record in the order of the document, as stored. *)
Theorem get_next_queued_task_first fs data :
  stored fs = Ok data ->
  Forall (has_field "status") (tasks data) ->
  snd (get_next_queued_task fs) = fs
  /\ ((Forall not_queued (tasks data)
       /\ fst (get_next_queued_task fs) = Ok None)
      \/ exists (pre : list task) (t : task) (post : list task),
           tasks data = pre ++ t :: post
           /\ Forall not_queued pre /\ is_queued t
           /\ fst (get_next_queued_task fs) = Ok (Some t)).
Proof.
  intros Hs Hst. rewrite get_next_queued_task_run, Hs. cbn [fst snd rbind].
  split; [reflexivity|]. now apply find_queued_spec.
Qed.

Lemma get_next_queued_task_first_witness :
  snd (get_next_queued_task Sample.two_tasks_file) = Sample.two_tasks_file
  /\ ((Forall not_queued (tasks Sample.two_tasks)
       /\ fst (get_next_queued_task Sample.two_tasks_file) = Ok None)
      \/ exists (pre : list task) (t : task) (post : list task),
           tasks Sample.two_tasks = pre ++ t :: post
           /\ Forall not_queued pre /\ is_queued t
           /\ fst (get_next_queued_task Sample.two_tasks_file) = Ok (Some t)).
Proof.
  apply (get_next_queued_task_first Sample.two_tasks_file Sample.two_tasks).
  - vm_compute. reflexivity.
  - repeat constructor.
Defined.

(** C7.  On a store that can be read, [add_task] returns [task-] followed by
    exactly eight lowercase hexadecimal digits. *)
Theorem add_task_id_format u now a m d r fs data :
  stored fs = Ok data ->
  exists digits,
    fst (add_task u now a m d r fs) = Ok ("task-" ++ digits)%string
    /\ String.length digits = 8
    /\ all_lower_hex digits.
Proof.
  intros Hs. rewrite (add_task_run _ _ _ _ _ _ _ _ Hs). cbn [fst].
  destruct (task_id_of_format u) as (ds & E & Hl & Hh).
  exists ds. now rewrite E.
Qed.

Lemma add_task_id_format_witness :
  exists digits,
    fst (add_task Sample.uuid_c "2024-01-02T09:30:00" "tester" "claude-opus"
           "run the tests" "bob" initial) = Ok ("task-" ++ digits)%string
    /\ String.length digits = 8
    /\ all_lower_hex digits.
Proof.
  apply (add_task_id_format Sample.uuid_c "2024-01-02T09:30:00" "tester"
           "claude-opus" "run the tests" "bob" initial {| tasks := [] |}).
  vm_compute. reflexivity.
Defined.

(** C8.  After any number of calls of [add_task] on the store of a
    [TaskQueue ()], a new [TaskQueue ()] reads back the tasks that were there
    followed by the added ones, in the order of the calls, each with the
    fields [add_task] gave it. *)
Theorem reload_after_add_tasks reqs fs data :
  stored (snd (__init__ fs)) = Ok data ->
  stored (snd (__init__ (run (map add_of reqs) (snd (__init__ fs)))))
  = Ok {| tasks := tasks data ++ map task_of reqs |}.
Proof.
  intros Hs. pose proof (run_adds reqs _ _ Hs) as Hr.
  now rewrite (init_on_stored _ _ Hr).
Qed.

Lemma reload_after_add_tasks_witness :
  let reqs :=
    [ {| uuid := Sample.uuid_a; now := "2024-01-01T00:00:00"; agent_id := "coder";
         model := "claude-sonnet"; task_description := "fix bug #42";
         requested_by := "alice" |};
      {| uuid := Sample.uuid_c; now := "2024-01-02T09:30:00"; agent_id := "tester";
         model := "claude-opus"; task_description := "run the tests";
         requested_by := "bob" |} ] in
  stored (snd (__init__ (run (map add_of reqs) (snd (__init__ None)))))
  = Ok {| tasks := tasks {| tasks := [] |} ++ map task_of reqs |}.
Proof.
  apply reload_after_add_tasks. vm_compute. reflexivity.
Defined.

(** C9.  [get_task], [get_next_queued_task] and [list_tasks] never write: the
    file after the call is the file before it, whatever it holds, and so is
    the stored list of tasks with its order. *)
Theorem readers_do_not_write fs :
  (forall task_id, snd (get_task task_id fs) = fs)
  /\ snd (get_next_queued_task fs) = fs
  /\ (forall status limit, snd (list_tasks status limit fs) = fs).
Proof.
  repeat split; intros.
  - now rewrite get_task_run.
  - now rewrite get_next_queued_task_run.
  - now rewrite list_tasks_run.
Qed.

End QueueSpec.

(* ================================================================== *)
(** ** The registries: properties *)

Module RegistrySpec.

Import Registry.

Lemma append_empty (a : string) : (a ++ EmptyString)%string = a.
Proof. induction a as [|x a IH]; cbn; [reflexivity | now rewrite IH]. Qed.

Lemma occurs_after (p k text : string) : occurs k text -> occurs k (p ++ text).
Proof.
  intros (b & a & ->). exists (p ++ b)%string, a.
  now rewrite QueueFacts.append_assoc.
Qed.

Lemma occurs_join sep k items : In k items -> occurs k (join sep items).
Proof.
  induction items as [|x r IH]; cbn [In join]; [tauto|].
  intros [<-|Hin].
  - destruct r as [|y r].
    + exists EmptyString, EmptyString. cbn. now rewrite append_empty.
    + now exists EmptyString, (sep ++ join sep (y :: r))%string.
  - destruct r as [|y r]; [contradiction|].
    now apply occurs_after, occurs_after, IH.
Qed.

Lemma occurs_in_message (a id b c k : string) keys :
  let msg := ((a ++ id ++ b) ++ (c ++ join separator keys))%string in
  occurs id msg /\ (In k keys -> occurs k msg).
Proof.
  cbv zeta. split.
  - exists a, (b ++ (c ++ join separator keys))%string.
    now rewrite !QueueFacts.append_assoc.
  - intros Hin. apply occurs_after, occurs_after. now apply occurs_join.
Qed.

Section Lookup.

Context {A : Type}.

Lemma lookup_found (d : Dict.dict A) k v :
  Dict.wf d -> In (k, v) d ->
  Dict.contains d k = true /\ Dict.getitem d k = Ok v.
Proof.
  intros Hwf Hin. unfold Dict.contains, Dict.getitem.
  now rewrite (DictFacts.get_in_wf d k v Hwf Hin).
Qed.

Lemma lookup_missing (d : Dict.dict A) k :
  ~ In k (Dict.keys d) -> Dict.contains d k = false.
Proof.
  intros H. unfold Dict.contains.
  now rewrite (proj2 (DictFacts.get_none d k) H).
Qed.

(** C10.  In a registry, a dictionary, [get_agent] returns the record stored
    under the id; under an id that is not a key it raises a [ValueError]
    whose message names the id and lists every key of the registry.
    [get_model] does the same over the model registry. *)
Theorem registry_lookups (agents models : Dict.dict A) (id : string) :
  Dict.wf agents -> Dict.wf models ->
  ((forall a, In (id, a) agents -> get_agent agents id = Ok a)
   /\ (~ In id (Dict.keys agents) ->
       exists msg,
         get_agent agents id = Raise (ValueError msg)
         /\ occurs id msg
         /\ forall k, In k (Dict.keys agents) -> occurs k msg))
  /\ ((forall m, In (id, m) models -> get_model models id = Ok m)
      /\ (~ In id (Dict.keys models) ->
          exists msg,
            get_model models id = Raise (ValueError msg)
            /\ occurs id msg
            /\ forall k, In k (Dict.keys models) -> occurs k msg)).
Proof.
  intros Ha Hm. split; split.
  - intros a Hin. unfold get_agent.
    now destruct (lookup_found agents id a Ha Hin) as [-> ->].
  - intros Hout. unfold get_agent. rewrite (lookup_missing agents id Hout).
    cbv zeta. cbn [negb]. eexists. split; [reflexivity|]. split.
    + exact (proj1 (occurs_in_message "Agent '" id _ _ id (Dict.keys agents))).
    + intros k.
      exact (proj2 (occurs_in_message "Agent '" id _ _ k (Dict.keys agents))).
  - intros m Hin. unfold get_model.
    now destruct (lookup_found models id m Hm Hin) as [-> ->].
  - intros Hout. unfold get_model. rewrite (lookup_missing models id Hout).
    cbv zeta. cbn [negb]. eexists. split; [reflexivity|]. split.
    + exact (proj1 (occurs_in_message "Model '" id _ _ id (Dict.keys models))).
    + intros k.
      exact (proj2 (occurs_in_message "Model '" id _ _ k (Dict.keys models))).
Qed.

End Lookup.

Lemma registry_lookups_witness :
  let agents := [("coder", "Coder"); ("tester", "Tester")] in
  let models := [("claude-sonnet", "balanced"); ("claude-opus", "deep")] in
  ((forall a, In ("planner", a) agents -> get_agent agents "planner" = Ok a)
   /\ (~ In "planner" (Dict.keys agents) ->
       exists msg,
         get_agent agents "planner" = Raise (ValueError msg)
         /\ occurs "planner" msg
         /\ forall k, In k (Dict.keys agents) -> occurs k msg))
  /\ ((forall m, In ("planner", m) models -> get_model models "planner" = Ok m)
      /\ (~ In "planner" (Dict.keys models) ->
          exists msg,
            get_model models "planner" = Raise (ValueError msg)
            /\ occurs "planner" msg
            /\ forall k, In k (Dict.keys models) -> occurs k msg)).
Proof.
  apply (registry_lookups (A := string)).
  - repeat constructor; cbn; intuition discriminate.
  - repeat constructor; cbn; intuition discriminate.
Defined.

End RegistrySpec.

(* ================================================================== *)
(** ** The task queue: further properties *)

Module QueueLaws.

Import Chars Json Document Queue QueueFacts QueueTerms.

(** *** Saving and loading *)

(** X1.  What [_save_queue] writes, [_load_queue] reads back: for every
    document whose records are dictionaries (no key twice), and for every
    document that was itself loaded from a file. *)
Theorem save_then_load data fs0 fs :
  Document.wf data \/ stored fs0 = Ok data ->
  fst (_save_queue data fs) = Ok tt
  /\ _load_queue (snd (_save_queue data fs))
     = (Ok data, snd (_save_queue data fs)).
Proof.
  intros H. split; [reflexivity|].
  rewrite load_queue_stored. f_equal. cbn [snd _save_queue].
  apply stored_saved. destruct H as [H|H]; [assumption|].
  now apply stored_wf in H.
Qed.

Lemma save_then_load_witness :
  fst (_save_queue Sample.two_tasks None) = Ok tt
  /\ _load_queue (snd (_save_queue Sample.two_tasks None))
     = (Ok Sample.two_tasks, snd (_save_queue Sample.two_tasks None)).
Proof.
  apply (save_then_load Sample.two_tasks None None).
  left. repeat constructor; cbn; intuition discriminate.
Defined.

(** X2.  [TaskQueue ()] always succeeds; where there is no file it creates
    one that holds no task; a file that exists is left as it is, even one
    that cannot be read; and a second [TaskQueue ()] changes nothing. *)
Theorem ensure_queue_file_once fs :
  fst (__init__ fs) = Ok tt
  /\ (fs = None -> stored (snd (__init__ fs)) = Ok {| tasks := [] |})
  /\ (forall text, fs = Some text -> snd (__init__ fs) = fs)
  /\ __init__ (snd (__init__ fs)) = (Ok tt, snd (__init__ fs)).
Proof.
  destruct fs as [text|]; cbn [__init__ _ensure_queue_file fst snd].
  - split; [reflexivity|]. split; [discriminate|]. split; reflexivity.
  - split; [reflexivity|]. split; [intros _; exact initial_stored|].
    split; [discriminate | reflexivity].
Qed.

(** X3.  Without the file no method creates it: each one raises
    [FileNotFoundError] and the file is still missing. *)
Theorem methods_do_not_heal u now a m d r i st kw status limit :
  add_task u now a m d r None = (Raise FileNotFoundError, None)
  /\ get_task i None = (Raise FileNotFoundError, None)
  /\ get_next_queued_task None = (Raise FileNotFoundError, None)
  /\ list_tasks status limit None = (Raise FileNotFoundError, None)
  /\ (repeats_parameter kw = false ->
      update_task_status i st kw None = (Raise FileNotFoundError, None)).
Proof.
  repeat split. intros H. unfold update_task_status. now rewrite H.
Qed.

(** X4.  On a stored document whose records all have an id, [get_task] with
    an id that none of them has returns [None], raises nothing and leaves
    the file as it is. *)
Theorem get_task_unknown_id fs data i :
  stored fs = Ok data ->
  Forall (has_field "id") (tasks data) ->
  ~ In (Some (VStr i)) (ids (tasks data)) ->
  get_task i fs = (Ok None, fs).
Proof.
  intros Hs Hid Hout. rewrite get_task_run, Hs. cbn [rbind].
  now rewrite find_task_absent.
Qed.

Lemma get_task_unknown_id_witness :
  get_task "task-ffffffff" Sample.two_tasks_file = (Ok None, Sample.two_tasks_file).
Proof.
  apply (get_task_unknown_id Sample.two_tasks_file Sample.two_tasks).
  - vm_compute. reflexivity.
  - repeat constructor.
  - cbn. intuition discriminate.
Defined.

(** *** Failures *)

Lemma update_first_raises i st kw (l : list task) e :
  update_first i st kw l = Raise e -> e = KeyError "id".
Proof.
  induction l as [|t r IH]; cbn [update_first]; [discriminate|].
  unfold Dict.getitem. destruct (Dict.get t "id") as [v|]; cbn [rbind].
  - destruct (value_eqb v (VStr i)); [discriminate|].
    destruct (update_first i st kw r); cbn [rbind]; [discriminate|].
    intros [= <-]. now apply IH.
  - now intros [= <-].
Qed.

(** X5.  In the data model, where every field and every keyword value is a
    string or [None], the calls that write fail only before they open the
    file for writing.  [add_task] raises exactly what reading the file
    raises.  [update_task_status] raises [TypeError] for a keyword that
    repeats a parameter, what reading the file raises, or [KeyError] from
    the search for the id, and nothing else.  In each of these cases the
    file is as it was.  (A write that itself fails is not in the model: no
    string and no [None] makes [json.dump] raise.) *)
Theorem calls_fail_before_writing fs e :
  (forall u now a m d r,
      (fst (add_task u now a m d r fs) = Raise e <-> stored fs = Raise e)
      /\ (fst (add_task u now a m d r fs) = Raise e ->
          snd (add_task u now a m d r fs) = fs))
  /\ (forall i st kw,
         (fst (update_task_status i st kw fs) = Raise e
          <-> (repeats_parameter kw = true /\ e = TypeError)
              \/ (repeats_parameter kw = false /\ stored fs = Raise e)
              \/ (repeats_parameter kw = false /\ e = KeyError "id"
                  /\ exists data,
                       stored fs = Ok data
                       /\ update_first i st kw (tasks data) = Raise e))
         /\ (fst (update_task_status i st kw fs) = Raise e ->
             snd (update_task_status i st kw fs) = fs)).
Proof.
  split.
  - intros u now a m d r. destruct (stored fs) as [data|e'] eqn:Hs.
    + rewrite (add_task_run u now a m d r fs data Hs). cbn [fst snd].
      split; [split|]; discriminate.
    + rewrite (add_task_raises u now a m d r fs e' Hs). cbn [fst snd].
      split; [split; intros [= <-]; reflexivity | reflexivity].
  - intros i st kw. destruct (repeats_parameter kw) eqn:Hkw.
    + rewrite update_task_status_refused by assumption. cbn [fst snd].
      split; [split|reflexivity].
      * intros [= <-]. now left.
      * intros [[_ ->]|[[H _]|[H _]]]; [reflexivity | discriminate H ..].
    + rewrite update_task_status_run by assumption.
      destruct (stored fs) as [data|e'] eqn:Hs; cbn [rbind].
      * destruct (update_first i st kw (tasks data)) as [ts|e'] eqn:Hu;
          cbn [fst snd].
        -- split; [split|]; try discriminate.
           intros [[H _]|[[_ H]|(_ & _ & data' & H & H')]]; try discriminate.
           injection H as <-. rewrite Hu in H'. discriminate.
        -- split; [split|reflexivity].
           ++ intros [= <-]. right. right.
              split; [reflexivity|].
              split; [now apply (update_first_raises _ _ _ _ _ Hu)|].
              now exists data.
           ++ intros [[H _]|[[_ H]|(_ & _ & data' & H & H')]];
                try discriminate.
              injection H as <-. rewrite Hu in H'. now injection H' as <-.
      * cbn [fst snd]. split; [split|reflexivity].
        -- intros [= <-]. right. left. now split.
        -- intros [[H _]|[[_ H]|(_ & _ & data' & H & _)]]; try discriminate.
           now injection H as <-.
Qed.

Lemma calls_fail_before_writing_witness :
  fst (add_task Sample.uuid_a "2024-01-01T00:00:00" "coder" "claude-sonnet"
                "fix bug #42" "alice" (Some "{"))
  = Raise JSONDecodeError
  /\ snd (add_task Sample.uuid_a "2024-01-01T00:00:00" "coder" "claude-sonnet"
                   "fix bug #42" "alice" (Some "{"))
     = Some "{".
Proof.
  pose (H := proj1 (calls_fail_before_writing (Some "{") JSONDecodeError)
               Sample.uuid_a "2024-01-01T00:00:00" "coder" "claude-sonnet"
               "fix bug #42" "alice").
  assert (E : stored (Some "{") = Raise JSONDecodeError)
    by (vm_compute; reflexivity).
  split.
  - exact (proj2 (proj1 H) E).
  - exact (proj2 H (proj2 (proj1 H) E)).
Defined.

(** X6.  A record without an id that stands before every record with the
    id sought makes [get_task] and [update_task_status] raise [KeyError]; the
    file stays as it is. *)
Theorem missing_id_raises fs data i st kw (pre : list task) (t : task) post :
  stored fs = Ok data ->
  tasks data = pre ++ t :: post ->
  Forall (other_id i) pre ->
  Dict.get t "id" = None ->
  repeats_parameter kw = false ->
  get_task i fs = (Raise (KeyError "id"), fs)
  /\ update_task_status i st kw fs = (Raise (KeyError "id"), fs).
Proof.
  intros Hs E Hpre Ht Hkw.
  rewrite get_task_run, update_task_status_run, Hs by assumption.
  cbn [rbind]. rewrite E. clear E Hs.
  assert (H : find_task i (pre ++ t :: post) = Raise (KeyError "id")
              /\ update_first i st kw (pre ++ t :: post) = Raise (KeyError "id")).
  { induction Hpre as [|p r [v [Hv Hne]] _ [IH1 IH2]];
      cbn [app find_task update_first]; unfold Dict.getitem.
    - now rewrite Ht.
    - rewrite Hv. cbn [rbind].
      rewrite (proj2 (value_eqb_neq _ _) Hne), IH1, IH2. now split. }
  destruct H as [-> ->]. now split.
Qed.

Lemma missing_id_raises_witness :
  let data := {| tasks := [Sample.task_a; [("status", VStr "queued")]; Sample.task_c] |} in
  let fs := Some (dumps (json_of_document data)) in
  get_task "task-00000007" fs = (Raise (KeyError "id"), fs)
  /\ update_task_status "task-00000007" FAILED [("error", VStr "boom")] fs
     = (Raise (KeyError "id"), fs).
Proof.
  cbv zeta.
  apply (missing_id_raises _
           {| tasks := [Sample.task_a; [("status", VStr "queued")]; Sample.task_c] |}
           "task-00000007" FAILED [("error", VStr "boom")]
           [Sample.task_a] [("status", VStr "queued")] [Sample.task_c]).
  - vm_compute. reflexivity.
  - reflexivity.
  - repeat constructor. eexists. split; [reflexivity | discriminate].
  - reflexivity.
  - reflexivity.
Defined.


(** *** Updating twice, and what no call removes *)

Lemma set_same {V : Type} (d : Dict.dict V) k v :
  Dict.get d k = Some v -> Dict.set d k v = d.
Proof.
  induction d as [|[k' v'] r IH]; cbn; [discriminate|].
  destruct (String.eqb k' k); intros H.
  - now injection H as ->.
  - now rewrite IH.
Qed.

Lemma update_same {V : Type} (o : Dict.dict V) :
  forall d : Dict.dict V,
    (forall k v, In (k, v) o -> Dict.get d k = Some v) -> Dict.update d o = d.
Proof.
  unfold Dict.update.
  induction o as [|[k v] o IH]; cbn [fold_left fst snd]; intros d H;
    [reflexivity|].
  rewrite set_same by (apply H; now left).
  apply IH. intros k' v' Hin. apply H. now right.
Qed.

Lemma updated_record_is_fixed st kw (t : task) :
  Dict.wf kw -> repeats_parameter kw = false ->
  let t' := Dict.update (Dict.set t "status" (VStr (value st))) kw in
  Dict.update (Dict.set t' "status" (VStr (value st))) kw = t'.
Proof.
  intros Hwf Hkw t'.
  assert (Hst : Dict.get t' "status" = Some (VStr (value st))).
  { unfold t'. rewrite DictFacts.get_update_other
      by now apply keywords_not_status.
    apply DictFacts.get_set_same. }
  rewrite (set_same t' _ _ Hst).
  apply update_same. intros k v Hin. unfold t'.
  now apply DictFacts.get_update_in.
Qed.

Lemma update_first_again i st kw :
  Dict.wf kw -> repeats_parameter kw = false -> ~ In "id" (Dict.keys kw) ->
  forall l ts,
    update_first i st kw l = Ok ts -> update_first i st kw ts = Ok ts.
Proof.
  intros Hwf Hkw Hid.
  induction l as [|t r IH]; cbn [update_first]; intros ts H.
  - now injection H as <-.
  - unfold Dict.getitem in H.
    destruct (Dict.get t "id") as [v|] eqn:Hv; [|discriminate].
    cbn [rbind] in H. destruct (value_eqb v (VStr i)) eqn:E.
    + injection H as <-. cbn [update_first]. unfold Dict.getitem.
      rewrite DictFacts.get_update_other by assumption.
      rewrite DictFacts.get_set_other by discriminate.
      rewrite Hv. cbn [rbind]. rewrite E.
      now rewrite (updated_record_is_fixed st kw t Hwf Hkw).
    + destruct (update_first i st kw r) as [r'|] eqn:Er; [|discriminate].
      injection H as <-. cbn [update_first]. unfold Dict.getitem.
      rewrite Hv. cbn [rbind]. rewrite E. now rewrite (IH r' eq_refl).
Qed.

(** X7.  [update_task_status] can be repeated: with extras that do not name
    [id], the same call made twice leaves the file exactly as the first
    call left it, whatever the file held. *)
Theorem update_task_status_twice fs i st kw :
  Dict.wf kw -> ~ In "id" (Dict.keys kw) ->
  snd (update_task_status i st kw (snd (update_task_status i st kw fs)))
  = snd (update_task_status i st kw fs).
Proof.
  intros Hwf Hid. destruct (repeats_parameter kw) eqn:Hkw.
  - now rewrite !update_task_status_refused.
  - rewrite (update_task_status_run i st kw fs Hkw).
    destruct (stored fs) as [data|] eqn:Hs; cbn [rbind].
    + destruct (update_first i st kw (tasks data)) as [ts|] eqn:E; cbn [snd].
      * rewrite update_task_status_run by assumption.
        rewrite stored_saved
          by (apply stored_wf in Hs; exact (update_first_wf _ _ _ _ Hs _ E)).
        cbn [rbind tasks].
        now rewrite (update_first_again i st kw Hwf Hkw Hid _ _ E).
      * rewrite update_task_status_run, Hs by assumption. cbn [rbind].
        now rewrite E.
    + cbn [snd]. rewrite update_task_status_run, Hs by assumption.
      reflexivity.
Qed.

Lemma update_task_status_twice_witness :
  let call := update_task_status "task-00000005" COMPLETED [("result", VStr "x")] in
  snd (call (snd (call Sample.two_tasks_file))) = snd (call Sample.two_tasks_file).
Proof.
  apply update_task_status_twice.
  - repeat constructor. cbn. tauto.
  - cbn. intuition discriminate.
Defined.

Lemma keeps_fields_refl (t : task) : keeps_fields t t.
Proof. intros k H. exact H. Qed.

Lemma Forall2_keeps_fields_refl (l : list task) : Forall2 keeps_fields l l.
Proof. induction l; constructor; auto using keeps_fields_refl. Qed.

Lemma keys_set_incl {V : Type} (d : Dict.dict V) k v k' :
  In k' (Dict.keys d) -> In k' (Dict.keys (Dict.set d k v)).
Proof.
  unfold Dict.keys. induction d as [|[k0 v0] r IH]; cbn; [tauto|].
  destruct (String.eqb k0 k); cbn; tauto.
Qed.

Lemma keys_update_incl {V : Type} (o : Dict.dict V) :
  forall (d : Dict.dict V) k',
    In k' (Dict.keys d) -> In k' (Dict.keys (Dict.update d o)).
Proof.
  unfold Dict.update. induction o as [|[k v] o IH]; cbn [fold_left]; intros d k' H;
    [assumption|].
  now apply IH, keys_set_incl.
Qed.

Lemma update_first_keeps i st kw :
  forall l ts, update_first i st kw l = Ok ts -> Forall2 keeps_fields l ts.
Proof.
  induction l as [|t r IH]; cbn [update_first]; intros ts H.
  - injection H as <-. constructor.
  - unfold Dict.getitem in H. destruct (Dict.get t "id") as [v|]; [|discriminate].
    cbn [rbind] in H. destruct (value_eqb v (VStr i)).
    + injection H as <-. constructor; [|apply Forall2_keeps_fields_refl].
      intros k Hk. now apply keys_update_incl, keys_set_incl.
    + destruct (update_first i st kw r) as [r'|]; [|discriminate].
      injection H as <-. constructor; [apply keeps_fields_refl | now apply IH].
Qed.

Lemma grows_refl data : grows data data.
Proof.
  exists (tasks data), []. split; [now rewrite app_nil_r|].
  apply Forall2_keeps_fields_refl.
Qed.

Lemma Forall2_keeps_fields_trans (a b c : list task) :
  Forall2 keeps_fields a b -> Forall2 keeps_fields b c -> Forall2 keeps_fields a c.
Proof.
  intros H. revert c. induction H as [|x y xs ys Hxy _ IH]; intros c Hc;
    inversion Hc; subst; constructor; auto.
  intros k Hk. auto.
Qed.

Lemma grows_trans a b c : grows a b -> grows b c -> grows a c.
Proof.
  intros (k1 & m1 & E1 & F1) (k2 & m2 & E2 & F2).
  rewrite E1 in F2. apply Forall2_app_inv_l in F2.
  destruct F2 as (k2a & k2b & Fa & Fb & ->).
  exists k2a, (k2b ++ m2). split; [now rewrite E2, app_assoc|].
  exact (Forall2_keeps_fields_trans _ _ _ F1 Fa).
Qed.

Lemma exec_grows o fs data :
  stored fs = Ok data ->
  exists data', stored (exec o fs) = Ok data' /\ grows data data'.
Proof.
  intros Hs.
  destruct o as [u now a m d r|i st kw|i| |st n];
    try (rewrite exec_reader by exact I; exists data; split;
         [assumption | apply grows_refl]).
  - cbn [exec]. eexists. split; [apply (add_task_stored _ _ _ _ _ _ _ _ Hs)|].
    eexists (tasks data), _. split; [reflexivity|].
    apply Forall2_keeps_fields_refl.
  - cbn [exec]. destruct (repeats_parameter kw) eqn:Hkw.
    + rewrite update_task_status_refused by assumption.
      exists data. split; [assumption | apply grows_refl].
    + rewrite update_task_status_run, Hs by assumption. cbn [rbind].
      destruct (update_first i st kw (tasks data)) as [ts|] eqn:E.
      * exists {| tasks := ts |}. cbn [snd]. split.
        -- apply stored_saved. apply stored_wf in Hs.
           exact (update_first_wf _ _ _ _ Hs _ E).
        -- exists ts, []. split; [now rewrite app_nil_r|].
           exact (update_first_keeps _ _ _ _ _ E).
      * exists data. split; [assumption | apply grows_refl].
Qed.

(** X8.  Nothing is ever removed: through any sequence of calls on a store
    that can be read, the store stays readable, every record stays in its
    place with at least the fields it had, and new records come after the
    old ones. *)
Theorem nothing_is_removed ops :
  forall fs data,
    stored fs = Ok data ->
    exists data', stored (run ops fs) = Ok data' /\ grows data data'.
Proof.
  induction ops as [|o r IH]; cbn [run fold_left]; intros fs data Hs.
  - exists data. split; [assumption | apply grows_refl].
  - destruct (exec_grows o fs data Hs) as (d1 & Hs1 & G1).
    destruct (IH _ _ Hs1) as (d2 & Hs2 & G2).
    exists d2. split; [assumption | exact (grows_trans _ _ _ G1 G2)].
Qed.

Lemma nothing_is_removed_witness :
  let ops :=
    [ Call_update_task_status "task-00000007" FAILED [("error", VStr "boom")];
      Sample.add_b;
      Call_update_task_status "task-00000005" COMPLETED [("id", VStr "renamed")] ] in
  exists data',
    stored (run ops Sample.two_tasks_file) = Ok data'
    /\ grows Sample.two_tasks data'.
Proof.
  apply nothing_is_removed. vm_compute. reflexivity.
Defined.


(** *** Listing *)

Lemma list_tasks_sorted_selection fs data status limit :
  stored fs = Ok data ->
  match status with
  | None => True
  | Some _ => Forall (has_field "status") (tasks data)
  end ->
  fst (list_tasks status limit fs)
  = (ts <- sort_by_created_at_reverse (filter (selected status) (tasks data)) ;;
     Ok (slice_to limit ts))%result.
Proof.
  intros Hs Hst. rewrite list_tasks_run, Hs. cbn [fst rbind].
  destruct status as [st|].
  - now rewrite with_status_filter.
  - assert (E : filter (selected None) (tasks data) = tasks data).
    { induction (tasks data) as [|t r IH]; cbn [filter selected];
        [reflexivity | now f_equal]. }
    now rewrite E.
Qed.

Lemma length_slice_to {A : Type} limit (l : list A) :
  List.length (slice_to limit l) = slice_length limit (List.length l).
Proof.
  unfold slice_to, slice_length. destruct (0 <=? limit)%Z eqn:E.
  - apply length_firstn.
  - rewrite length_firstn. apply Z.leb_gt in E. lia.
Qed.

(** X9.  How many tasks [list_tasks] returns, on a stored document whose
    selected records have a string under [created_at]: with [n] selected, a
    limit that is not negative gives [min (limit, n)], and a negative one
    gives all but the last [- limit] of the sorted list, [n + limit] if that
    is positive and none otherwise. *)
Theorem list_tasks_count fs data status limit :
  stored fs = Ok data ->
  match status with
  | None => True
  | Some _ => Forall (has_field "status") (tasks data)
  end ->
  Forall (has_str_field "created_at") (tasks data) ->
  exists l,
    fst (list_tasks status limit fs) = Ok l
    /\ List.length l
       = slice_length limit
           (List.length (filter (selected status) (tasks data))).
Proof.
  intros Hs Hst Hc.
  rewrite (list_tasks_sorted_selection fs data status limit Hs Hst).
  destruct (sort_by_created_at_reverse_spec
              (filter (selected status) (tasks data)))
    as (sorted & E & Hp & _).
  { rewrite Forall_forall in *. intros t Ht. apply filter_In in Ht. now apply Hc. }
  rewrite E. cbn [rbind]. eexists. split; [reflexivity|].
  now rewrite length_slice_to, (Permutation_length Hp).
Qed.

Lemma list_tasks_count_witness :
  exists l,
    fst (list_tasks None (-1) Sample.two_tasks_file) = Ok l
    /\ List.length l
       = slice_length (-1)
           (List.length (filter (selected None) (tasks Sample.two_tasks))).
Proof.
  apply (list_tasks_count Sample.two_tasks_file Sample.two_tasks).
  - vm_compute. reflexivity.
  - exact I.
  - repeat constructor; eexists; reflexivity.
Defined.

Lemma filter_insert_desc s x (l : list (string * task)) :
  filter (fun p => String.eqb (fst p) s) (insert_desc x l)
  = filter (fun p => String.eqb (fst p) s) (x :: l).
Proof.
  induction l as [|y r IH]; cbn [insert_desc]; [reflexivity|].
  destruct (String.ltb (fst x) (fst y)) eqn:E; [|reflexivity].
  cbn [filter] in *. rewrite IH.
  destruct (String.eqb_spec (fst x) s) as [Hx|Hx];
    destruct (String.eqb_spec (fst y) s) as [Hy|Hy]; try reflexivity.
  exfalso. rewrite Hx, Hy in E. unfold String.ltb in E.
  now rewrite compare_refl in E.
Qed.

Lemma filter_sort_desc s (l : list (string * task)) :
  filter (fun p => String.eqb (fst p) s) (sort_desc l)
  = filter (fun p => String.eqb (fst p) s) l.
Proof.
  induction l as [|x r IH]; cbn [sort_desc fold_right]; [reflexivity|].
  fold (sort_desc r). rewrite filter_insert_desc. cbn [filter].
  now rewrite IH.
Qed.

Lemma sort_is_stable s (l : list task) :
  Forall (has_str_field "created_at") l ->
  forall sorted,
    sort_by_created_at_reverse l = Ok sorted ->
    filter (created_at_is s) sorted = filter (created_at_is s) l.
Proof.
  intros H sorted. destruct (created_at_keys l H) as [E1 E2].
  unfold sort_by_created_at_reverse. rewrite E1. cbn [rbind].
  destruct l as [|t1 [|t2 r]]; cbn [map].
  - now intros [= <-].
  - now intros [= <-].
  - change ((VStr (created_at t1), t1) :: (VStr (created_at t2), t2)
              :: map (fun t => (VStr (created_at t), t)) r)
      with (map (fun t => (VStr (created_at t), t)) (t1 :: t2 :: r)).
    rewrite E2. cbn [rbind]. intros [= <-].
    set (l := t1 :: t2 :: r).
    set (keyed := map (fun t => (created_at t, t)) l).
    assert (Hk : forall m : list (string * task),
               Forall (fun p => fst p = created_at (snd p)) m ->
               filter (created_at_is s) (map snd m)
               = map snd (filter (fun p => String.eqb (fst p) s) m)).
    { induction 1 as [|p m Hp _ IH]; cbn [map filter]; [reflexivity|].
      unfold created_at_is at 1. rewrite <- Hp.
      destruct (String.eqb (fst p) s); cbn [map]; now rewrite IH. }
    rewrite Hk.
    + transitivity (map snd (filter (fun p => String.eqb (fst p) s) keyed));
        [f_equal; exact (filter_sort_desc s keyed)|].
      rewrite <- Hk.
      * unfold keyed. rewrite map_map. cbn [snd]. now rewrite map_id.
      * unfold keyed. apply Forall_map, Forall_forall. reflexivity.
    + apply (Permutation_Forall (Permutation_sym (sort_desc_perm keyed))).
      unfold keyed. apply Forall_map, Forall_forall. reflexivity.
Qed.

(** X10.  The sort of [list_tasks] is stable: when the limit does not cut the
    list, the tasks that share a [created_at] come out in the order in which
    the document holds them. *)
Theorem list_tasks_keeps_order_of_ties fs data status limit s :
  stored fs = Ok data ->
  match status with
  | None => True
  | Some _ => Forall (has_field "status") (tasks data)
  end ->
  Forall (has_str_field "created_at") (tasks data) ->
  (Z.of_nat (List.length (tasks data)) <= limit)%Z ->
  exists l,
    fst (list_tasks status limit fs) = Ok l
    /\ filter (created_at_is s) l
       = filter (created_at_is s) (filter (selected status) (tasks data)).
Proof.
  intros Hs Hst Hc Hl.
  rewrite (list_tasks_sorted_selection fs data status limit Hs Hst).
  assert (Hsel : Forall (has_str_field "created_at")
                   (filter (selected status) (tasks data))).
  { rewrite Forall_forall in *. intros t Ht. apply filter_In in Ht. now apply Hc. }
  destruct (sort_by_created_at_reverse_spec _ Hsel) as (sorted & E & Hp & _).
  rewrite E. cbn [rbind]. eexists. split; [reflexivity|].
  rewrite slice_to_firstn by lia.
  rewrite firstn_all2.
  - exact (sort_is_stable s _ Hsel _ E).
  - rewrite (Permutation_length Hp).
    pose proof (filter_length_le (selected status) (tasks data)). lia.
Qed.

Lemma list_tasks_keeps_order_of_ties_witness :
  let same_time :=
    run [ Sample.add_a;
          Call_add_task Sample.uuid_c "2024-01-01T00:00:00" "tester"
                        "claude-opus" "second" "bob" ] initial in
  let data :=
    {| tasks := [ Sample.task_a;
                  new_task "task-00000007" "tester" "claude-opus" "second" "bob"
                           "2024-01-01T00:00:00" ] |} in
  exists l,
    fst (list_tasks None default_limit same_time) = Ok l
    /\ filter (created_at_is "2024-01-01T00:00:00") l
       = filter (created_at_is "2024-01-01T00:00:00")
           (filter (selected None) (tasks data)).
Proof.
  cbv zeta. apply list_tasks_keeps_order_of_ties.
  - vm_compute. reflexivity.
  - exact I.
  - repeat constructor; eexists; reflexivity.
  - vm_compute. discriminate.
Defined.

Lemma mapM_str_key_none (l : list (Document.field * task)) :
  Exists (fun kt => fst kt = VNone) l -> mapM str_key l = Raise TypeError.
Proof.
  induction l as [|[k t] r IH]; intros H; inversion H as [? ? Hk|? ? Hr]; subst;
    cbn [mapM].
  - cbn [fst] in Hk. subst. reflexivity.
  - destruct k as [|s]; [reflexivity|]. unfold str_key at 1. cbn [fst snd rbind].
    now rewrite IH.
Qed.

Lemma created_at_keys_exist (l : list task) :
  Forall (has_field "created_at") l ->
  exists keyed,
    mapM created_at_key l = Ok keyed
    /\ Forall2 (fun t kt => Dict.get t "created_at" = Some (fst kt)) l keyed.
Proof.
  induction 1 as [|t r Ht _ (k & Ek & Hk)].
  - exists []. split; [reflexivity | constructor].
  - apply has_field_get in Ht. destruct Ht as [v Hv].
    exists ((v, t) :: k). cbn [mapM]. unfold created_at_key at 1, Dict.getitem.
    rewrite Hv. cbn [rbind]. rewrite Ek. split; [reflexivity|].
    now constructor.
Qed.

(** X11.  [None] under [created_at] breaks the listing, but only from two
    selected tasks on: on a stored document whose selected records all have
    a [created_at] field, one of them holding [None], [list_tasks] raises
    [TypeError] when two or more are selected and returns the single one
    when only one is (for a limit of one or more). *)
Theorem list_tasks_none_created_at_raises fs data status limit :
  stored fs = Ok data ->
  match status with
  | None => True
  | Some _ => Forall (has_field "status") (tasks data)
  end ->
  Forall (has_field "created_at") (filter (selected status) (tasks data)) ->
  Exists (fun t => Dict.get t "created_at" = Some VNone)
         (filter (selected status) (tasks data)) ->
  (1 <= limit)%Z ->
  match filter (selected status) (tasks data) with
  | [] => False
  | [t] => fst (list_tasks status limit fs) = Ok [t]
  | _ :: _ :: _ => fst (list_tasks status limit fs) = Raise TypeError
  end.
Proof.
  intros Hs Hst Hc Hex Hl.
  rewrite (list_tasks_sorted_selection fs data status limit Hs Hst).
  set (sel := filter (selected status) (tasks data)) in *.
  destruct (created_at_keys_exist sel Hc) as (keyed & Ek & Hkeys).
  assert (El : List.length keyed = List.length sel)
    by (symmetry; exact (Forall2_length Hkeys)).
  assert (Hnone : Exists (fun kt => fst kt = VNone) keyed).
  { clear - Hkeys Hex. induction Hkeys as [|t kt r kr Hk _ IH].
    - inversion Hex.
    - inversion Hex as [? ? H0|? ? H0]; subst; [left | right; auto].
      rewrite H0 in Hk. now injection Hk as <-. }
  unfold sort_by_created_at_reverse. rewrite Ek. cbn [rbind].
  destruct sel as [|t1 [|t2 r]]; destruct keyed as [|k1 [|k2 kr]];
    try discriminate El.
  - inversion Hex.
  - cbn [rbind]. rewrite slice_to_firstn by lia.
    destruct (Z.to_nat limit) as [|[|n]] eqn:En; [lia | reflexivity | reflexivity].
  - now rewrite (mapM_str_key_none _ Hnone).
Qed.

Lemma list_tasks_none_created_at_raises_witness :
  let fs :=
    run [ Sample.add_a; Sample.add_c;
          Call_update_task_status "task-00000005" QUEUED [("created_at", VNone)] ]
        initial in
  let data :=
    {| tasks := [ Dict.set Sample.task_a "created_at" VNone; Sample.task_c ] |} in
  match filter (selected None) (tasks data) with
  | [] => False
  | [t] => fst (list_tasks None default_limit fs) = Ok [t]
  | _ :: _ :: _ => fst (list_tasks None default_limit fs) = Raise TypeError
  end.
Proof.
  cbv zeta.
  apply (list_tasks_none_created_at_raises _
           {| tasks := [ Dict.set Sample.task_a "created_at" VNone; Sample.task_c ] |}).
  - vm_compute. reflexivity.
  - exact I.
  - repeat constructor.
  - left. reflexivity.
  - discriminate.
Defined.


(** *** Handing tasks out *)

Lemma find_queued_app (pre post : list task) :
  Forall not_queued pre -> find_queued (pre ++ post) = find_queued post.
Proof.
  induction 1 as [|p r [v [Hv Hne]] _ IH]; cbn [app find_queued]; [reflexivity|].
  unfold Dict.getitem. rewrite Hv. cbn [rbind].
  now rewrite (proj2 (value_eqb_neq _ _) Hne).
Qed.

Lemma value_is_not_queued st : st <> QUEUED -> VStr (value st) <> VStr (value QUEUED).
Proof. destruct st; intros H E; try discriminate E. now apply H. Qed.

(** X12.  A worker that takes the task [get_next_queued_task] returns and
    records another status for it under its id is handed, at its next call,
    the first queued record that comes after that task in the document.  The
    task's id must not be the id of a record before it. *)
Theorem worker_moves_on fs data (pre : list task) (t : task) post i st kw :
  stored fs = Ok data ->
  tasks data = pre ++ t :: post ->
  Forall not_queued pre -> is_queued t ->
  Forall (other_id i) pre -> Dict.get t "id" = Some (VStr i) ->
  st <> QUEUED -> keywords kw ->
  fst (get_next_queued_task fs) = Ok (Some t)
  /\ fst (get_next_queued_task (snd (update_task_status i st kw fs)))
     = find_queued post.
Proof.
  intros Hs E Hpre Hq Hids Hid Hst [Hwf Hkw].
  rewrite !get_next_queued_task_run, Hs. cbn [fst rbind]. split.
  - rewrite E, find_queued_app by assumption. cbn [find_queued].
    unfold Dict.getitem. rewrite Hq. cbn [rbind].
    now rewrite (proj2 (value_eqb_eq _ _) eq_refl).
  - rewrite (update_task_status_run _ _ _ _ Hkw), Hs. cbn [rbind].
    rewrite E, (update_first_present _ st kw _ _ post Hids Hid). cbn [snd].
    rewrite stored_saved.
    + cbn [rbind tasks]. rewrite find_queued_app by assumption.
      cbn [find_queued]. unfold Dict.getitem.
      rewrite DictFacts.get_update_other by now apply keywords_not_status.
      rewrite DictFacts.get_set_same. cbn [rbind].
      now rewrite (proj2 (value_eqb_neq _ _) (value_is_not_queued st Hst)).
    + apply stored_wf in Hs. unfold wf in *. cbn [tasks]. rewrite E in Hs.
      apply Forall_app in Hs. destruct Hs as [H1 H2].
      inversion H2 as [|? ? Ht2 Hpost]; subst.
      apply Forall_app. split; [assumption|]. constructor; [|assumption].
      apply DictFacts.wf_update, DictFacts.wf_set, Ht2.
Qed.

Lemma worker_moves_on_witness :
  fst (get_next_queued_task Sample.two_tasks_file) = Ok (Some Sample.task_a)
  /\ fst (get_next_queued_task
            (snd (update_task_status "task-00000005" IN_PROGRESS
                    [("started_at", VStr "2024-01-01T00:00:05")]
                    Sample.two_tasks_file)))
     = find_queued [Sample.task_c].
Proof.
  apply (worker_moves_on Sample.two_tasks_file Sample.two_tasks
           [] Sample.task_a [Sample.task_c]).
  - vm_compute. reflexivity.
  - reflexivity.
  - constructor.
  - reflexivity.
  - constructor.
  - reflexivity.
  - discriminate.
  - split; [repeat constructor; cbn; tauto | reflexivity].
Defined.

(** X13.  [add_task] joins the end of the queue: on a stored document whose
    records all have a status, [get_next_queued_task] after [add_task]
    returns the task it returned before, and the new task only when none
    was queued. *)
Theorem add_task_joins_the_end fs data u now a m d r :
  stored fs = Ok data ->
  Forall (has_field "status") (tasks data) ->
  fst (get_next_queued_task (snd (add_task u now a m d r fs)))
  = match fst (get_next_queued_task fs) with
    | Ok (Some t) => Ok (Some t)
    | _ => Ok (Some (new_task (task_id_of u) a m d r now))
    end.
Proof.
  intros Hs Hst.
  rewrite !get_next_queued_task_run, (add_task_stored _ _ _ _ _ _ _ _ Hs), Hs.
  cbn [fst rbind tasks].
  induction Hst as [|t l Ht _ IH]; cbn [app find_queued]; [reflexivity|].
  apply has_field_get in Ht. destruct Ht as [v Hv].
  unfold Dict.getitem. rewrite Hv. cbn [rbind].
  now destruct (value_eqb v (VStr (value QUEUED))).
Qed.

Lemma add_task_joins_the_end_witness :
  fst (get_next_queued_task
         (snd (add_task Sample.uuid_b "2024-01-03T12:00:00" "coder"
                 "claude-sonnet" "third" "carol" Sample.two_tasks_file)))
  = match fst (get_next_queued_task Sample.two_tasks_file) with
    | Ok (Some t) => Ok (Some t)
    | _ => Ok (Some (new_task (task_id_of Sample.uuid_b) "coder" "claude-sonnet"
                       "third" "carol" "2024-01-03T12:00:00"))
    end.
Proof.
  apply (add_task_joins_the_end Sample.two_tasks_file Sample.two_tasks).
  - vm_compute. reflexivity.
  - repeat constructor.
Defined.

(** *** When two ids are the same *)

Lemma hex_fixed_cont width :
  forall n k, hex_fixed width n k = (hex_fixed width n EmptyString ++ k)%string.
Proof.
  induction width as [|w IH]; cbn [hex_fixed]; intros n k; [reflexivity|].
  rewrite (IH _ (String (hex_digit n) k)), (IH _ (String (hex_digit n) EmptyString)).
  now rewrite append_assoc.
Qed.

Lemma length_hex_fixed width :
  forall n, String.length (hex_fixed width n EmptyString) = width.
Proof.
  induction width as [|w IH]; cbn [hex_fixed]; intros n; [reflexivity|].
  rewrite hex_fixed_cont, length_append, IH. cbn. lia.
Qed.

Lemma hex_fixed_split a b :
  forall n,
    hex_fixed (a + b) n EmptyString
    = (hex_fixed a (n / 16 ^ N.of_nat b) EmptyString
         ++ hex_fixed b n EmptyString)%string.
Proof.
  induction b as [|b IH]; intros n.
  - rewrite Nat.add_0_r. cbn [hex_fixed N.of_nat]. rewrite N.pow_0_r, N.div_1_r.
    clear. induction (hex_fixed a n EmptyString) as [|c s IHs]; cbn;
      [reflexivity | now rewrite <- IHs].
  - rewrite Nat.add_succ_r. cbn [hex_fixed].
    rewrite (hex_fixed_cont (a + b)), (hex_fixed_cont b), IH, append_assoc.
    rewrite N.Div0.div_div. do 3 f_equal.
    rewrite Nat2N.inj_succ, N.pow_succ_r'. reflexivity.
Qed.

Lemma substring_front (x y : string) :
  substring 0 (String.length x) (x ++ y) = x.
Proof.
  induction x as [|c x IH]; cbn.
  - now destruct y.
  - now rewrite IH.
Qed.

Lemma task_id_digits u :
  task_id_of u = ("task-" ++ hex_fixed 8 (u / 16 ^ 24) EmptyString)%string.
Proof.
  unfold task_id_of, uuid_hex. f_equal.
  change 32 with (8 + 24). rewrite (hex_fixed_split 8 24 u).
  rewrite <- (length_hex_fixed 8 (u / 16 ^ N.of_nat 24)) at 1.
  apply substring_front.
Qed.

Lemma hex_value_hex_digit n : hex_value (hex_digit n) = Some (n mod 16)%N.
Proof.
  unfold hex_value, hex_digit.
  pose proof (N.mod_upper_bound n 16 ltac:(discriminate)) as Hd.
  set (d := N.modulo n 16) in *.
  destruct (N.ltb_spec d 10).
  - rewrite N_ascii_embedding by lia.
    rewrite (proj2 (N.leb_le 48 (48 + d)) ltac:(lia)).
    rewrite (proj2 (N.leb_le (48 + d) 57) ltac:(lia)). cbn [andb].
    f_equal. lia.
  - rewrite N_ascii_embedding by lia.
    rewrite (proj2 (N.leb_gt (87 + d) 57) ltac:(lia)).
    rewrite andb_false_r.
    rewrite (proj2 (N.leb_le 97 (87 + d)) ltac:(lia)).
    rewrite (proj2 (N.leb_le (87 + d) 102) ltac:(lia)). cbn [andb].
    f_equal. lia.
Qed.

Lemma append_inj (a a' b b' : string) :
  String.length a = String.length a' ->
  (a ++ b = a' ++ b')%string -> a = a' /\ b = b'.
Proof.
  revert a'. induction a as [|c a IH]; intros [|c' a'] Hl E;
    try discriminate Hl.
  - now split.
  - cbn in E, Hl. injection E as -> E. destruct (IH a' ltac:(lia) E) as [-> ->].
    now split.
Qed.

Lemma hex_fixed_same width :
  forall n m,
    hex_fixed width n EmptyString = hex_fixed width m EmptyString
    <-> (n mod 16 ^ N.of_nat width = m mod 16 ^ N.of_nat width)%N.
Proof.
  induction width as [|w IH]; intros n m.
  - cbn [hex_fixed N.of_nat]. rewrite N.pow_0_r, !N.mod_1_r. tauto.
  - cbn [hex_fixed].
    rewrite (hex_fixed_cont w (n / 16)), (hex_fixed_cont w (m / 16)).
    rewrite Nat2N.inj_succ, N.pow_succ_r', !N.Div0.mod_mul_r.
    pose proof (N.mod_upper_bound n 16 ltac:(discriminate)).
    pose proof (N.mod_upper_bound m 16 ltac:(discriminate)).
    specialize (IH (n / 16) (m / 16))%N.
    set (a := (n mod 16)%N) in *. set (a' := (m mod 16)%N) in *.
    set (b := ((n / 16) mod 16 ^ N.of_nat w)%N) in *.
    set (b' := ((m / 16) mod 16 ^ N.of_nat w)%N) in *.
    split.
    + intros E. apply append_inj in E; [|now rewrite !length_hex_fixed].
      destruct E as [E1 E2]. apply IH in E1. injection E2 as E2.
      apply (f_equal hex_value) in E2. rewrite !hex_value_hex_digit in E2.
      injection E2 as E2. fold a a' in E2. now rewrite E1, E2.
    + intros E.
      assert (E2 : a = a') by (clearbody a a' b b'; lia).
      assert (E1 : b = b') by (clearbody a a' b b'; lia).
      apply IH in E1. rewrite E1. unfold hex_digit. fold a a'. now rewrite E2.
Qed.

(** X14.  Two UUIDs give the same task id exactly when they agree on their
    first 32 bits. *)
Theorem task_ids_collide (u u' : N) :
  (u < 2 ^ 128)%N -> (u' < 2 ^ 128)%N ->
  task_id_of u = task_id_of u' <-> (u / 2 ^ 96 = u' / 2 ^ 96)%N.
Proof.
  intros Hu Hu'. rewrite !task_id_digits.
  change (16 ^ 24)%N with (2 ^ 96)%N.
  assert (Hsmall : forall x, (x < 2 ^ 128 -> (x / 2 ^ 96) mod 16 ^ N.of_nat 8
                                            = x / 2 ^ 96)%N).
  { intros x Hx. apply N.mod_small. apply N.Div0.div_lt_upper_bound.
    exact Hx. }
  transitivity (hex_fixed 8 (u / 2 ^ 96) EmptyString
                = hex_fixed 8 (u' / 2 ^ 96) EmptyString).
  - split; intros E; [|now rewrite E].
    apply append_inj in E; [exact (proj2 E) | reflexivity].
  - rewrite hex_fixed_same, (Hsmall u Hu), (Hsmall u' Hu'). reflexivity.
Qed.

Lemma task_ids_collide_witness :
  task_id_of Sample.uuid_a = task_id_of Sample.uuid_b
  <-> (Sample.uuid_a / 2 ^ 96 = Sample.uuid_b / 2 ^ 96)%N.
Proof.
  apply task_ids_collide; reflexivity.
Defined.

End QueueLaws.

(* ================================================================== *)
(** ** Facts about the methods of [str] *)

Module TextFacts.

Import Text.

Lemma split_nonempty sep s : exists h t, split sep s = h :: t.
Proof.
  induction s as [|c r IH]; cbn; [now eexists; eexists|].
  destruct (Ascii.eqb c sep); [now eexists; eexists|].
  destruct IH as (h & t & ->). now eexists; eexists.
Qed.

Lemma split_app sep (a b : string) :
  split sep (a ++ String sep b)%string = split sep a ++ split sep b.
Proof.
  induction a as [|c r IH]; cbn.
  - now rewrite Ascii.eqb_refl.
  - destruct (Ascii.eqb c sep); rewrite IH; [reflexivity|].
    destruct (split_nonempty sep r) as (h & t & ->). reflexivity.
Qed.

Lemma split_plain sep s :
  all_chars (fun c => negb (Ascii.eqb c sep)) s = true -> split sep s = [s].
Proof.
  induction s as [|c r IH]; cbn; [reflexivity|].
  intros H. apply andb_true_iff in H as [Hc Hr].
  apply negb_true_iff in Hc. rewrite Hc, (IH Hr). reflexivity.
Qed.

Lemma lstrip_spec chars s :
  exists l, s = (l ++ lstrip chars s)%string
            /\ all_chars chars l = true
            /\ forall c, first_char (lstrip chars s) = Some c -> chars c = false.
Proof.
  induction s as [|c r (l & E & Hl & Hf)]; cbn.
  - exists EmptyString. repeat split. discriminate.
  - destruct (chars c) eqn:Hc.
    + exists (String c l). cbn. rewrite Hl, Hc. repeat split; [|assumption].
      now f_equal.
    + exists EmptyString. repeat split. cbn. intros c' [= <-]. assumption.
Qed.

Lemma rstrip_spec chars s :
  exists r, s = (rstrip chars s ++ r)%string
            /\ all_chars chars r = true
            /\ forall c, last_char (rstrip chars s) = Some c -> chars c = false.
Proof.
  induction s as [|c s (r & E & Hr & Hf)]; cbn.
  - exists EmptyString. repeat split. discriminate.
  - destruct (rstrip chars s) as [|c' s'] eqn:Es.
    + destruct (chars c) eqn:Hc.
      * exists (String c r). cbn in *. rewrite Hc, Hr. repeat split; [|discriminate].
        now f_equal.
      * exists r. cbn in *. repeat split; [now f_equal | assumption |].
        intros c0 [= <-]. assumption.
    + exists r. repeat split; [cbn; now f_equal | assumption | exact Hf].
Qed.

Lemma rstrip_first chars s c :
  (forall c', first_char s = Some c' -> chars c' = false) ->
  first_char (rstrip chars s) = Some c -> chars c = false.
Proof.
  destruct s as [|c0 s]; cbn; [discriminate|].
  intros H. destruct (rstrip chars s).
  - destruct (chars c0) eqn:Hc; cbn; [discriminate|].
    intros [= <-]. assumption.
  - cbn. intros [= <-]. now apply H.
Qed.

(** [strip] removes characters of [chars] from both ends, and nothing else. *)
Lemma strip_spec chars s :
  exists l r,
    s = (l ++ strip chars s ++ r)%string
    /\ all_chars chars l = true /\ all_chars chars r = true
    /\ (forall c, first_char (strip chars s) = Some c -> chars c = false)
    /\ (forall c, last_char (strip chars s) = Some c -> chars c = false).
Proof.
  unfold strip.
  destruct (lstrip_spec chars s) as (l & El & Hl & Hfl).
  destruct (rstrip_spec chars (lstrip chars s)) as (r & Er & Hr & Hfr).
  exists l, r. repeat split; try assumption.
  - now rewrite <- Er.
  - intros c. now apply rstrip_first.
Qed.

Lemma str_of_int_nonempty z : str_of_int z <> EmptyString.
Proof.
  unfold str_of_int. destruct z as [|p|p]; cbn; try discriminate.
  pose proof (DecimalPos.Unsigned.to_uint_nonnil p) as H.
  destruct (Pos.to_uint p); cbn; congruence.
Qed.

End TextFacts.

(* ================================================================== *)
(** ** The configuration *)

Module ConfigLaws.

Import Text TextFacts Config.

Lemma walk_app k1 : forall k2 v,
  walk (k1 ++ k2) v
  = match walk k1 v with
    | Some w => walk k2 w
    | None => None
    end.
Proof.
  induction k1 as [|k r IH]; cbn; intros k2 v; [reflexivity|].
  destruct v; try reflexivity. apply IH.
Qed.

Lemma walk_in_none keys : keys <> [] -> walk keys PNone = None.
Proof. destruct keys; [congruence | reflexivity]. Qed.

Lemma get_none_config key default : get PNone key default = default.
Proof.
  unfold get. destruct (split_nonempty "." key) as (h & t & ->). reflexivity.
Qed.

(** X15.  Dot notation.  [a.b] is [b] looked up in what [a] gives; and a key
    without a dot is looked up in the top dictionary, the default standing
    in for a missing key, for [None] (and for nothing else: an empty string,
    zero and [False] are returned) and for a configuration that is not a
    dictionary. *)
Theorem get_dotted config (a b : string) default :
  get config (a ++ "." ++ b)%string default
  = get (get config a PNone) b default
  /\ (all_chars (fun c => negb (Ascii.eqb c ".")) a = true ->
      get config a default
      = match config with
        | PDict d =>
            match Dict.get d a with
            | None | Some PNone => default
            | Some v => v
            end
        | _ => default
        end).
Proof.
  split.
  - unfold get at 1. cbn [append]. rewrite split_app, walk_app.
    unfold get at 2.
    destruct (walk (split "." a) config) as [w|].
    + destruct w; reflexivity.
    + now rewrite get_none_config.
  - intros H. unfold get. rewrite (split_plain _ _ H). cbn.
    destruct config; try reflexivity.
    destruct (Dict.get d a) as [v|]; reflexivity.
Qed.

Lemma get_dotted_witness :
  get ConfigSample.loaded "formatting.emojis.done" PNone
  = get (get ConfigSample.loaded "formatting.emojis" PNone) "done" PNone
  /\ get ConfigSample.loaded "discord" (PStr "x")
     = PDict [("channel_id", PInt 42); ("guild", PStr "")].
Proof.
  split.
  - exact (proj1 (get_dotted ConfigSample.loaded "formatting.emojis" "done" PNone)).
  - exact (proj2 (get_dotted ConfigSample.loaded "discord" "" (PStr "x")) eq_refl).
Defined.

(** *** The environment *)

Lemma is_set_true v : is_set v = true <-> exists s, v = Some s /\ s <> EmptyString.
Proof.
  destruct v as [s|]; cbn.
  - destruct (String.eqb_spec s EmptyString); cbn; split.
    + discriminate.
    + intros (s' & [= <-] & H). contradiction.
    + intros _. now exists s.
    + reflexivity.
  - split; [discriminate | intros (s & H & _); discriminate].
Qed.

Lemma setitem2_ok config section key v c' :
  setitem2 config section key v = Ok c' ->
  exists d inner,
    config = PDict d /\ Dict.get d section = Some (PDict inner)
    /\ c' = PDict (Dict.set d section (PDict (Dict.set inner key v))).
Proof.
  unfold setitem2. destruct config; try discriminate.
  destruct (Dict.get d section) as [[]|] eqn:E; try discriminate.
  intros [= <-]. do 2 eexists. repeat split. exact E.
Qed.

Lemma walk_setitem2_same config section key v c' rest :
  setitem2 config section key v = Ok c' ->
  walk (section :: key :: rest) c' = walk rest v.
Proof.
  intros H. apply setitem2_ok in H as (d & inner & -> & E & ->).
  cbn. now rewrite !DictFacts.get_set_same.
Qed.

Lemma walk_setitem2_other config section key v c' s k rest :
  setitem2 config section key v = Ok c' ->
  [s; k] <> [section; key] ->
  walk (s :: k :: rest) c' = walk (s :: k :: rest) config.
Proof.
  intros H Hne. apply setitem2_ok in H as (d & inner & -> & E & ->).
  cbn. destruct (String.eqb_spec section s) as [<-|Hs].
  - rewrite DictFacts.get_set_same, E.
    rewrite DictFacts.get_set_other; [reflexivity|]. congruence.
  - now rewrite DictFacts.get_set_other.
Qed.

Lemma sections_setitem2 config section key v c' :
  setitem2 config section key v = Ok c' -> sections c' = sections config.
Proof.
  intros H. apply setitem2_ok in H as (d & inner & -> & E & ->).
  cbn. apply DictFacts.keys_set_in. eapply DictFacts.get_in_keys, E.
Qed.

(** The method, case by case. *)
Lemma apply_env_overrides_cases config env :
  _apply_env_overrides config env
  = if is_set (getenv env "DISCORD_BOT_TOKEN") then
      (c1 <- setitem2 config "discord" "bot_token"
               (PStr (strip is_quote
                        (value_of (getenv env "DISCORD_BOT_TOKEN")))) ;;
       c2 <- (if is_set (getenv env "DISCORD_CHANNEL_ID") then
                setitem2 c1 "discord" "channel_id"
                  (PStr (value_of (getenv env "DISCORD_CHANNEL_ID")))
              else Ok c1) ;;
       if is_set (getenv env "AGENT_NAME") then
         setitem2 c2 "agent" "name" (PStr (value_of (getenv env "AGENT_NAME")))
       else Ok c2)%result
    else Raise (ValueError token_message).
Proof.
  unfold _apply_env_overrides, value_of.
  destruct (is_set (getenv env "DISCORD_BOT_TOKEN")); reflexivity.
Qed.

(** What a successful run went through. *)
Lemma apply_env_overrides_ok config env c' :
  _apply_env_overrides config env = Ok c' ->
  exists c1 c2,
    is_set (getenv env "DISCORD_BOT_TOKEN") = true
    /\ setitem2 config "discord" "bot_token"
         (PStr (strip is_quote (value_of (getenv env "DISCORD_BOT_TOKEN"))))
       = Ok c1
    /\ (if is_set (getenv env "DISCORD_CHANNEL_ID") then
          setitem2 c1 "discord" "channel_id"
            (PStr (value_of (getenv env "DISCORD_CHANNEL_ID")))
        else Ok c1) = Ok c2
    /\ (if is_set (getenv env "AGENT_NAME") then
          setitem2 c2 "agent" "name" (PStr (value_of (getenv env "AGENT_NAME")))
        else Ok c2) = Ok c'.
Proof.
  rewrite apply_env_overrides_cases.
  destruct (is_set (getenv env "DISCORD_BOT_TOKEN")); [|discriminate].
  destruct (setitem2 config _ _ _) as [c1|] eqn:E1; [|discriminate].
  cbn [rbind].
  destruct (if is_set (getenv env "DISCORD_CHANNEL_ID") then _ else _)
    as [c2|] eqn:E2; [|discriminate].
  cbn [rbind]. intros E3. now exists c1, c2.
Qed.

(** X16.  The token.  Without [DISCORD_BOT_TOKEN], or with an empty one, the
    method raises [ValueError] whatever the configuration holds; and when
    it succeeds, [bot_token] is the variable's value without the quotes
    around it: single and double quotes are taken from both ends, none from
    the middle, and what is left neither starts nor ends with one. *)
Theorem bot_token_from_environment config env :
  (is_set (getenv env "DISCORD_BOT_TOKEN") = false ->
   _apply_env_overrides config env = Raise (ValueError token_message))
  /\ (forall config',
         _apply_env_overrides config env = Ok config' ->
         exists value token l r,
           getenv env "DISCORD_BOT_TOKEN" = Some value
           /\ value <> EmptyString
           /\ bot_token config' = PStr token
           /\ value = (l ++ token ++ r)%string
           /\ all_chars is_quote l = true /\ all_chars is_quote r = true
           /\ (forall c, first_char token = Some c -> is_quote c = false)
           /\ (forall c, last_char token = Some c -> is_quote c = false)).
Proof.
  split.
  - intros H. rewrite apply_env_overrides_cases, H. reflexivity.
  - intros c' H.
    apply apply_env_overrides_ok in H as (c1 & c2 & Ht & E1 & E2 & E3).
    apply is_set_true in Ht as (value & Ev & Hne).
    rewrite Ev in E1. cbn [value_of] in E1.
    destruct (strip_spec is_quote value) as (l & r & Es & Hl & Hr & Hf & Hla).
    exists value, (strip is_quote value), l, r.
    repeat split; try assumption.
    assert (W : walk ["discord"; "bot_token"] c'
                = Some (PStr (strip is_quote value))).
    { transitivity (walk ["discord"; "bot_token"] c2).
      - destruct (is_set (getenv env "AGENT_NAME")).
        + apply (walk_setitem2_other _ _ _ _ _ _ _ [] E3). discriminate.
        + now injection E3 as <-.
      - transitivity (walk ["discord"; "bot_token"] c1).
        + destruct (is_set (getenv env "DISCORD_CHANNEL_ID")).
          * apply (walk_setitem2_other _ _ _ _ _ _ _ [] E2). discriminate.
          * now injection E2 as <-.
        + apply (walk_setitem2_same _ _ _ _ _ [] E1). }
    unfold bot_token, get.
    change (split "." "discord.bot_token") with ["discord"; "bot_token"].
    now rewrite W.
Qed.

Lemma bot_token_from_environment_witness :
  exists config',
    _apply_env_overrides ConfigSample.loaded ConfigSample.env = Ok config'
    /\ exists value token l r,
        getenv ConfigSample.env "DISCORD_BOT_TOKEN" = Some value
        /\ value <> EmptyString
        /\ bot_token config' = PStr token
        /\ value = (l ++ token ++ r)%string
        /\ all_chars is_quote l = true /\ all_chars is_quote r = true
        /\ (forall c, first_char token = Some c -> is_quote c = false)
        /\ (forall c, last_char token = Some c -> is_quote c = false).
Proof.
  eexists. split; [vm_compute; reflexivity|].
  apply (proj2 (bot_token_from_environment ConfigSample.loaded
                                           ConfigSample.env)).
  vm_compute. reflexivity.
Defined.

Lemma walk_setitem2_diverge config section key v c' p :
  setitem2 config section key v = Ok c' ->
  diverge p [section; key] = true ->
  walk p c' = walk p config.
Proof.
  intros H Hd. destruct p as [|a [|b p]]; cbn in Hd; try discriminate.
  - revert Hd. destruct (String.eqb_spec a section) as [->|Hne];
      [intros [=] | intros _].
    apply setitem2_ok in H as (d & inner & -> & E & ->). cbn.
    rewrite DictFacts.get_set_other; [reflexivity|]. congruence.
  - apply (walk_setitem2_other _ _ _ _ _ _ _ _ H).
    revert Hd. destruct (String.eqb_spec a section) as [->|Hne]; [|congruence].
    destruct (String.eqb_spec b key) as [->|Hne]; [|congruence].
    destruct p; intros [=].
Qed.

Lemma walk_untouched config env config' p :
  _apply_env_overrides config env = Ok config' ->
  untouched p = true ->
  walk p config' = walk p config.
Proof.
  intros H Hu.
  apply apply_env_overrides_ok in H as (c1 & c2 & _ & E1 & E2 & E3).
  unfold untouched, overridden in Hu. cbn [forallb] in Hu.
  apply andb_true_iff in Hu as [H1 Hu].
  apply andb_true_iff in Hu as [H2 Hu].
  apply andb_true_iff in Hu as [H3 _].
  transitivity (walk p c2).
  { destruct (is_set (getenv env "AGENT_NAME")).
    - apply (walk_setitem2_diverge _ _ _ _ _ _ E3 H3).
    - now injection E3 as <-. }
  transitivity (walk p c1).
  { destruct (is_set (getenv env "DISCORD_CHANNEL_ID")).
    - apply (walk_setitem2_diverge _ _ _ _ _ _ E2 H2).
    - now injection E2 as <-. }
  apply (walk_setitem2_diverge _ _ _ _ _ _ E1 H1).
Qed.

(** X17.  The three overrides touch nothing else.  After a successful run the
    configuration has the sections it had, in the same order, and [get]
    answers as before for every key whose path parts ways with
    [discord.bot_token], [discord.channel_id] and [agent.name]. *)
Theorem env_overrides_frame config env config' key default :
  _apply_env_overrides config env = Ok config' ->
  untouched (split "." key) = true ->
  sections config' = sections config
  /\ get config' key default = get config key default.
Proof.
  intros H Hu. split.
  - apply apply_env_overrides_ok in H as (c1 & c2 & _ & E1 & E2 & E3).
    transitivity (sections c2).
    { destruct (is_set (getenv env "AGENT_NAME")).
      - apply (sections_setitem2 _ _ _ _ _ E3).
      - now injection E3 as <-. }
    transitivity (sections c1).
    { destruct (is_set (getenv env "DISCORD_CHANNEL_ID")).
      - apply (sections_setitem2 _ _ _ _ _ E2).
      - now injection E2 as <-. }
    apply (sections_setitem2 _ _ _ _ _ E1).
  - unfold get. now rewrite (walk_untouched _ _ _ _ H Hu).
Qed.

Lemma env_overrides_frame_witness :
  exists config',
    _apply_env_overrides ConfigSample.loaded ConfigSample.env = Ok config'
    /\ sections config' = ["discord"; "agent"; "formatting"]
    /\ get config' "discord.guild" PNone = PStr EmptyString.
Proof.
  eexists. split; [vm_compute; reflexivity|].
  exact (env_overrides_frame ConfigSample.loaded ConfigSample.env _
           "discord.guild" PNone eq_refl eq_refl).
Defined.

(** X18.  The environment wins, and only when it speaks.  After a successful
    run, [channel_id] is [DISCORD_CHANNEL_ID] when that variable is set and
    not empty, and what the file gave otherwise; likewise [agent_name] and
    [AGENT_NAME]. *)
Theorem environment_wins config env config' :
  _apply_env_overrides config env = Ok config' ->
  (if is_set (getenv env "DISCORD_CHANNEL_ID") then
     channel_id config' = Ok (value_of (getenv env "DISCORD_CHANNEL_ID"))
   else channel_id config' = channel_id config)
  /\ (if is_set (getenv env "AGENT_NAME") then
        agent_name config'
        = PStr (value_of (getenv env "AGENT_NAME"))
      else agent_name config' = agent_name config).
Proof.
  intros H. split.
  - destruct (is_set (getenv env "DISCORD_CHANNEL_ID")) eqn:Hc.
    + pose proof H as H'.
      apply apply_env_overrides_ok in H' as (c1 & c2 & _ & E1 & E2 & E3).
      rewrite Hc in E2.
      assert (W : walk ["discord"; "channel_id"] config'
                  = Some (PStr (value_of (getenv env "DISCORD_CHANNEL_ID")))).
      { transitivity (walk ["discord"; "channel_id"] c2).
        - destruct (is_set (getenv env "AGENT_NAME")).
          + apply (walk_setitem2_other _ _ _ _ _ _ _ [] E3). discriminate.
          + now injection E3 as <-.
        - apply (walk_setitem2_same _ _ _ _ _ [] E2). }
      apply is_set_true in Hc as (ch & Ec & Hne). rewrite Ec in *.
      cbn [value_of] in *.
      unfold channel_id, get.
      change (split "." "discord.channel_id") with ["discord"; "channel_id"].
      rewrite W. cbn.
      destruct (String.eqb_spec ch EmptyString); [contradiction | reflexivity].
    + apply apply_env_overrides_ok in H as (c1 & c2 & _ & E1 & E2 & E3).
      rewrite Hc in E2. injection E2 as <-.
      assert (W : walk ["discord"; "channel_id"] config'
                  = walk ["discord"; "channel_id"] config).
      { transitivity (walk ["discord"; "channel_id"] c1).
        - destruct (is_set (getenv env "AGENT_NAME")).
          + apply (walk_setitem2_other _ _ _ _ _ _ _ [] E3). discriminate.
          + now injection E3 as <-.
        - apply (walk_setitem2_other _ _ _ _ _ _ _ [] E1). discriminate. }
      unfold channel_id, get.
      change (split "." "discord.channel_id") with ["discord"; "channel_id"].
      now rewrite W.
  - destruct (is_set (getenv env "AGENT_NAME")) eqn:Ha.
    + apply apply_env_overrides_ok in H as (c1 & c2 & _ & E1 & E2 & E3).
      rewrite Ha in E3.
      unfold agent_name, get.
      change (split "." "agent.name") with ["agent"; "name"].
      now rewrite (walk_setitem2_same _ _ _ _ _ [] E3).
    + apply apply_env_overrides_ok in H as (c1 & c2 & _ & E1 & E2 & E3).
      rewrite Ha in E3. injection E3 as <-.
      assert (W : walk ["agent"; "name"] c2 = walk ["agent"; "name"] config).
      { transitivity (walk ["agent"; "name"] c1).
        - destruct (is_set (getenv env "DISCORD_CHANNEL_ID")).
          + apply (walk_setitem2_other _ _ _ _ _ _ _ [] E2). discriminate.
          + now injection E2 as <-.
        - apply (walk_setitem2_other _ _ _ _ _ _ _ [] E1). discriminate. }
      unfold agent_name, get.
      change (split "." "agent.name") with ["agent"; "name"].
      now rewrite W.
Qed.

Lemma environment_wins_witness :
  exists config',
    _apply_env_overrides ConfigSample.loaded ConfigSample.env = Ok config'
    /\ channel_id config' = Ok "42"
    /\ agent_name config' = PStr "builder".
Proof.
  eexists. split; [vm_compute; reflexivity|].
  exact (environment_wins ConfigSample.loaded ConfigSample.env _ eq_refl).
Defined.

(** X19.  No section is created.  With the token set, a configuration that has no
    [discord] section makes the method raise [KeyError]; so does, with
    [AGENT_NAME] set, one that has a [discord] section and no [agent]
    section; and an empty YAML file, which loads as [None], makes it raise
    [TypeError]. *)
Theorem sections_are_not_created config env :
  is_set (getenv env "DISCORD_BOT_TOKEN") = true ->
  (config = PNone -> _apply_env_overrides config env = Raise TypeError)
  /\ (forall d,
         config = PDict d -> Dict.get d "discord" = None ->
         _apply_env_overrides config env = Raise (KeyError "discord"))
  /\ (forall d inner,
         config = PDict d -> Dict.get d "discord" = Some (PDict inner) ->
         Dict.get d "agent" = None ->
         is_set (getenv env "AGENT_NAME") = true ->
         _apply_env_overrides config env = Raise (KeyError "agent")).
Proof.
  intros Ht. rewrite apply_env_overrides_cases, Ht. repeat split.
  - now intros ->.
  - intros d -> E. cbn. now rewrite E.
  - intros d inner -> E Ea Hn. rewrite Hn. cbn. rewrite E. cbn.
    rewrite !DictFacts.get_set_same.
    destruct (is_set (getenv env "DISCORD_CHANNEL_ID")); cbn.
    + rewrite !DictFacts.get_set_other by discriminate. now rewrite Ea.
    + rewrite !DictFacts.get_set_other by discriminate. now rewrite Ea.
Qed.

Lemma sections_are_not_created_witness :
  _apply_env_overrides PNone ConfigSample.env = Raise TypeError
  /\ _apply_env_overrides (PDict [("agent", PDict [])]) ConfigSample.env
     = Raise (KeyError "discord")
  /\ _apply_env_overrides (PDict [("discord", PDict [])]) ConfigSample.env
     = Raise (KeyError "agent").
Proof.
  split; [|split].
  - exact (proj1 (sections_are_not_created PNone ConfigSample.env eq_refl)
             eq_refl).
  - exact (proj1 (proj2 (sections_are_not_created
                           (PDict [("agent", PDict [])]) ConfigSample.env
                           eq_refl))
             _ eq_refl eq_refl).
  - exact (proj2 (proj2 (sections_are_not_created
                           (PDict [("discord", PDict [])]) ConfigSample.env
                           eq_refl))
             _ _ eq_refl eq_refl eq_refl eq_refl).
Defined.

(** X20.  [channel_id] gives no empty answer: it raises [ValueError] exactly when
    the configured value is missing, [None] or otherwise false (an empty
    string, zero), and a string it returns is never empty. *)
Theorem channel_id_is_never_empty config :
  (truthy (get config "discord.channel_id" PNone) = false
   <-> channel_id config = Raise (ValueError channel_message))
  /\ (forall s, channel_id config = Ok s -> s <> EmptyString).
Proof.
  unfold channel_id.
  destruct (get config "discord.channel_id" PNone) as [|[]|z|s|[|x l]|[|x d]];
    cbn [truthy];
    try destruct (Z.eqb_spec z 0) as [->|Hz];
    try destruct (String.eqb_spec s EmptyString) as [->|Hs];
    cbn [negb str];
    (split; [split; intros H; solve [reflexivity | discriminate H]
            | intros s' H; try discriminate H]).
  - injection H as <-. discriminate.
  - injection H as <-. apply str_of_int_nonempty.
  - now injection H as <-.
Qed.

End ConfigLaws.

(* ================================================================== *)
(** ** The slash commands *)

Module BotLaws.

Import Chars Json Document Queue QueueFacts QueueTerms Bot.

Local Open Scope queue_scope.

Lemma init_returns fs : __init__ fs = (Ok tt, snd (__init__ fs)).
Proof. destruct fs; reflexivity. Qed.

Lemma init_stored_twice fs data :
  stored (snd (__init__ fs)) = Ok data ->
  __init__ (snd (__init__ fs)) = (Ok tt, snd (__init__ fs)).
Proof. apply init_on_stored. Qed.

Section Launch.

Context {ModelEntry : Type}.

Variable agents : Dict.dict agent_entry.
Variable models : Dict.dict ModelEntry.

Lemma accepts_true agent model :
  accepts agents models agent model = true ->
  exists agent_config,
    Registry.get_agent agents agent = Ok agent_config
    /\ (exists model_config, Registry.get_model models model = Ok model_config)
    /\ existsb (String.eqb model) (supported_models agent_config) = true.
Proof.
  unfold accepts, Registry.get_agent, Registry.get_model, Dict.contains,
    Dict.getitem.
  destruct (Dict.get agents agent) as [agent_config|]; [|intros [=]].
  destruct (Dict.get models model) as [model_config|]; [|intros [=]].
  cbn. intros H. exists agent_config. repeat split; [|exact H].
  now exists model_config.
Qed.

(** X21.  A launch that is refused leaves the queue alone.  When the agent is not
    registered, or the model is not, or the agent does not list the model,
    [cmd_launch] answers with a message that starts with the cross and does
    not touch the file: a file that is missing is not even created. *)
Theorem refused_launch_writes_nothing u now user agent model task fs :
  accepts agents models agent model = false ->
  exists text,
    cmd_launch agents models u now user agent model task fs
    = (Ok (Message (cross ++ " " ++ text)%string), fs).
Proof.
  unfold accepts, cmd_launch, Registry.get_agent, Registry.get_model,
    Dict.contains, Dict.getitem.
  destruct (Dict.get agents agent) as [agent_config|]; cbn.
  - destruct (Dict.get models model) as [model_config|]; cbn.
    + intros ->. cbn.
      exists (("Model '" ++ model ++ "' not supported by agent '" ++ agent
                 ++ "'" ++ Registry.nl)
                ++ "Supported: "
                ++ Registry.join ", " (supported_models agent_config))%string.
      reflexivity.
    + intros _. eexists. reflexivity.
  - intros _. eexists. reflexivity.
Qed.

(** X22.  A launch that is let through queues one task.  On a store that can be
    read, and where there is no file yet, [cmd_launch] answers with the
    card of the new task and the store holds the tasks it held, then the
    new one: queued, with the agent's id, the model, the description and
    the user's name. *)
Theorem accepted_launch_queues_one_task u now user agent model task fs data :
  accepts agents models agent model = true ->
  stored (snd (__init__ fs)) = Ok data ->
  exists agent_config,
    Dict.get agents agent = Some agent_config
    /\ fst (cmd_launch agents models u now user agent model task fs)
       = Ok (Embed (queued_card (task_id_of u) (agent_name agent_config)
                                model task))
    /\ stored (snd (cmd_launch agents models u now user agent model task fs))
       = Ok {| tasks := tasks data
                 ++ [new_task (task_id_of u) agent model task user now] |}.
Proof.
  intros Ha Hs. revert Ha. unfold accepts, cmd_launch.
  unfold Registry.get_agent, Registry.get_model, Dict.contains, Dict.getitem.
  destruct (Dict.get agents agent) as [agent_config|]; [|intros [=]].
  destruct (Dict.get models model) as [model_config|]; [|intros [=]].
  cbn. intros Ha. rewrite Ha. cbn [negb].
  exists agent_config. split; [reflexivity|].
  unfold bind. rewrite init_returns.
  rewrite (add_task_run u now agent model task user _ data Hs).
  cbn [fst snd ret]. split; [reflexivity|].
  apply stored_saved. unfold Document.wf. cbn [tasks].
  apply Forall_app. split.
  - exact (stored_wf _ _ Hs).
  - constructor; [apply wf_new_task | constructor].
Qed.

(** X23.  What [/launch] queues, [/taskstatus] shows.  After a launch that is let
    through, with an id that no stored task has, [cmd_task_status] on the
    returned id answers with the card of that task: the hourglass, the
    status in capitals, the agent's id, the model, the description and the
    time of creation, and none of the four optional fields; the file is as
    the launch left it. *)
Theorem launch_then_status u now user agent model task fs data :
  accepts agents models agent model = true ->
  stored (snd (__init__ fs)) = Ok data ->
  Forall (has_field "id") (tasks data) ->
  ~ In (Some (VStr (task_id_of u))) (ids (tasks data)) ->
  cmd_task_status (task_id_of u)
    (snd (cmd_launch agents models u now user agent model task fs))
  = (Ok (Embed
           {| title := (hourglass ++ " Task: " ++ task_id_of u)%string;
              color := blurple;
              fields :=
                [ {| name := "Status"; value := VStr "QUEUED"; inline := true |};
                  {| name := "Agent"; value := VStr agent; inline := true |};
                  {| name := "Model"; value := VStr model; inline := true |};
                  {| name := "Task"; value := VStr task; inline := false |};
                  {| name := "Created"; value := VStr now; inline := true |} ]
           |}),
     snd (cmd_launch agents models u now user agent model task fs)).
Proof.
  intros Ha Hs Hid Hfresh.
  assert (Hl : stored (snd (cmd_launch agents models u now user agent model
                                       task fs))
               = Ok {| tasks := tasks data
                         ++ [new_task (task_id_of u) agent model task user now]
                    |}).
  { revert Ha. unfold accepts, cmd_launch.
    unfold Registry.get_agent, Registry.get_model, Dict.contains, Dict.getitem.
    destruct (Dict.get agents agent) as [agent_config|]; [|intros [=]].
    destruct (Dict.get models model) as [model_config|]; [|intros [=]].
    cbn. intros Ha. rewrite Ha. cbn [negb].
    unfold bind. rewrite init_returns.
    rewrite (add_task_run u now agent model task user _ data Hs).
    cbn [fst snd ret].
    apply stored_saved. unfold Document.wf. cbn [tasks].
    apply Forall_app. split.
    - exact (stored_wf _ _ Hs).
    - constructor; [apply wf_new_task | constructor]. }
  set (fs' := snd (cmd_launch agents models u now user agent model task fs))
    in *.
  unfold cmd_task_status, bind.
  rewrite (init_on_stored _ _ Hl), get_task_run, Hl. cbn [rbind tasks].
  rewrite (find_task_last _ _ _ Hid Hfresh) by reflexivity.
  reflexivity.
Qed.

End Launch.

Lemma refused_launch_writes_nothing_witness :
  exists text,
    cmd_launch BotSample.agents BotSample.models Sample.uuid_c
               "2024-01-02T09:30:00" "bob" "tester" "claude-sonnet"
               "run the tests" None
    = (Ok (Message (cross ++ " " ++ text)%string), None).
Proof.
  exact (refused_launch_writes_nothing BotSample.agents BotSample.models
           Sample.uuid_c "2024-01-02T09:30:00" "bob" "tester" "claude-sonnet"
           "run the tests" None eq_refl).
Defined.

Lemma accepted_launch_queues_one_task_witness :
  exists agent_config,
    Dict.get BotSample.agents "tester" = Some agent_config
    /\ fst (cmd_launch BotSample.agents BotSample.models Sample.uuid_c
                       "2024-01-02T09:30:00" "bob" "tester" "claude-opus"
                       "run the tests" None)
       = Ok (Embed (queued_card (task_id_of Sample.uuid_c)
                                (agent_name agent_config) "claude-opus"
                                "run the tests"))
    /\ stored (snd (cmd_launch BotSample.agents BotSample.models Sample.uuid_c
                               "2024-01-02T09:30:00" "bob" "tester"
                               "claude-opus" "run the tests" None))
       = Ok {| tasks := [] ++ [Sample.task_c] |}.
Proof.
  exact (accepted_launch_queues_one_task BotSample.agents BotSample.models
           Sample.uuid_c "2024-01-02T09:30:00" "bob" "tester" "claude-opus"
           "run the tests" None {| tasks := [] |} eq_refl eq_refl).
Defined.

Lemma launch_then_status_witness :
  cmd_task_status (task_id_of Sample.uuid_c)
    (snd (cmd_launch BotSample.agents BotSample.models Sample.uuid_c
                     "2024-01-02T09:30:00" "bob" "tester" "claude-opus"
                     "run the tests" None))
  = (Ok (Embed
           {| title := (hourglass ++ " Task: " ++ task_id_of Sample.uuid_c)%string;
              color := blurple;
              fields :=
                [ {| name := "Status"; value := VStr "QUEUED"; inline := true |};
                  {| name := "Agent"; value := VStr "tester"; inline := true |};
                  {| name := "Model"; value := VStr "claude-opus";
                     inline := true |};
                  {| name := "Task"; value := VStr "run the tests";
                     inline := false |};
                  {| name := "Created"; value := VStr "2024-01-02T09:30:00";
                     inline := true |} ]
           |}),
     snd (cmd_launch BotSample.agents BotSample.models Sample.uuid_c
                     "2024-01-02T09:30:00" "bob" "tester" "claude-opus"
                     "run the tests" None)).
Proof.
  apply (launch_then_status BotSample.agents BotSample.models
           Sample.uuid_c "2024-01-02T09:30:00" "bob" "tester" "claude-opus"
           "run the tests" None {| tasks := [] |});
    [reflexivity | reflexivity | constructor | intros []].
Defined.

(** *** Reading commands *)

(** X24.  [/taskstatus] and [/tasklist] read.  Whatever the file holds and
    whatever they answer or raise, they leave the file as [TaskQueue ()]
    leaves it: created, holding no task, where it was missing, and as it
    was otherwise. *)
Theorem reading_commands_only_create_the_file fs task_id status :
  snd (cmd_task_status task_id fs) = snd (__init__ fs)
  /\ snd (cmd_task_list status fs) = snd (__init__ fs).
Proof.
  unfold cmd_task_status, cmd_task_list, bind.
  generalize (init_returns fs). destruct (__init__ fs) as [r s].
  cbn [snd]. intros [= ->]. split.
  - rewrite get_task_run.
    destruct (rbind _ _) as [[[|kv t]|]|e]; try reflexivity.
    unfold lift. destruct (status_card task_id (kv :: t)); reflexivity.
  - destruct (status_filter_of status) as [status_filter|]; [|reflexivity].
    rewrite list_tasks_run.
    destruct (rbind _ _) as [[|t ts]|e]; try reflexivity.
    unfold lift. destruct (mapM task_line (slice_to 5 (t :: ts))); reflexivity.
Qed.

(** X25.  [/taskstatus] on an id that no stored task has: the answer is the
    message that the task was not found. *)
Theorem status_of_unknown_task fs data task_id :
  stored (snd (__init__ fs)) = Ok data ->
  Forall (has_field "id") (tasks data) ->
  ~ In (Some (VStr task_id)) (ids (tasks data)) ->
  fst (cmd_task_status task_id fs) = Ok (Message (not_found task_id)).
Proof.
  intros Hs Hid Hout. unfold cmd_task_status, bind.
  rewrite init_returns, get_task_run, Hs. cbn [rbind].
  now rewrite (find_task_absent _ _ Hid Hout).
Qed.

Lemma status_of_unknown_task_witness :
  fst (cmd_task_status "task-0000000a" Sample.two_tasks_file)
  = Ok (Message (not_found "task-0000000a")).
Proof.
  apply (status_of_unknown_task Sample.two_tasks_file Sample.two_tasks).
  - vm_compute. reflexivity.
  - repeat constructor.
  - intros [H|[H|[]]]; discriminate H.
Defined.

Lemma TaskStatus_of_value st : TaskStatus_of (Queue.value st) = Some st.
Proof. destruct st; reflexivity. Qed.

Lemma TaskStatus_of_some s st : TaskStatus_of s = Some st -> s = Queue.value st.
Proof.
  unfold TaskStatus_of. intros H. apply find_some in H as [_ H].
  now apply String.eqb_eq in H.
Qed.

(** X26.  The words that [/tasklist] takes.  [TaskStatus (s)] succeeds exactly on
    the values of the five members, so the command filters by a status
    exactly when given its value, lists every status when given [all], and
    otherwise (a status in capitals, say) answers that the status is
    invalid, without reading the queue. *)
Theorem tasklist_status_words status fs :
  (forall st, status_filter_of status = Some (Some st)
              <-> status = Queue.value st)
  /\ (status_filter_of status = Some None <-> status = "all")
  /\ (status_filter_of status = None ->
      cmd_task_list status fs = (Ok (Message invalid_status), snd (__init__ fs))).
Proof.
  split; [|split].
  - intros st. unfold status_filter_of. split.
    + destruct (String.eqb status "all"); cbn [negb]; [intros [=]|].
      destruct (TaskStatus_of status) as [st'|] eqn:E; cbn [option_map];
        [|intros [=]].
      intros [= ->]. now apply TaskStatus_of_some.
    + intros ->. destruct st; reflexivity.
  - unfold status_filter_of. split.
    + destruct (String.eqb_spec status "all") as [->|Hne]; cbn [negb];
        [reflexivity|].
      destruct (TaskStatus_of status); intros [=].
    + now intros ->.
  - intros H. unfold cmd_task_list, bind.
    rewrite init_returns, H. reflexivity.
Qed.

Lemma tasklist_status_words_witness :
  cmd_task_list "QUEUED" None = (Ok (Message invalid_status), snd (__init__ None)).
Proof.
  exact (proj2 (proj2 (tasklist_status_words "QUEUED" None)) eq_refl).
Defined.

Lemma slice_to_5_of_10 {A : Type} (l : list A) :
  slice_to 5 (slice_to 10 l) = slice_to 5 l
  /\ (slice_to 10 l = [] <-> slice_to 5 l = []).
Proof.
  rewrite !slice_to_firstn by lia.
  change (Z.to_nat 5) with 5. change (Z.to_nat 10) with 10.
  split.
  - rewrite firstn_firstn. reflexivity.
  - destruct l; cbn; [tauto|]. split; discriminate.
Qed.

(** X27.  [/tasklist] shows what [list_tasks] returns for a limit of five: the
    ten that it asks for and the five that it keeps come to that.  With no
    task to show it says so; otherwise it answers with one line per task, in
    their order, or raises what the first task that lacks a field makes it
    raise. *)
Theorem tasklist_shows_five status status_filter fs :
  status_filter_of status = Some status_filter ->
  fst (cmd_task_list status fs)
  = match fst (list_tasks status_filter 5 (snd (__init__ fs))) with
    | Ok [] => Ok (Message "No tasks found")
    | Ok tasks =>
        (lines <- mapM task_line tasks ;;
         Ok (Embed {| title := (clipboard ++ " Recent Tasks (" ++ status
                                  ++ ")")%string;
                      color := blurple;
                      fields := lines |}))%result
    | Raise e => Raise e
    end.
Proof.
  intros Hf. unfold cmd_task_list, bind. rewrite Hf.
  generalize (init_returns fs). destruct (__init__ fs) as [r s].
  cbn [snd]. intros [= ->].
  rewrite !list_tasks_run. cbn [fst].
  destruct (stored s) as [data|e]; [|reflexivity].
  cbn [rbind].
  destruct (match status_filter with
            | Some st => with_status st (tasks data)
            | None => Ok (tasks data)
            end) as [ts|e]; [|reflexivity].
  cbn [rbind].
  destruct (sort_by_created_at_reverse ts) as [sorted|e]; [|reflexivity].
  cbn [rbind].
  destruct (slice_to_5_of_10 sorted) as [E5 Eempty].
  destruct (slice_to 10 sorted) as [|t r] eqn:E10.
  - rewrite (proj1 Eempty eq_refl). reflexivity.
  - rewrite <- E5. change (slice_to 5 (t :: r)) with (t :: firstn 4 r).
    unfold lift. destruct (mapM task_line (t :: firstn 4 r)); reflexivity.
Qed.

Lemma tasklist_shows_five_witness :
  fst (cmd_task_list "queued" Sample.two_tasks_file)
  = match fst (list_tasks (Some QUEUED) 5
                          (snd (__init__ Sample.two_tasks_file))) with
    | Ok [] => Ok (Message "No tasks found")
    | Ok tasks =>
        (lines <- mapM task_line tasks ;;
         Ok (Embed {| title := (clipboard ++ " Recent Tasks (" ++ "queued"
                                  ++ ")")%string;
                      color := blurple;
                      fields := lines |}))%result
    | Raise e => Raise e
    end.
Proof.
  exact (tasklist_shows_five "queued" (Some QUEUED) Sample.two_tasks_file
           eq_refl).
Defined.

End BotLaws.

(* ================================================================== *)
(** ** The messages *)

Module FormatLaws.

Import Text TextFacts Formatters.

Lemma one_line_app (a b : string) :
  one_line (a ++ b)%string <-> one_line a /\ one_line b.
Proof.
  unfold one_line. induction a as [|c a IH]; cbn.
  - tauto.
  - rewrite !andb_true_iff, IH. tauto.
Qed.

Lemma one_line_digits d : one_line (NilEmpty.string_of_uint d).
Proof.
  unfold one_line.
  induction d as [|d IH|d IH|d IH|d IH|d IH|d IH|d IH|d IH|d IH|d IH];
    [reflexivity | exact IH ..].
Qed.

Lemma one_line_uint d : one_line (NilZero.string_of_uint d).
Proof. destruct d; try reflexivity; apply one_line_digits. Qed.

Lemma one_line_str_of_int z : one_line (str_of_int z).
Proof.
  unfold str_of_int. destruct (Z.to_int z) as [d|d].
  - apply one_line_uint.
  - exact (one_line_uint d).
Qed.

Lemma lines_one_line s : one_line s -> lines s = [s].
Proof. apply split_plain. Qed.

Lemma lines_app (a b : string) :
  lines (a ++ nl ++ b)%string = lines a ++ lines b.
Proof. apply split_app. Qed.

(** The lines of parts joined by line feeds are the lines of the parts. *)
Lemma lines_join (parts : list string) :
  parts <> [] ->
  lines (Registry.join nl parts) = List.concat (map lines parts).
Proof.
  induction parts as [|x [|y r] IH]; intros Hne.
  - contradiction.
  - cbn. now rewrite app_nil_r.
  - change (Registry.join nl (x :: y :: r))
      with (x ++ nl ++ Registry.join nl (y :: r))%string.
    rewrite lines_app, IH by discriminate. reflexivity.
Qed.

Lemma concat_lines (l : list string) :
  Forall one_line l -> List.concat (map lines l) = l.
Proof.
  induction 1 as [|x l Hx _ IH]; cbn; [reflexivity|].
  now rewrite (lines_one_line _ Hx), IH.
Qed.

Lemma lines_parts (a b : list string) :
  List.concat (map lines (a ++ b))
  = List.concat (map lines a) ++ List.concat (map lines b).
Proof. now rewrite map_app, concat_app. Qed.

Lemma lines_part (x : string) : List.concat (map lines [x]) = lines x.
Proof. cbn. apply app_nil_r. Qed.

Lemma Forall_firstn {A : Type} (P : A -> Prop) n :
  forall l, Forall P l -> Forall P (firstn n l).
Proof.
  induction n as [|n IH]; intros l H; [constructor|].
  destruct H; cbn; constructor; auto.
Qed.

Lemma lines_listed (files : list string) :
  files <> [] -> Forall one_line files ->
  lines (Registry.join nl files) = files.
Proof.
  intros Hne H. rewrite lines_join by assumption. now apply concat_lines.
Qed.

Lemma one_line_more_files z : one_line (more_files z).
Proof.
  unfold more_files. apply one_line_app. split; [reflexivity|].
  apply one_line_app. split; [apply one_line_str_of_int | reflexivity].
Qed.

(** The parts of an announcement, before they are joined. *)
Lemma format_task_announcement_parts timestamp agent_name title files notes
      emoji show_timestamp code_blocks max_files :
  format_task_announcement timestamp agent_name title files notes emoji
                           show_timestamp code_blocks max_files
  = Registry.join nl
      ([(emoji ++ " **" ++ agent_name ++ "** started: " ++ title)%string]
         ++ match files with
            | Some ((_ :: _) as files) =>
                if (Z.of_nat (List.length files) >? max_files)%Z then
                  if code_blocks then
                    [(fence ++ nl
                        ++ Registry.join nl (Queue.slice_to max_files files)
                        ++ nl
                        ++ more_files (Z.of_nat (List.length files) - max_files)
                        ++ nl ++ fence)%string]
                  else
                    [(Registry.join nl (Queue.slice_to max_files files) ++ nl
                        ++ more_files (Z.of_nat (List.length files) - max_files))%string]
                else
                  if code_blocks then
                    [(fence ++ nl ++ Registry.join nl files ++ nl ++ fence)%string]
                  else [Registry.join nl files]
            | _ => []
            end
         ++ (if given notes then [("_" ++ text_of notes ++ "_")%string] else [])
         ++ (if show_timestamp then
               [("_Started at " ++ timestamp ++ "_")%string]
             else [])).
Proof.
  unfold format_task_announcement.
  destruct files as [[|f files]|];
    try destruct (Z.of_nat (List.length (f :: files)) >? max_files)%Z;
    destruct code_blocks, (given notes), show_timestamp; reflexivity.
Qed.

(** X28.  An announcement, line by line.  With a positive [max_files] and no line
    feed in the arguments, the message is the header, then, if files are
    given, the first [max_files] of them, one per line, followed by the
    count of those left out when there are more, the whole between two
    fences if [code_blocks] is set; then the notes, if given; then the time,
    if asked for. *)
Theorem announcement_lines timestamp agent_name title files notes emoji
        show_timestamp code_blocks max_files :
  (0 < max_files)%Z ->
  Forall one_line
         (emoji :: agent_name :: title :: timestamp :: text_of notes :: files) ->
  lines (format_task_announcement timestamp agent_name title (Some files) notes
                                  emoji show_timestamp code_blocks max_files)
  = [(emoji ++ " **" ++ agent_name ++ "** started: " ++ title)%string]
      ++ match files with
         | [] => []
         | _ :: _ =>
             (if code_blocks then [fence] else [])
               ++ firstn (Z.to_nat max_files) files
               ++ (if (Z.of_nat (List.length files) >? max_files)%Z then
                     [more_files (Z.of_nat (List.length files) - max_files)]
                   else [])
               ++ (if code_blocks then [fence] else [])
         end
      ++ (if given notes then [("_" ++ text_of notes ++ "_")%string] else [])
      ++ (if show_timestamp then [("_Started at " ++ timestamp ++ "_")%string]
          else []).
Proof.
  intros Hmax H.
  inversion H as [|? ? He H1]; subst. inversion H1 as [|? ? Ha H2]; subst.
  inversion H2 as [|? ? Ht H3]; subst. inversion H3 as [|? ? Hts H4]; subst.
  inversion H4 as [|? ? Hn Hf]; subst. clear H H1 H2 H3 H4.
  rewrite format_task_announcement_parts, lines_join by discriminate.
  rewrite !lines_parts. f_equal; [|f_equal].
  - rewrite lines_part. apply lines_one_line.
    repeat (apply one_line_app; split); trivial; reflexivity.
  - destruct files as [|f files]; [reflexivity|].
    assert (Hshown : lines (Registry.join nl (firstn (Z.to_nat max_files)
                                                     (f :: files)))
                     = firstn (Z.to_nat max_files) (f :: files)).
    { apply lines_listed; [|now apply Forall_firstn].
      destruct (Z.to_nat max_files) eqn:E; [lia | discriminate]. }
    cbv beta iota.
    rewrite (QueueFacts.slice_to_firstn max_files (f :: files)) by lia.
    destruct (Z.gtb_spec (Z.of_nat (List.length (f :: files))) max_files)
      as [Hgt|Hle].
    + destruct code_blocks; rewrite lines_part, !lines_app, Hshown,
        ?(lines_one_line _ (one_line_more_files _));
        reflexivity.
    + assert (Hall : firstn (Z.to_nat max_files) (f :: files) = f :: files)
        by (apply firstn_all2; lia).
      rewrite Hall in *.
      destruct code_blocks; rewrite lines_part, ?lines_app, Hshown;
        cbn [app]; rewrite ?app_nil_r; reflexivity.
  - destruct (given notes), show_timestamp; cbn [map List.concat app];
      rewrite ?lines_one_line; trivial;
      repeat (apply one_line_app; split); trivial; reflexivity.
Qed.

Lemma announcement_lines_witness :
  lines (format_task_announcement "2024-01-02 09:30:00" "builder" "refactor"
           (Some ["a.py"; "b.py"; "c.py"]) (Some "wip") Bot.construction
           true true 2)
  = [(Bot.construction ++ " **builder** started: refactor")%string]
      ++ ([fence] ++ ["a.py"; "b.py"] ++ [more_files 1] ++ [fence])
      ++ ["_wip_"] ++ ["_Started at 2024-01-02 09:30:00_"].
Proof.
  apply (announcement_lines "2024-01-02 09:30:00" "builder" "refactor"
           ["a.py"; "b.py"; "c.py"] (Some "wip") Bot.construction true true 2).
  - reflexivity.
  - repeat constructor.
Defined.

(** X29.  A question, line by line.  The context, of however many lines, stands
    intact between two fences, after the header and before the time. *)
Theorem question_lines timestamp agent_name question context emoji
        show_timestamp :
  Forall one_line [emoji; agent_name; question; timestamp] ->
  lines (format_question timestamp agent_name question context emoji
                         show_timestamp)
  = [(emoji ++ " **" ++ agent_name ++ "** asks: " ++ question)%string]
      ++ (if given context then [fence] ++ lines (text_of context) ++ [fence]
          else [])
      ++ (if show_timestamp then [("_" ++ timestamp ++ "_")%string] else []).
Proof.
  intros H.
  inversion H as [|? ? He H1]; subst. inversion H1 as [|? ? Ha H2]; subst.
  inversion H2 as [|? ? Hq H3]; subst. inversion H3 as [|? ? Hts _]; subst.
  clear H H1 H2 H3.
  assert (E : format_question timestamp agent_name question context emoji
                              show_timestamp
              = Registry.join nl
                  ([(emoji ++ " **" ++ agent_name ++ "** asks: " ++ question)%string]
                     ++ (if given context then
                           [(fence ++ nl ++ text_of context ++ nl ++ fence)%string]
                         else [])
                     ++ (if show_timestamp then [("_" ++ timestamp ++ "_")%string]
                         else []))).
  { unfold format_question. destruct (given context), show_timestamp;
      reflexivity. }
  rewrite E, lines_join by discriminate. rewrite !lines_parts.
  f_equal; [|f_equal].
  - rewrite lines_part. apply lines_one_line.
    repeat (apply one_line_app; split); trivial; reflexivity.
  - destruct (given context); [|reflexivity].
    rewrite lines_part, !lines_app. reflexivity.
  - destruct show_timestamp; [|reflexivity].
    rewrite lines_part. apply lines_one_line.
    repeat (apply one_line_app; split); trivial; reflexivity.
Qed.

Lemma question_lines_witness :
  lines (format_question "2024-01-02 09:30:00" "builder" "merge now?"
           (Some ("2 files changed" ++ nl ++ "1 test fails")%string)
           Bot.question false)
  = [(Bot.question ++ " **builder** asks: merge now?")%string]
      ++ ([fence] ++ ["2 files changed"; "1 test fails"] ++ [fence])
      ++ [].
Proof.
  apply (question_lines "2024-01-02 09:30:00" "builder" "merge now?"
           (Some ("2 files changed" ++ nl ++ "1 test fails")%string)
           Bot.question false).
  repeat constructor.
Defined.

(** X30.  A completion, line by line.  With no line feed in the arguments, the
    message is the header followed by one line for each of the duration,
    the commit and the notes that is given and not empty, in this order,
    and by the time if asked for. *)
Theorem completion_lines timestamp agent_name title duration commit notes
        emoji show_timestamp :
  Forall one_line [emoji; agent_name; title; timestamp; text_of duration;
                   text_of commit; text_of notes] ->
  lines (format_task_completion timestamp agent_name title duration commit
                                notes emoji show_timestamp)
  = [(emoji ++ " **" ++ agent_name ++ "** completed: " ++ title)%string]
      ++ (if given duration then [("Duration: " ++ text_of duration)%string]
          else [])
      ++ (if given commit then [("Commit: `" ++ text_of commit ++ "`")%string]
          else [])
      ++ (if given notes then [("_" ++ text_of notes ++ "_")%string] else [])
      ++ (if show_timestamp then
            [("_Completed at " ++ timestamp ++ "_")%string]
          else []).
Proof.
  intros H.
  inversion H as [|? ? He H1]; subst. inversion H1 as [|? ? Ha H2]; subst.
  inversion H2 as [|? ? Ht H3]; subst. inversion H3 as [|? ? Hts H4]; subst.
  inversion H4 as [|? ? Hd H5]; subst. inversion H5 as [|? ? Hc H6]; subst.
  inversion H6 as [|? ? Hn _]; subst. clear H H1 H2 H3 H4 H5 H6.
  assert (E : format_task_completion timestamp agent_name title duration
                                     commit notes emoji show_timestamp
              = Registry.join nl
                  ([(emoji ++ " **" ++ agent_name ++ "** completed: "
                       ++ title)%string]
                     ++ (if given duration then
                           [("Duration: " ++ text_of duration)%string]
                         else [])
                     ++ (if given commit then
                           [("Commit: `" ++ text_of commit ++ "`")%string]
                         else [])
                     ++ (if given notes then
                           [("_" ++ text_of notes ++ "_")%string]
                         else [])
                     ++ (if show_timestamp then
                           [("_Completed at " ++ timestamp ++ "_")%string]
                         else []))).
  { unfold format_task_completion.
    destruct (given duration), (given commit), (given notes), show_timestamp;
      reflexivity. }
  rewrite E, lines_join by discriminate. apply concat_lines.
  apply Forall_app. split.
  { constructor; [|constructor].
    repeat (apply one_line_app; split); trivial; reflexivity. }
  apply Forall_app. split.
  { destruct (given duration); constructor; [|constructor].
    repeat (apply one_line_app; split); trivial; reflexivity. }
  apply Forall_app. split.
  { destruct (given commit); constructor; [|constructor].
    repeat (apply one_line_app; split); trivial; reflexivity. }
  apply Forall_app. split.
  { destruct (given notes); constructor; [|constructor].
    repeat (apply one_line_app; split); trivial; reflexivity. }
  destruct show_timestamp; constructor; [|constructor].
  repeat (apply one_line_app; split); trivial; reflexivity.
Qed.

Lemma completion_lines_witness :
  lines (format_task_completion "2024-01-02 09:30:00" "builder" "refactor"
           (Some "12m") (Some EmptyString) None Bot.check_mark true)
  = [(Bot.check_mark ++ " **builder** completed: refactor")%string]
      ++ ["Duration: 12m"] ++ [] ++ []
      ++ ["_Completed at 2024-01-02 09:30:00_"].
Proof.
  apply (completion_lines "2024-01-02 09:30:00" "builder" "refactor"
           (Some "12m") (Some EmptyString) None Bot.check_mark true).
  repeat constructor.
Defined.

End FormatLaws.
